(** * Kenya real-estate scraper: normalisation pipeline and crawl state machine

    A shallow embedding of [src/normalize.js], of the search URLs, the
    page extraction and the request handlers of [src/buyrentkenya.js] and
    [src/jiji.js], and of the source loop of [src/main.js], followed by the
    properties established about them.

    Modelling conventions.
    - A JavaScript string is a [list ascii] ([str]).  The development covers
      ASCII text: case mapping acts on the letters [A-Z]/[a-z] only and the
      white-space class is the ASCII part of the regular expression class
      [\s] (TAB, LF, VT, FF, CR, SPACE).
    - A JavaScript number is [NaN], an infinity or the exact rational
      value of a finite IEEE-754 double, kept in lowest terms ([number]).
      Reading a decimal text and the arithmetic operations round to the
      nearest double, a tie going to the even mantissa ([double]); an
      overflow gives an infinity.  Negative zero is not told apart from
      zero.  A number handed over as a raw field ([VNum]) is an integer,
      and its text is the run of its decimal digits, as it is for the
      integers below 10^21.
    - Counters and quotas ([listingCount], [maxListings]) are natural
      numbers.
    - Closure variables of a crawler ([listings], [listingCount]) and the
      requests it hands to the crawling engine are threaded as an explicit
      state record.
    - A fetched document is the record of what the selectors of
      [extractListingFromPage] find in it ([Document]).
    - Reading a key of an object literal gives a value it defines, a member
      inherited from [Object.prototype], or [undefined]; where the text of
      an inherited member would become part of a URL, [buildSearchUrl]
      gives no result. *)

From Stdlib Require Import List Ascii String ZArith QArith Qround Qreduction.
From Stdlib Require Import Bool Arith Lia DecimalString.
From Stdlib Require DecimalPos.
Import ListNotations.

Open Scope string_scope.
Open Scope list_scope.
Open Scope nat_scope.

(* ================================================================== *)
(** ** JavaScript strings, values and numbers *)
(* ================================================================== *)

Module JS.

Definition str := list ascii.

Definition lit (s : string) : str := list_ascii_of_string s.
Coercion lit : string >-> str.

Definition lits (l : list string) : list str := map lit l.

Definition cat (a b : str) : str := a ++ b.
Infix "+++" := cat (at level 60, right associativity).

Definition eqs (a b : str) : bool :=
  if list_eq_dec ascii_dec a b then true else false.

Definition isEmpty (s : str) : bool :=
  match s with [] => true | _ => false end.

(** Character classes. *)
Definition isSpace (c : ascii) : bool :=
  let n := nat_of_ascii c in ((9 <=? n) && (n <=? 13)) || (n =? 32).

Definition isDigit (c : ascii) : bool :=
  let n := nat_of_ascii c in (48 <=? n) && (n <=? 57).

Definition isUpper (c : ascii) : bool :=
  let n := nat_of_ascii c in (65 <=? n) && (n <=? 90).

Definition isLower (c : ascii) : bool :=
  let n := nat_of_ascii c in (97 <=? n) && (n <=? 122).

(** The class [\w]. *)
Definition isWord (c : ascii) : bool :=
  isDigit c || isUpper c || isLower c || Ascii.eqb c "_".

Definition upperChar (c : ascii) : ascii :=
  if isLower c then ascii_of_nat (nat_of_ascii c - 32) else c.

Definition lowerChar (c : ascii) : ascii :=
  if isUpper c then ascii_of_nat (nat_of_ascii c + 32) else c.

Definition toUpperCase (s : str) : str := map upperChar s.
Definition toLowerCase (s : str) : str := map lowerChar s.

(** [String.prototype.trim] and its two halves. *)
Fixpoint trimStart (s : str) : str :=
  match s with
  | [] => []
  | c :: s' => if isSpace c then trimStart s' else s
  end.

Fixpoint trimEnd (s : str) : str :=
  match s with
  | [] => []
  | c :: s' =>
      match trimEnd s' with
      | [] => if isSpace c then [] else [c]
      | r => c :: r
      end
  end.

Definition trim (s : str) : str := trimEnd (trimStart s).

(** [s.startsWith(p)]. *)
Fixpoint startsWith (s p : str) {struct p} : bool :=
  match p with
  | [] => true
  | a :: p' =>
      match s with
      | [] => false
      | b :: s' => Ascii.eqb a b && startsWith s' p'
      end
  end.

(** [s.includes(needle)] on strings. *)
Fixpoint includes (s needle : str) : bool :=
  startsWith s needle ||
  match s with
  | [] => false
  | _ :: s' => includes s' needle
  end.

(** [arr.includes(x)] on an array of strings. *)
Definition arrayIncludes (arr : list str) (x : str) : bool :=
  existsb (eqs x) arr.

(** [s.slice(n)] for [0 <= n]. *)
Definition slice (n : nat) (s : str) : str := skipn n s.

(** [s.split(sep)] for a one-character separator. *)
Fixpoint split (sep : ascii) (s : str) : list str :=
  match s with
  | [] => [[]]
  | c :: s' =>
      if Ascii.eqb c sep then [] :: split sep s'
      else match split sep s' with
           | [] => [[c]]
           | seg :: segs => (c :: seg) :: segs
           end
  end.

(** A prefix test that ignores letter case: how a regular expression with
    the [i] flag compares a literal with the text. *)
Fixpoint startsWithCI (s p : str) {struct p} : bool :=
  match p with
  | [] => true
  | a :: p' =>
      match s with
      | [] => false
      | b :: s' => Ascii.eqb (upperChar a) (upperChar b) && startsWithCI s' p'
      end
  end.

(** The alternation [a1|a2|...] of literals tried at the head of [s], in
    order: the length of the first alternative that matches. *)
Fixpoint matchAlt (alts : list str) (s : str) : option nat :=
  match alts with
  | [] => None
  | a :: rest =>
      if startsWithCI s a then Some (List.length a) else matchAlt rest s
  end.

(** [s.replace(/a1|a2|.../gi, '')]: every match, found from left to right,
    is deleted; the flag tells whether there was any match (the callback of
    the replace call ran).  [skip] counts the characters of the current
    match that are still to be dropped. *)
Fixpoint replaceAlt (alts : list str) (skip : nat) (s : str) : str * bool :=
  match s with
  | [] => ([], false)
  | c :: s' =>
      match skip with
      | S k => replaceAlt alts k s'
      | O =>
          match matchAlt alts s with
          | Some (S k) => (fst (replaceAlt alts k s'), true)
          | _ => let (r, found) := replaceAlt alts 0 s' in (c :: r, found)
          end
      end
  end.

(** Values a scraped field may hold. [VNum] is an integer-valued number. *)
Inductive value :=
| VUndefined
| VNull
| VBool (b : bool)
| VNum (z : Z)
| VStr (s : str).

(** [!!v]. *)
Definition truthy (v : value) : bool :=
  match v with
  | VUndefined | VNull => false
  | VBool b => b
  | VNum z => negb (z =? 0)%Z
  | VStr s => negb (isEmpty s)
  end.

(** [a || b]. *)
Definition or_else (a b : value) : value := if truthy a then a else b.

(** [String(v)]; an integer prints as its decimal digits. *)
Definition ToString (v : value) : str :=
  match v with
  | VUndefined => "undefined"
  | VNull => "null"
  | VBool true => "true"
  | VBool false => "false"
  | VNum z => lit (NilZero.string_of_int (Z.to_int z))
  | VStr s => s
  end.

(** Numbers: [NaN], the two infinities, or the value of a finite double
    as a rational in lowest terms. *)
Inductive number :=
| NaN
| Inf (negative : bool)
| Fin (q : Q).

(** The integer nearest to [n / d], for [0 < d]; a tie goes to the even
    one. *)
Definition roundHalfEven (n d : Z) : Z :=
  let f := (n / d)%Z in
  match (2 * (n mod d) ?= d)%Z with
  | Lt => f
  | Gt => (f + 1)%Z
  | Eq => if Z.even f then f else (f + 1)%Z
  end.

(** The integer part of the binary logarithm of [n / d], for [0 < n] and
    [0 < d]. *)
Definition ilog2 (n d : Z) : Z :=
  let e := (Z.log2 n - Z.log2 d)%Z in
  if (if 0 <=? e then 2 ^ e * d <=? n else d <=? n * 2 ^ (- e))%Z
  then e else (e - 1)%Z.

(** The double nearest to [n / d], for [0 < n] and [0 < d]: a mantissa of
    at most 53 bits times a power of two that is at least [2^-1074];
    [None] when the result is [2^1024] or more (overflow). *)
Definition nearest64 (n d : Z) : option Q :=
  let e := Z.max (ilog2 n d - 52) (-1074) in
  if (0 <=? e)%Z then
    let v := (roundHalfEven n (d * 2 ^ e) * 2 ^ e)%Z in
    if (2 ^ 1024 <=? v)%Z then None else Some (inject_Z v)
  else
    Some (Qred (roundHalfEven (n * 2 ^ (- e)) d # Z.to_pos (2 ^ (- e)))).

(** The Number value for a rational: IEEE-754 binary64, round to nearest,
    ties to even. *)
Definition double (q : Q) : number :=
  match Qnum q with
  | Z0 => Fin 0
  | Zpos n =>
      match nearest64 (Zpos n) (Zpos (Qden q)) with
      | Some v => Fin v
      | None => Inf false
      end
  | Zneg n =>
      match nearest64 (Zpos n) (Zpos (Qden q)) with
      | Some v => Fin (- v)
      | None => Inf true
      end
  end.

Definition isNegative (q : Q) : bool := (Qnum q <? 0)%Z.
Definition isZero (q : Q) : bool := (Qnum q =? 0)%Z.

(** [a * b]. *)
Definition times (a b : number) : number :=
  match a, b with
  | NaN, _ | _, NaN => NaN
  | Fin x, Fin y => double (x * y)
  | Inf s, Inf t => Inf (xorb s t)
  | Inf s, Fin y | Fin y, Inf s =>
      if isZero y then NaN else Inf (xorb s (isNegative y))
  end.

(** [a / b]. *)
Definition over (a b : number) : number :=
  match a, b with
  | NaN, _ | _, NaN => NaN
  | Fin x, Fin y =>
      if isZero y then (if isZero x then NaN else Inf (isNegative x))
      else double (x / y)
  | Inf _, Inf _ => NaN
  | Inf s, Fin y => Inf (xorb s (isNegative y))
  | Fin _, Inf _ => Fin 0
  end.

(** [Math.round]: the nearest integer, a tie going up.  The result is
    exact: a double of magnitude [2^52] or more is an integer already. *)
Definition Math_round (a : number) : number :=
  match a with
  | Fin q => Fin (inject_Z (Qfloor (q + (1 # 2))))
  | _ => a
  end.

(** [Math.ceil(a / b)] on counts, for [0 < b]. *)
Definition ceilDiv (a b : nat) : nat := (a + b - 1) / b.

Definition digitVal (c : ascii) : Z := Z.of_nat (nat_of_ascii c - 48).

Definition digitsValue (ds : str) : Z :=
  fold_left (fun acc c => (10 * acc + digitVal c)%Z) ds 0%Z.

Fixpoint pow10 (n : nat) : positive :=
  match n with
  | O => 1%positive
  | S n' => (10 * pow10 n')%positive
  end.

Fixpoint takeWhile (p : ascii -> bool) (s : str) : str :=
  match s with
  | [] => []
  | c :: s' => if p c then c :: takeWhile p s' else []
  end.

Fixpoint dropWhile (p : ascii -> bool) (s : str) : str :=
  match s with
  | [] => []
  | c :: s' => if p c then dropWhile p s' else s
  end.

(** [parseFloat] on unsigned decimal text without exponent, which is all a
    match of [[\d.]+] can hold: the longest prefix [digits], [digits.],
    [digits.digits] or [.digits] is read, and the value is the double
    nearest to the decimal number; there is none when both digit runs are
    empty. *)
Definition parseFloat (s : str) : number :=
  let s := trimStart s in
  let ip := takeWhile isDigit s in
  let fp := match dropWhile isDigit s with
            | c :: r => if Ascii.eqb c "." then takeWhile isDigit r else []
            | [] => []
            end in
  match ip ++ fp with
  | [] => NaN
  | ds => double (digitsValue ds # pow10 (List.length fp))
  end.

(** [s.replace(pat, rep)] for a string pattern and a replacement text
    without [$]: the first occurrence of [pat], if any, is replaced. *)
Fixpoint replaceFirst (pat rep s : str) : str :=
  if startsWith s pat then rep ++ skipn (List.length pat) s
  else match s with
       | [] => []
       | c :: s' => c :: replaceFirst pat rep s'
       end.

(** [s.replace(/\s+/g, '-')]: every maximal run of white space becomes
    one hyphen.  [inRun] tells that the previous character was white
    space. *)
Fixpoint hyphenate (inRun : bool) (s : str) : str :=
  match s with
  | [] => []
  | c :: s' =>
      if isSpace c then
        if inRun then hyphenate true s' else "-"%char :: hyphenate true s'
      else c :: hyphenate false s'
  end.

(** [s.match(/\d+/)?.[0]]: the first maximal run of digits. *)
Fixpoint firstDigits (s : str) : option str :=
  match s with
  | [] => None
  | c :: s' => if isDigit c then Some (takeWhile isDigit s) else firstDigits s'
  end.

(** [s.split('/').pop()]: what follows the last slash. *)
Definition lastSegment (s : str) : str := last (split "/" s) [].

(** [parseInt(s, 10)]: leading white space and one sign are skipped and
    the longest run of digits that follows is read; the value is the
    double nearest to the integer, and [NaN] without a digit. *)
Definition parseInt (s : str) : number :=
  let s := trimStart s in
  let signed :=
    match s with
    | c :: r => if Ascii.eqb c "-" then (true, r)
                else if Ascii.eqb c "+" then (false, r)
                else (false, s)
    | [] => (false, s)
    end in
  match takeWhile isDigit (snd signed) with
  | [] => NaN
  | ds => double (inject_Z (if fst signed then (- digitsValue ds)%Z
                            else digitsValue ds))
  end.

End JS.

(* ================================================================== *)
(** ** normalize.js *)
(* ================================================================== *)

Module Normalize.
Import JS.

(** Exchange rates (approximate, fixed): the doubles of the two
    literals. *)
Definition KES_TO_USD_RATE : number := double (64 # 10000).
Definition USD_TO_KES_RATE : number := double (15625 # 100).

Record Price := {
  amount : option number;
  currency : str;
  original : option str
}.

(** [.replace(/[,\s]/g, '')]. *)
Definition stripSeparators (s : str) : str :=
  filter (fun c => negb (Ascii.eqb c "," || isSpace c)) s.

(** The alternatives of [/KSH|KES|SH|\/=|SHILLINGS?/gi], in order. *)
Definition kesTokens : list str :=
  lits ["KSH"; "KES"; "SH"; "/="; "SHILLINGS"; "SHILLING"].

(** The alternatives of [/USD|\$/gi]. *)
Definition usdTokens : list str := lits ["USD"; "$"].

Definition isNumChar (c : ascii) : bool := isDigit c || Ascii.eqb c ".".

(** [cleaned.match(/[\d.]+/)]: the first maximal run of digits and dots. *)
Fixpoint matchNumber (s : str) : option str :=
  match s with
  | [] => None
  | c :: s' => if isNumChar c then Some (takeWhile isNumChar s)
               else matchNumber s'
  end.

(** The text left after the formatting and the currency markers are
    removed, and the source currency that was detected on the way. *)
Definition cleanPrice (original : str) : str * str :=
  let r1 := replaceAlt kesTokens 0 (stripSeparators (toUpperCase original)) in
  let r2 := replaceAlt usdTokens 0 (fst r1) in
  (trim (fst r2), if snd r2 then lit "USD" else lit "KES").

(** The amount before conversion: the number found, scaled by the suffix. *)
Definition scaledAmount (cleaned : str) : option number :=
  match matchNumber cleaned with
  | Some m =>
      let a := parseFloat m in
      Some (if includes cleaned "M" then times a (Fin (1000000 # 1))
            else if includes cleaned "K" then times a (Fin (1000 # 1))
            else a)
  | None => None
  end.

Definition normalizePrice (priceStr : value) (targetCurrency : str) : Price :=
  if negb (truthy priceStr) then
    {| amount := None; currency := targetCurrency; original := None |}
  else
    let original := trim (ToString priceStr) in
    let (cleaned, sourceCurrency) := cleanPrice original in
    let amount := scaledAmount cleaned in
    let amount :=
      match amount with
      | Some a =>
          if negb (eqs sourceCurrency targetCurrency) then
            if eqs sourceCurrency "KES" && eqs targetCurrency "USD" then
              Some (over (Math_round (times (times a KES_TO_USD_RATE)
                                                   (Fin (100 # 1))))
                         (Fin (100 # 1)))
            else if eqs sourceCurrency "USD" && eqs targetCurrency "KES" then
              Some (Math_round (times a USD_TO_KES_RATE))
            else Some a
          else Some a
      | None => None
      end in
    {| amount := amount; currency := targetCurrency;
       original := Some original |}.

(** *** Locations *)

Record Location := {
  area : option str;
  city : option str;
  region : option str;
  location_original : option str
}.

Definition kenyaCities : list str :=
  lits ["nairobi"; "mombasa"; "kisumu"; "nakuru"; "eldoret";
        "thika"; "malindi"; "kitale"; "machakos"; "nyeri";
        "naivasha"; "nanyuki"; "kiambu"; "kajiado"; "kilifi";
        "lamu"; "garissa"; "kakamega"; "bungoma"; "embu"].

Definition regions : list (str * str) :=
  [(lit "nairobi", lit "Nairobi"); (lit "mombasa", lit "Coast");
   (lit "kisumu", lit "Nyanza"); (lit "nakuru", lit "Rift Valley");
   (lit "eldoret", lit "Rift Valley"); (lit "thika", lit "Central");
   (lit "malindi", lit "Coast"); (lit "kitale", lit "Rift Valley");
   (lit "machakos", lit "Eastern"); (lit "nyeri", lit "Central");
   (lit "naivasha", lit "Rift Valley"); (lit "nanyuki", lit "Central");
   (lit "kiambu", lit "Central"); (lit "kajiado", lit "Rift Valley");
   (lit "kilifi", lit "Coast"); (lit "lamu", lit "Coast");
   (lit "garissa", lit "North Eastern"); (lit "kakamega", lit "Western");
   (lit "bungoma", lit "Western"); (lit "embu", lit "Eastern")].

(** [regions[knownCity] || null]. *)
Definition regionOf (knownCity : str) : option str :=
  match find (fun kv => eqs (fst kv) knownCity) regions with
  | Some (_, r) => if isEmpty r then None else Some r
  | None => None
  end.

(** [knownCity.charAt(0).toUpperCase() + knownCity.slice(1)]. *)
Definition capitalize (s : str) : str :=
  toUpperCase (firstn 1 s) +++ slice 1 s.

(** [.replace(/[,\-\/]/g, ',')]. *)
Definition unifyDelimiters (s : str) : str :=
  map (fun c => if Ascii.eqb c "," || Ascii.eqb c "-" || Ascii.eqb c "/"
                then ","%char else c) s.

(** [cleaned.split(',').map(p => p.trim()).filter(Boolean)]. *)
Definition locationParts (original : str) : list str :=
  let cleaned := trim (unifyDelimiters original) in
  filter (fun p => negb (isEmpty p)) (map trim (split "," cleaned)).

(** The inner loop: the first known city that the part contains. *)
Fixpoint matchCity (lowerPart : str) (cities : list str)
  : option (str * option str) :=
  match cities with
  | [] => None
  | knownCity :: rest =>
      if includes lowerPart knownCity
      then Some (capitalize knownCity, regionOf knownCity)
      else matchCity lowerPart rest
  end.

(** [if (city)] on the variable [city]. *)
Definition isSet (city : option str) : bool :=
  match city with
  | Some c => negb (isEmpty c)
  | None => false
  end.

(** The outer loop over the parts; [city] and [region] are the variables
    of that name, and the loop is left once [city] is set. *)
Fixpoint scanParts (parts : list str) (city region : option str)
  : option str * option str :=
  match parts with
  | [] => (city, region)
  | part :: rest =>
      let found :=
        match matchCity (toLowerCase part) kenyaCities with
        | Some (c, r) => (Some c, r)
        | None => (city, region)
        end in
      if isSet (fst found) then found
      else scanParts rest (fst found) (snd found)
  end.

Definition normalizeLocation (locationStr : value) : Location :=
  if negb (truthy locationStr) then
    {| area := None; city := None; region := None;
       location_original := None |}
  else
    let original := trim (ToString locationStr) in
    let parts := locationParts original in
    let (city, region) := scanParts parts None None in
    {| area := hd_error parts; city := city; region := region;
       location_original := Some original |}.

(** *** Contacts *)

Record Contact := {
  name : option str;
  phone : list str;
  email : option str;
  whatsapp : option str
}.

(** The fields of a raw contact object that are read; [None] is an absent
    field. *)
Record ContactData := {
  cd_name : option str;
  cd_agentName : option str;
  cd_phone : option str;
  cd_phoneNumber : option str;
  cd_mobile : option str;
  cd_whatsapp : option str;
  cd_email : option str;
  cd_mail : option str
}.

Inductive contactInput :=
| ContactNull
| ContactString (s : str)
| ContactObject (o : ContactData).

(** [a || b] on optional string fields: an absent or empty field is falsy. *)
Definition orField (a b : option str) : option str :=
  match a with
  | Some s => if isEmpty s then b else a
  | None => b
  end.

(** [a || ''] where a string is needed. *)
Definition orEmpty (a : option str) : str :=
  match orField a None with
  | Some s => s
  | None => []
  end.

(** [[17]\d{8}] at the head of [s]. *)
Definition subscriberAt (s : str) : bool :=
  match s with
  | c :: r =>
      (Ascii.eqb c "1" || Ascii.eqb c "7") &&
      (8 <=? List.length r) && forallb isDigit (firstn 8 r)
  | [] => false
  end.

(** [/(\+?254|0)?[17]\d{8}/] tried at the head of [s]: the length of the
    match.  The optional group is greedy and its alternatives are tried in
    order, so the candidates are the prefixes [+254], [254], [0] and none,
    in that order. *)
Definition matchPhoneAt (s : str) : option nat :=
  if startsWith s "+254" && subscriberAt (skipn 4 s) then Some 13
  else if startsWith s "254" && subscriberAt (skipn 3 s) then Some 12
  else if startsWith s "0" && subscriberAt (skipn 1 s) then Some 10
  else if subscriberAt s then Some 9
  else None.

(** [String(str).match(/.../g) || []]: the successive matches, each search
    resuming where the previous match ended. *)
Fixpoint phoneMatches (skip : nat) (s : str) : list str :=
  match s with
  | [] => []
  | _ :: s' =>
      match skip with
      | S k => phoneMatches k s'
      | O =>
          match matchPhoneAt s with
          | Some (S k) => firstn (S k) s :: phoneMatches k s'
          | _ => phoneMatches 0 s'
          end
      end
  end.

(** The body of the loop over the matches, up to the duplicate test. *)
Definition normalizePhone (m : str) : str :=
  let normalized :=
    filter (fun c => negb (isSpace c || Ascii.eqb c "-" ||
                           Ascii.eqb c "(" || Ascii.eqb c ")")) m in
  if startsWith normalized "0" then lit "+254" +++ slice 1 normalized
  else if startsWith normalized "254" then lit "+" +++ normalized
  else if negb (startsWith normalized "+") then lit "+254" +++ normalized
  else normalized.

(** The loop: [phones] is the array built so far. *)
Fixpoint collectPhones (matches : list str) (phones : list str) : list str :=
  match matches with
  | [] => phones
  | m :: rest =>
      let normalized := normalizePhone m in
      collectPhones rest
        (if negb (arrayIncludes phones normalized)
         then phones ++ [normalized] else phones)
  end.

Definition extractPhoneNumbers (s : str) : list str :=
  if isEmpty s then [] else collectPhones (phoneMatches 0 s) [].

Definition isEmailChar (c : ascii) : bool :=
  isWord c || Ascii.eqb c "." || Ascii.eqb c "-".

(** The longest [n] with [1 <= n], [d[n] = '.'] and [d[n+1]] a word
    character, where [d] is the run of address characters after the [@]:
    where the greedy domain part of [[\w.-]+\.\w+] ends.  [n] counts the
    characters already passed. *)
Fixpoint lastDot (n : nat) (d : str) : option nat :=
  match d with
  | c :: ((w :: _) as d') =>
      match lastDot (S n) d' with
      | Some k => Some k
      | None =>
          if (1 <=? n) && Ascii.eqb c "." && isWord w then Some n else None
      end
  | _ => None
  end.

(** [/[\w.-]+@[\w.-]+\.\w+/] tried at the head of [s]. *)
Definition matchEmailAt (s : str) : option str :=
  let local := takeWhile isEmailChar s in
  match local, dropWhile isEmailChar s with
  | _ :: _, at_ :: r =>
      if Ascii.eqb at_ "@" then
        let d := takeWhile isEmailChar r in
        match lastDot 0 d with
        | Some n =>
            Some (local ++ "@"%char :: firstn (S n) d
                        ++ takeWhile isWord (skipn (S n) d))
        | None => None
        end
      else None
  | _, _ => None
  end.

Fixpoint firstEmail (s : str) : option str :=
  match matchEmailAt s with
  | Some m => Some m
  | None => match s with
            | [] => None
            | _ :: s' => firstEmail s'
            end
  end.

Definition extractEmail (s : str) : option str :=
  if isEmpty s then None
  else match firstEmail s with
       | Some m => Some (toLowerCase m)
       | None => None
       end.

Definition normalizeContact (contactData : contactInput) : Contact :=
  match contactData with
  | ContactNull =>
      {| name := None; phone := []; email := None; whatsapp := None |}
  | ContactString s =>
      if isEmpty s then
        {| name := None; phone := []; email := None; whatsapp := None |}
      else
        {| name := None;
           phone := extractPhoneNumbers s;
           email := extractEmail s;
           whatsapp := None |}
  | ContactObject o =>
      let phoneStr :=
        orEmpty (orField (orField (cd_phone o) (cd_phoneNumber o))
                         (cd_mobile o)) in
      {| name := orField (orField (cd_name o) (cd_agentName o)) None;
         phone := extractPhoneNumbers phoneStr;
         email := extractEmail (orEmpty (orField (cd_email o) (cd_mail o)));
         whatsapp :=
           match orField (cd_whatsapp o) None with
           | Some w => hd_error (extractPhoneNumbers w)
           | None => None
           end |}
  end.

(** *** Images *)

Inductive imagesInput :=
| ImagesScalar (v : value)
| ImagesArray (vs : list value).

(** [img && typeof img === 'string']. *)
Definition stringEntry (v : value) : option str :=
  match v with
  | VStr s => if isEmpty s then None else Some s
  | _ => None
  end.

(** [/-thumb\.\w+$/] tried at the head of [s]. *)
Definition thumbSuffixAt (s : str) : bool :=
  startsWith s "-thumb." &&
  negb (isEmpty (skipn 7 s)) && forallb isWord (skipn 7 s).

(** [url.replace(/-thumb\.\w+$/, '.$1')].  The pattern has no capture
    group, so the replacement text [$1] refers to no capture and is copied
    as it stands. *)
Fixpoint replaceThumb (s : str) : str :=
  if thumbSuffixAt s then lit ".$1"
  else match s with
       | [] => []
       | c :: s' => c :: replaceThumb s'
       end.

Definition normalizeImageUrl (img : str) : str :=
  let url := trim img in
  let url := if startsWith url "//" then lit "https:" +++ url else url in
  replaceThumb url.

Definition normalizeImages (images : imagesInput) : list str :=
  let imageArray :=
    match images with
    | ImagesScalar v => if truthy v then [v] else []
    | ImagesArray vs => vs
    end in
  filter (fun url => startsWith url "http")
    (map normalizeImageUrl
       (flat_map (fun v => match stringEntry v with
                           | Some s => [s]
                           | None => []
                           end) imageArray)).

(** *** Classification *)

Definition normalizeListingType (type : value) : str :=
  if negb (truthy type) then "unknown"
  else
    let t := toLowerCase (ToString type) in
    if includes t "sale" || includes t "buy" then "sale"
    else if includes t "rent" || includes t "let" then "rent"
    else "unknown".

Definition normalizePropertyType (type : value) : str :=
  if negb (truthy type) then "unknown"
  else
    let t := toLowerCase (ToString type) in
    if includes t "house" || includes t "villa" || includes t "bungalow"
       || includes t "townhouse" then "house"
    else if includes t "apartment" || includes t "flat" || includes t "studio"
            || includes t "bedsitter" then "apartment"
    else if includes t "land" || includes t "plot" then "land"
    else if includes t "commercial" || includes t "office"
            || includes t "shop" || includes t "warehouse" then "commercial"
    else "other".

(** *** Listings *)

(** The raw fields read by [normalizeListing], [features], [postedAt] and
    [scrapedAt] apart, which no property below concerns. *)
Record RawListing := {
  raw_id : option str;
  raw_listingId : option str;
  raw_url : option str;
  raw_title : option str;
  raw_description : option str;
  raw_listingType : value;
  raw_type : value;
  raw_propertyType : value;
  raw_category : value;
  raw_price : value;
  raw_location : value;
  raw_address : value;
  raw_contact : contactInput;
  raw_agent : contactInput;
  raw_images : imagesInput;
  raw_photos : imagesInput
}.

Record NormalizedListing := {
  id : option str;
  source : str;
  url : option str;
  title : option str;
  description : option str;
  listingType : str;
  propertyType : str;
  price : Price;
  location : Location;
  contact : Contact;
  images : list str
}.

(** [field?.trim() || null]. *)
Definition trimOrNull (field : option str) : option str :=
  match field with
  | Some s => if isEmpty (trim s) then None else Some (trim s)
  | None => None
  end.

Definition contactTruthy (c : contactInput) : bool :=
  match c with
  | ContactNull => false
  | ContactString s => negb (isEmpty s)
  | ContactObject _ => true
  end.

Definition imagesTruthy (i : imagesInput) : bool :=
  match i with
  | ImagesScalar v => truthy v
  | ImagesArray _ => true
  end.

Definition normalizeListing (rawListing : RawListing) (source : str)
    (targetCurrency : str) : NormalizedListing :=
  {| id := orField (orField (raw_id rawListing) (raw_listingId rawListing))
                   None;
     source := source;
     url := orField (raw_url rawListing) None;
     title := trimOrNull (raw_title rawListing);
     description := trimOrNull (raw_description rawListing);
     listingType :=
       normalizeListingType
         (or_else (raw_listingType rawListing) (raw_type rawListing));
     propertyType :=
       normalizePropertyType
         (or_else (raw_propertyType rawListing) (raw_category rawListing));
     price := normalizePrice (raw_price rawListing) targetCurrency;
     location :=
       normalizeLocation
         (or_else (raw_location rawListing) (raw_address rawListing));
     contact :=
       normalizeContact
         (if contactTruthy (raw_contact rawListing)
          then raw_contact rawListing else raw_agent rawListing);
     images :=
       normalizeImages
         (if imagesTruthy (raw_images rawListing)
          then raw_images rawListing else raw_photos rawListing) |}.

(** *** Features *)

Definition parseNumber (val : value) : option number :=
  match val with
  | VNull | VUndefined => None
  | _ => match parseInt (ToString val) with
         | NaN => None
         | num => Some num
         end
  end.

Record Size := {
  size_value : option number;
  size_unit : option str
}.

Definition isSizeChar (c : ascii) : bool :=
  isDigit c || Ascii.eqb c "," || Ascii.eqb c ".".

(** [sq\.?\s*ft] and [sq\.?\s*m] tried at the head of [s], [tail] being
    [ft] or [m]: the length of the match. *)
Definition matchSq (s tail : str) : option nat :=
  if startsWithCI s "sq" then
    let r := skipn 2 s in
    let dot := match r with
               | c :: _ => Ascii.eqb c "."
               | [] => false
               end in
    let r1 := if dot then skipn 1 r else r in
    if startsWithCI (dropWhile isSpace r1) tail
    then Some (2 + (if dot then 1 else 0)
               + List.length (takeWhile isSpace r1) + List.length tail)
    else None
  else None.

(** [(sqft|sq\.?\s*ft|sqm|sq\.?\s*m|acres?|hectares?)] tried at the head of
    [s], the alternatives in order: the length of the match. *)
Definition matchUnitAt (s : str) : option nat :=
  if startsWithCI s "sqft" then Some 4
  else match matchSq s "ft" with
  | Some n => Some n
  | None =>
  if startsWithCI s "sqm" then Some 3
  else match matchSq s "m" with
  | Some n => Some n
  | None =>
  if startsWithCI s "acre"
  then Some (if startsWithCI (skipn 4 s) "s" then 5 else 4)
  else if startsWithCI s "hectare"
  then Some (if startsWithCI (skipn 7 s) "s" then 8 else 7)
  else None
  end end.

(** The whole pattern of [parseSize] tried at the head of [s]: the two
    groups. *)
Definition matchSizeAt (s : str) : option (str * str) :=
  match takeWhile isSizeChar s with
  | [] => None
  | number =>
      let r := dropWhile isSpace (dropWhile isSizeChar s) in
      match matchUnitAt r with
      | Some n => Some (number, firstn n r)
      | None => None
      end
  end.

(** [str.match(...)]: the leftmost match. *)
Fixpoint firstSize (s : str) : option (str * str) :=
  match matchSizeAt s with
  | Some m => Some m
  | None => match s with
            | [] => None
            | _ :: s' => firstSize s'
            end
  end.

Definition parseSize (sizeStr : value) : Size :=
  if negb (truthy sizeStr) then {| size_value := None; size_unit := None |}
  else
    let str := toLowerCase (ToString sizeStr) in
    match firstSize str with
    | Some (number, unit) =>
        {| size_value :=
             Some (parseFloat
                     (filter (fun c => negb (Ascii.eqb c ",")) number));
           size_unit :=
             Some (toLowerCase
                     (filter (fun c => negb (isSpace c))
                        (filter (fun c => negb (Ascii.eqb c ".")) unit))) |}
    | None => {| size_value := None; size_unit := None |}
    end.

(** The raw fields [normalizeListing] reads besides those of [RawListing]. *)
Record RawFeatures := {
  raw_bedrooms : value;
  raw_beds : value;
  raw_bathrooms : value;
  raw_baths : value;
  raw_size : value;
  raw_area : value;
  raw_parking : value;
  raw_furnished : value;
  raw_postedAt : value;
  raw_datePosted : value
}.

Record Features := {
  bedrooms : option number;
  bathrooms : option number;
  size : Size;
  parking : value;
  furnished : value
}.

(** The [features] object of [normalizeListing]. *)
Definition normalizeFeatures (rawListing : RawFeatures) : Features :=
  {| bedrooms :=
       parseNumber (or_else (raw_bedrooms rawListing) (raw_beds rawListing));
     bathrooms :=
       parseNumber (or_else (raw_bathrooms rawListing)
                            (raw_baths rawListing));
     size := parseSize (or_else (raw_size rawListing) (raw_area rawListing));
     parking := or_else (raw_parking rawListing) VNull;
     furnished := or_else (raw_furnished rawListing) VNull |}.

(** The [postedAt] field of [normalizeListing]. *)
Definition normalizePostedAt (rawListing : RawFeatures) : value :=
  or_else (or_else (raw_postedAt rawListing) (raw_datePosted rawListing))
          VNull.

End Normalize.

(* ================================================================== *)
(** ** The crawl state machine (buyrentkenya.js, jiji.js) *)
(* ================================================================== *)

Module Crawler.
Import JS Normalize.

Inductive Label := LIST | DETAIL.

Record Request := { req_url : str; label : Label }.

(** What a handler reads off the fetched document [$]:
    - [extractListing url] is [extractListingFromPage($, url)];
    - [linkHrefs] holds the [href] attribute ([None] when absent) of every
      element the site's detail-link selector matches, in document order;
    - [nextLinks] holds the URLs [enqueueLinks] finds for the pagination
      selector. *)
Record Page := {
  extractListing : str -> RawListing;
  linkHrefs : list (option str);
  nextLinks : list str
}.

(** The options a crawler factory destructures. *)
Record Options := { maxListings : nat; currency : str }.

(** The closure variables [listings] and [listingCount], and the requests
    given to the engine by [crawler.addRequests] and [enqueueLinks]. *)
Record State := {
  listings : list NormalizedListing;
  listingCount : nat;
  requestQueue : list Request
}.

Definition initial : State :=
  {| listings := []; listingCount := 0; requestQueue := [] |}.

Definition Handler := Options -> State -> Request -> Page -> State.

(** The engine calls the handler once per request it completes, one call
    after the other. *)
Definition run (handler : Handler) (options : Options)
    (events : list (Request * Page)) (st : State) : State :=
  fold_left (fun st e => handler options st (fst e) (snd e)) events st.

Definition detailRequests (links : list str) : list Request :=
  map (fun link => {| req_url := link; label := DETAIL |}) links.

Definition listRequests (links : list str) : list Request :=
  map (fun link => {| req_url := link; label := LIST |}) links.

(** The filters [buildSearchUrl] destructures; [None] is [undefined]. *)
Record SearchOptions := {
  so_listingType : option str;
  so_propertyType : option str;
  so_location : option str
}.

(** What reading a property of one of the [typeMap] object literals
    gives: a path segment it defines, a member it inherits from
    [Object.prototype], or [undefined]. *)
Inductive Segment :=
| OwnSegment (s : str)
| InheritedMember
| NoSegment.

Definition inheritedKeys : list str :=
  lits ["constructor"; "__proto__"; "hasOwnProperty"; "isPrototypeOf";
        "propertyIsEnumerable"; "toLocaleString"; "toString"; "valueOf";
        "__defineGetter__"; "__defineSetter__";
        "__lookupGetter__"; "__lookupSetter__"].

(** The part of the path a location adds: lower case, white space runs
    turned into hyphens. *)
Definition locationSlug (location : str) : str :=
  hyphenate false (toLowerCase location).

(** [$(el).attr('src') || $(el).attr('data-src')] for an image element
    given by its two attributes. *)
Definition imageSource (el : option str * option str) : option str :=
  orField (orField (fst el) (snd el)) None.

Module BuyRentKenya.

Definition BASE_URL : str := "https://www.buyrentkenya.com".

(** [typeMap[propertyType]]. *)
Definition typeMap (propertyType : str) : Segment :=
  if eqs propertyType "house" then OwnSegment "houses"
  else if eqs propertyType "apartment" then OwnSegment "apartments"
  else if eqs propertyType "land" then OwnSegment "land"
  else if eqs propertyType "commercial" then OwnSegment "commercial"
  else if arrayIncludes inheritedKeys propertyType then InheritedMember
  else NoSegment.

(** The search URL.  The result is [None] in the one case left out: the
    property type names an inherited member of [typeMap] and the path
    contains [houses], so that the member is used as the replacement. *)
Definition buildSearchUrl (options : SearchOptions) : option str :=
  let path : str :=
    match so_listingType options with
    | Some t => if eqs t "sale" then lit "/houses-for-sale"
                else if eqs t "rent" then lit "/houses-for-rent"
                else lit "/property"
    | None => lit "/property"
    end in
  let replaced : option str :=
    match so_propertyType options with
    | Some p =>
        if negb (isEmpty p) && negb (eqs p "all") then
          match typeMap p with
          | OwnSegment s => Some (replaceFirst "houses" s path)
          | NoSegment => Some (replaceFirst "houses" "houses" path)
          | InheritedMember =>
              if includes path "houses" then None else Some path
          end
        else Some path
    | None => Some path
    end in
  match replaced with
  | Some path =>
      let path :=
        match so_location options with
        | Some l => if isEmpty l then path
                    else path ++ "-"%char :: locationSlug l
        | None => path
        end in
      Some (BASE_URL +++ path)
  | None => None
  end.

(** What [extractListingFromPage] reads off the document [$]: the text of
    the first element each selector matches ([""] when none does), the
    [content] attribute of the two meta tags, and the [src] and [data-src]
    attributes of every element the image selector matches. *)
Record Document := {
  titleText : str;
  ogTitle : option str;
  descriptionText : str;
  priceText : str;
  locationText : str;
  ogLocality : option str;
  bodyText : str;
  propertyTypeText : str;
  bedroomsText : str;
  bathroomsText : str;
  sizeText : str;
  imageElements : list (option str * option str);
  agentNameText : str;
  agentPhoneText : str;
  postedDateText : str
}.

(** [/\/(\d+)\/?$/] tried at the head of [s]: the group. *)
Definition matchIdAt (s : str) : option str :=
  match s with
  | c :: r =>
      if Ascii.eqb c "/" then
        let ds := takeWhile isDigit r in
        let rest := dropWhile isDigit r in
        if negb (isEmpty ds) && (isEmpty rest || eqs rest "/")
        then Some ds else None
      else None
  | [] => None
  end.

(** [url.match(/\/(\d+)\/?$/)?.[1] || null]. *)
Fixpoint listingId (url : str) : option str :=
  match matchIdAt url with
  | Some ds => Some ds
  | None => match url with
            | [] => None
            | _ :: url' => listingId url'
            end
  end.

(** [a || b] on texts: the first that is not empty. *)
Definition orText (a : str) (b : option str) : str :=
  if isEmpty a then orEmpty b else a.

Definition keepImage (src : str) : bool :=
  negb (isEmpty src) && negb (includes src "avatar")
  && negb (includes src "logo").

Definition imageSources (els : list (option str * option str)) : list str :=
  flat_map (fun el => match imageSource el with
                      | Some src => if keepImage src then [src] else []
                      | None => []
                      end) els.

Definition digitsOrNull (text : str) : value :=
  match firstDigits text with
  | Some ds => VStr ds
  | None => VNull
  end.

(** The raw listing of a detail page, as the fields of [RawListing] and
    the remaining ones. *)
Definition extractListingFromPage (doc : Document) (url : str)
  : RawListing * RawFeatures :=
  let pageText := toLowerCase (bodyText doc) in
  let listingType :=
    if includes pageText "for sale" || includes url "for-sale"
    then VStr "sale"
    else if includes pageText "for rent" || includes url "for-rent"
    then VStr "rent"
    else VUndefined in
  let propertyTypeEl := toLowerCase (propertyTypeText doc) in
  ({| raw_id := listingId url;
      raw_listingId := None;
      raw_url := Some url;
      raw_title := Some (orText (trim (titleText doc)) (ogTitle doc));
      raw_description := Some (trim (descriptionText doc));
      raw_listingType := listingType;
      raw_type := VUndefined;
      raw_propertyType :=
        VStr (if isEmpty propertyTypeEl then lit "house" else propertyTypeEl);
      raw_category := VUndefined;
      raw_price := VStr (trim (priceText doc));
      raw_location :=
        VStr (orText (trim (locationText doc)) (ogLocality doc));
      raw_address := VUndefined;
      raw_contact :=
        ContactObject
          {| cd_name := Some (trim (agentNameText doc));
             cd_agentName := None;
             cd_phone := Some (trim (agentPhoneText doc));
             cd_phoneNumber := None; cd_mobile := None;
             cd_whatsapp := None; cd_email := None; cd_mail := None |};
      raw_agent := ContactNull;
      raw_images := ImagesArray (map VStr (imageSources (imageElements doc)));
      raw_photos := ImagesScalar VUndefined |},
   {| raw_bedrooms := digitsOrNull (bedroomsText doc);
      raw_beds := VUndefined;
      raw_bathrooms := digitsOrNull (bathroomsText doc);
      raw_baths := VUndefined;
      raw_size := VStr (trim (sizeText doc));
      raw_area := VUndefined;
      raw_parking := VUndefined;
      raw_furnished := VUndefined;
      raw_postedAt := VStr (trim (postedDateText doc));
      raw_datePosted := VUndefined |}).

(** The callback of [.each] over the detail links. *)
Definition visitLink (options : Options) (listingCount : nat)
    (propertyLinks : list str) (href : option str) : list str :=
  match href with
  | Some href =>
      if negb (isEmpty href) && negb (arrayIncludes propertyLinks href)
         && (listingCount + List.length propertyLinks <? maxListings options)
      then
        let fullUrl := if startsWith href "http" then href
                       else BASE_URL +++ href in
        propertyLinks ++ [fullUrl]
      else propertyLinks
  | None => propertyLinks
  end.

Definition collectLinks (options : Options) (listingCount : nat)
    (hrefs : list (option str)) : list str :=
  fold_left (visitLink options listingCount) hrefs [].

Definition requestHandler : Handler := fun options st request page =>
  match label request with
  | DETAIL =>
      if maxListings options <=? listingCount st then st
      else
        let rawListing := extractListing page (req_url request) in
        let normalizedListing :=
          normalizeListing rawListing "buyrentkenya" (currency options) in
        {| listings := listings st ++ [normalizedListing];
           listingCount := S (listingCount st);
           requestQueue := requestQueue st |}
  | LIST =>
      let propertyLinks :=
        collectLinks options (listingCount st) (linkHrefs page) in
      let queue := requestQueue st ++ detailRequests propertyLinks in
      let queue :=
        if listingCount st + List.length propertyLinks <? maxListings options
        then queue ++ listRequests (nextLinks page)
        else queue in
      {| listings := listings st;
         listingCount := listingCount st;
         requestQueue := queue |}
  end.

End BuyRentKenya.

Module Jiji.

Definition BASE_URL : str := "https://jiji.co.ke".

(** [typeMap[propertyType]]. *)
Definition typeMap (propertyType : str) : Segment :=
  if eqs propertyType "house" then OwnSegment "houses-apartments-for-sale"
  else if eqs propertyType "apartment"
  then OwnSegment "houses-apartments-for-rent"
  else if eqs propertyType "land" then OwnSegment "land-and-plots-for-sale"
  else if eqs propertyType "commercial"
  then OwnSegment "commercial-property-for-sale"
  else if arrayIncludes inheritedKeys propertyType then InheritedMember
  else NoSegment.

(** ['/' + (typeMap[propertyType] || fallback)]; [None] when the member is
    inherited, whose text is not modelled. *)
Definition typePath (propertyType fallback : str) : option str :=
  match typeMap propertyType with
  | OwnSegment s => Some ("/"%char :: s)
  | NoSegment => Some ("/"%char :: fallback)
  | InheritedMember => None
  end.

(** The search URL; [None] in the case [typePath] leaves out. *)
Definition buildSearchUrl (options : SearchOptions) : option str :=
  let isRent := match so_listingType options with
                | Some t => eqs t "rent"
                | None => false
                end in
  let isSale := match so_listingType options with
                | Some t => eqs t "sale"
                | None => false
                end in
  let typed := match so_propertyType options with
               | Some p => negb (isEmpty p) && negb (eqs p "all")
               | None => false
               end in
  let path : option str :=
    if typed then
      if isRent then Some (lit "/houses-apartments-for-rent")
      else if isSale
      then typePath (orEmpty (so_propertyType options))
                    "houses-apartments-for-sale"
      else typePath (orEmpty (so_propertyType options)) "real-estate"
    else if isRent then Some (lit "/houses-apartments-for-rent")
    else if isSale then Some (lit "/houses-apartments-for-sale")
    else Some (lit "/real-estate") in
  match path with
  | Some path =>
      let path :=
        match so_location options with
        | Some l => if isEmpty l then path
                    else path ++ "/"%char :: locationSlug l
        | None => path
        end in
      Some (BASE_URL +++ path)
  | None => None
  end.

(** What [extractListingFromPage] reads off the document [$]: the text of
    the first element each selector matches ([""] when none does); the
    joint text of the breadcrumb and of the category elements; the text of
    every attribute element; the [src] and [data-src] attributes of every
    element the image selector matches; and, for every JSON-LD script that
    parses and has a truthy [image] member, that member as a list (a member
    that is no array being the list of itself). *)
Record Document := {
  titleText : str;
  ogTitle : option str;
  descriptionText : str;
  priceText : str;
  locationText : str;
  ogLocality : option str;
  breadcrumbText : str;
  categoryText : str;
  attributeTexts : list str;
  imageElements : list (option str * option str);
  jsonLdImages : list (list value);
  sellerNameText : str;
  sellerPhoneText : str;
  postedDateText : str
}.

(** [/\/(\d+)\.html/] tried at the head of [s]: the group. *)
Definition matchIdAt (s : str) : option str :=
  match s with
  | c :: r =>
      if Ascii.eqb c "/" then
        let ds := takeWhile isDigit r in
        if negb (isEmpty ds) && startsWith (dropWhile isDigit r) ".html"
        then Some ds else None
      else None
  | [] => None
  end.

Fixpoint matchId (url : str) : option str :=
  match matchIdAt url with
  | Some ds => Some ds
  | None => match url with
            | [] => None
            | _ :: url' => matchId url'
            end
  end.

(** [url.match(/\/(\d+)\.html/)?.[1]
     || url.split('/').pop()?.replace('.html', '') || null]. *)
Definition listingId (url : str) : option str :=
  match matchId url with
  | Some ds => Some ds
  | None =>
      let name := replaceFirst ".html" [] (lastSegment url) in
      if isEmpty name then None else Some name
  end.

Definition orText (a : str) (b : option str) : str :=
  if isEmpty a then orEmpty b else a.

Definition keepImage (src : str) : bool :=
  negb (isEmpty src) && negb (includes src "avatar")
  && negb (includes src "logo") && negb (includes src "placeholder").

Definition imageSources (els : list (option str * option str)) : list str :=
  flat_map (fun el => match imageSource el with
                      | Some src => if keepImage src then [src] else []
                      | None => []
                      end) els.

(** [imgs.filter(img => typeof img === 'string')]. *)
Definition stringsOf (imgs : list value) : list str :=
  flat_map (fun img => match img with
                       | VStr s => [s]
                       | _ => []
                       end) imgs.

(** The object [attributes]: [bedrooms], [bathrooms] and [size]; [None]
    is [undefined]. *)
Definition Attributes : Type := option str * option str * option str.

(** The callback of [.each] over the attribute elements. *)
Definition readAttribute (attributes : Attributes) (elementText : str)
  : Attributes :=
  let text := toLowerCase elementText in
  match attributes with
  | (bedrooms, bathrooms, size) =>
      if includes text "bedroom" || includes text "bed"
      then (firstDigits text, bathrooms, size)
      else if includes text "bathroom" || includes text "bath"
      then (bedrooms, firstDigits text, size)
      else if includes text "sqm" || includes text "sq ft"
              || includes text "acre"
      then (bedrooms, bathrooms, Some text)
      else attributes
  end.

(** [field || null] on a member of [attributes]. *)
Definition textOrNull (field : option str) : value :=
  match orField field None with
  | Some s => VStr s
  | None => VNull
  end.

(** The raw listing of a detail page, as the fields of [RawListing] and
    the remaining ones. *)
Definition extractListingFromPage (doc : Document) (url : str)
  : RawListing * RawFeatures :=
  let title := orText (trim (titleText doc)) (ogTitle doc) in
  let breadcrumb := toLowerCase (breadcrumbText doc) in
  let titleLower := toLowerCase title in
  let listingType :=
    if includes breadcrumb "for-sale" || includes titleLower "for sale"
    then VStr "sale"
    else if includes breadcrumb "for-rent" || includes titleLower "for rent"
    then VStr "rent"
    else VUndefined in
  let category := toLowerCase (categoryText doc) in
  let attributes :=
    fold_left readAttribute (attributeTexts doc) (None, None, None) in
  ({| raw_id := listingId url;
      raw_listingId := None;
      raw_url := Some url;
      raw_title := Some title;
      raw_description := Some (trim (descriptionText doc));
      raw_listingType := listingType;
      raw_type := VUndefined;
      raw_propertyType :=
        VStr (if isEmpty category then lit "house" else category);
      raw_category := VUndefined;
      raw_price := VStr (trim (priceText doc));
      raw_location :=
        VStr (orText (trim (locationText doc)) (ogLocality doc));
      raw_address := VUndefined;
      raw_contact :=
        ContactObject
          {| cd_name := Some (trim (sellerNameText doc));
             cd_agentName := None;
             cd_phone := Some (trim (sellerPhoneText doc));
             cd_phoneNumber := None; cd_mobile := None;
             cd_whatsapp := None; cd_email := None; cd_mail := None |};
      raw_agent := ContactNull;
      raw_images :=
        ImagesArray
          (map VStr (imageSources (imageElements doc)
                     ++ flat_map stringsOf (jsonLdImages doc)));
      raw_photos := ImagesScalar VUndefined |},
   {| raw_bedrooms := textOrNull (fst (fst attributes));
      raw_beds := VUndefined;
      raw_bathrooms := textOrNull (snd (fst attributes));
      raw_baths := VUndefined;
      raw_size := textOrNull (snd attributes);
      raw_area := VUndefined;
      raw_parking := VUndefined;
      raw_furnished := VUndefined;
      raw_postedAt := VStr (trim (postedDateText doc));
      raw_datePosted := VUndefined |}).

Definition visitLink (options : Options) (listingCount : nat)
    (propertyLinks : list str) (href : option str) : list str :=
  match href with
  | Some href =>
      if negb (isEmpty href) && includes href "/item/"
         && negb (arrayIncludes propertyLinks href)
      then
        if listingCount + List.length propertyLinks <? maxListings options
        then
          let fullUrl := if startsWith href "http" then href
                         else BASE_URL +++ href in
          propertyLinks ++ [fullUrl]
        else propertyLinks
      else propertyLinks
  | None => propertyLinks
  end.

Definition collectLinks (options : Options) (listingCount : nat)
    (hrefs : list (option str)) : list str :=
  fold_left (visitLink options listingCount) hrefs [].

Definition requestHandler : Handler := fun options st request page =>
  match label request with
  | DETAIL =>
      if maxListings options <=? listingCount st then st
      else
        let rawListing := extractListing page (req_url request) in
        let normalizedListing :=
          normalizeListing rawListing "jiji" (currency options) in
        {| listings := listings st ++ [normalizedListing];
           listingCount := S (listingCount st);
           requestQueue := requestQueue st |}
  | LIST =>
      let propertyLinks :=
        collectLinks options (listingCount st) (linkHrefs page) in
      let queue := requestQueue st ++ detailRequests propertyLinks in
      let queue :=
        if listingCount st + List.length propertyLinks <? maxListings options
        then queue ++ listRequests (nextLinks page)
        else queue in
      {| listings := listings st;
         listingCount := listingCount st;
         requestQueue := queue |}
  end.

End Jiji.

End Crawler.

(* ================================================================== *)
(** ** The source loop of main.js *)
(* ================================================================== *)

Module Main.
Import JS Normalize.

Inductive Factory := createBuyRentKenyaCrawler | createJijiCrawler.

Definition handlerOf (f : Factory) : Crawler.Handler :=
  match f with
  | createBuyRentKenyaCrawler => Crawler.BuyRentKenya.requestHandler
  | createJijiCrawler => Crawler.Jiji.requestHandler
  end.

(** What reading a property of the object literal [CRAWLERS] gives: a
    factory it defines, a member it inherits from [Object.prototype], or
    [undefined]. *)
Inductive Property :=
| Own (f : Factory)
| Inherited
| Absent.

(** The members an object literal inherits from [Object.prototype]; each
    is a function or an object, hence truthy. *)
Definition objectPrototypeKeys : list str :=
  lits ["constructor"; "__proto__"; "hasOwnProperty"; "isPrototypeOf";
        "propertyIsEnumerable"; "toLocaleString"; "toString"; "valueOf";
        "__defineGetter__"; "__defineSetter__";
        "__lookupGetter__"; "__lookupSetter__"].

(** [CRAWLERS[key]]. *)
Definition CRAWLERS (key : str) : Property :=
  if eqs key "buyrentkenya" then Own createBuyRentKenyaCrawler
  else if eqs key "jiji" then Own createJijiCrawler
  else if arrayIncludes objectPrototypeKeys key then Inherited
  else Absent.

(** The fields of the actor input the loop depends on.  The filters
    [listingType], [propertyType] and [location] only shape the seed URL
    given to [crawler.run]; what the engine then completes is [engine]
    below. *)
Record Input := {
  sources : list str;
  maxListings : nat;
  currency : str
}.

(** The summary stored under [OUTPUT]: [{success: true, totalListings,
    sources, ...}] after the loop, [{success: false, error}] from the
    [catch] block. *)
Inductive Output :=
| Summary (totalListings : nat) (sources : list str)
| Failure.

Definition success (o : Output) : bool :=
  match o with
  | Summary _ _ => true
  | Failure => false
  end.

(** The loop over [sources]; [i] is the position of [source] in the list
    and [engine i] the requests the engine completes, with their pages, when
    the crawler of that position runs.  [None] is a thrown exception: an
    inherited member is truthy, so it is not skipped, and using it as a
    crawler factory ends in a [TypeError]. *)
Fixpoint processSources (input : Input)
    (engine : nat -> list (Crawler.Request * Crawler.Page))
    (i : nat) (remaining : list str) (allListings : list NormalizedListing)
  : option (list NormalizedListing) :=
  match remaining with
  | [] => Some allListings
  | source :: rest =>
      match CRAWLERS (toLowerCase source) with
      | Absent => processSources input engine (S i) rest allListings
      | Inherited => None
      | Own crawlerFactory =>
          let options :=
            {| Crawler.maxListings :=
                 ceilDiv (maxListings input) (List.length (sources input));
               Crawler.currency := currency input |} in
          let final :=
            Crawler.run (handlerOf crawlerFactory) options (engine i)
                        Crawler.initial in
          let sourceListings := Crawler.listings final in
          processSources input engine (S i) rest
                         (allListings ++ sourceListings)
      end
  end.

(** The [try]/[catch] around the loop: the listings pushed to the dataset
    (none when the run fails) and the summary. *)
Definition main (input : Input)
    (engine : nat -> list (Crawler.Request * Crawler.Page))
  : list NormalizedListing * Output :=
  match processSources input engine 0 (sources input) [] with
  | Some allListings =>
      (allListings, Summary (List.length allListings) (sources input))
  | None => ([], Failure)
  end.

End Main.

(* ================================================================== *)
(** ** Vocabulary of the properties *)
(* ================================================================== *)

Import JS Normalize.

(** What one call of a handler may do to the collected listings: leave
    them and the counter alone, or, strictly below the quota, append one
    listing and count it. *)
Definition stepShape (h : Crawler.Handler) : Prop :=
  forall options st request page,
    let st' := h options st request page in
    (Crawler.listings st' = Crawler.listings st /\
     Crawler.listingCount st' = Crawler.listingCount st) \/
    (Crawler.listingCount st < Crawler.maxListings options /\
     Crawler.listingCount st' = S (Crawler.listingCount st) /\
     exists l, Crawler.listings st' = Crawler.listings st ++ [l]).

(** The counter is the length of the list and stays within the quota. *)
Definition within (options : Crawler.Options) (st : Crawler.State) : Prop :=
  Crawler.listingCount st = List.length (Crawler.listings st) /\
  Crawler.listingCount st <= Crawler.maxListings options.

Definition listingTypes : list str := lits ["sale"; "rent"; "unknown"].

Definition propertyTypes : list str :=
  lits ["house"; "apartment"; "land"; "commercial"; "other"; "unknown"].

(** The keywords of the four property classes. *)
Definition propertyKeywords : list str :=
  lits ["house"; "villa"; "bungalow"; "townhouse";
        "apartment"; "flat"; "studio"; "bedsitter";
        "land"; "plot";
        "commercial"; "office"; "shop"; "warehouse"].

(** The result for an absent price. *)
Definition absentPrice (targetCurrency : str) : Price :=
  {| amount := None; currency := targetCurrency; original := None |}.

(** The currency markers the two patterns of [normalizePrice] name. *)
Definition priceMarkers : list str :=
  lits [""; "KES"; "KSH"; "SH"; "/="; "SHILLING"; "SHILLINGS"; "USD"; "$"].

Definition priceSuffixes : list str := lits [""; "K"; "M"].

(** The currency a marker stands for. *)
Definition markerCurrency (marker : str) : str :=
  if eqs (toUpperCase marker) "USD" || eqs (toUpperCase marker) "$"
  then "USD" else "KES".

Definition suffixFactor (suffix : str) : Z :=
  if eqs (toUpperCase suffix) "M" then 1000000%Z
  else if eqs (toUpperCase suffix) "K" then 1000%Z
  else 1%Z.

Definition digitGroup (g : str) : bool := negb (isEmpty g) && forallb isDigit g.

(** Digit groups written with thousands separators. *)
Fixpoint joinCommas (groups : list str) : str :=
  match groups with
  | [] => []
  | g :: rest =>
      match rest with
      | [] => g
      | _ => g ++ ","%char :: joinCommas rest
      end
  end.

(** A decimal fraction as it is written: nothing, or a point and the
    digits. *)
Definition fractionText (frac : str) : str :=
  if isEmpty frac then [] else "."%char :: frac.

(** A price text: marker, white space, digit groups, decimal fraction,
    suffix. *)
Definition priceText (marker ws : str) (groups : list str) (frac suffix : str)
  : str :=
  marker ++ ws ++ joinCommas groups ++ fractionText frac ++ suffix.

(** The number that digit groups and a decimal fraction denote. *)
Definition decimalValue (groups : list str) (frac : str) : Q :=
  digitsValue (List.concat groups ++ frac) # pow10 (List.length frac).

(** The multiplication a suffix asks for. *)
Definition scaleBy (suffix : str) (a : number) : number :=
  if eqs (toUpperCase suffix) "M" then times a (Fin (1000000 # 1))
  else if eqs (toUpperCase suffix) "K" then times a (Fin (1000 # 1))
  else a.

(** The integers a JavaScript number holds exactly
    ([Number.isSafeInteger]). *)
Definition safeInteger (z : Z) : Prop := (Z.abs z <= 9007199254740991)%Z.

(** The conversion as the specification words it: none between equal
    currencies, dollars to shillings at 156.25 rounded to an integer,
    shillings to dollars at 0.0064 rounded to two decimals. *)
Definition convertCurrency (sourceCurrency targetCurrency : str) (a : number)
  : number :=
  if eqs sourceCurrency targetCurrency then a
  else if eqs sourceCurrency "USD" && eqs targetCurrency "KES" then
    Math_round (times a USD_TO_KES_RATE)
  else if eqs sourceCurrency "KES" && eqs targetCurrency "USD" then
    over (Math_round (times (times a KES_TO_USD_RATE) (Fin (100 # 1))))
         (Fin (100 # 1))
  else a.

Definition isDelimiter (c : ascii) : bool :=
  Ascii.eqb c "," || Ascii.eqb c "-" || Ascii.eqb c "/".

Definition noDelimiter (s : str) : bool :=
  forallb (fun c => negb (isDelimiter c)) s.

(** The known city a segment names: the first of the gazetteer, in its
    order, that the lower-cased segment contains. *)
Definition knownCityIn (segment : str) : option str :=
  find (fun knownCity => includes (toLowerCase segment) knownCity) kenyaCities.

(** A text cut at every character that [p] holds of. *)
Fixpoint splitOn (p : ascii -> bool) (s : str) : list str :=
  match s with
  | [] => [[]]
  | c :: s' =>
      if p c then [] :: splitOn p s'
      else match splitOn p s' with
           | [] => [[c]]
           | seg :: segs => (c :: seg) :: segs
           end
  end.

(** The segments of a location text: what lies between its delimiters,
    without the white space at either end. *)
Definition segments (s : str) : list str := map trim (splitOn isDelimiter s).

Definition firstNonBlank (segs : list str) : option str :=
  find (fun seg => negb (isEmpty seg)) segs.

(** The gazetteer entry named by the first segment that names one. *)
Fixpoint firstCity (segs : list str) : option str :=
  match segs with
  | [] => None
  | seg :: rest =>
      match knownCityIn seg with
      | Some k => Some k
      | None => firstCity rest
      end
  end.

(** The canonical form: [+254], then nine digits of which the first is 1
    or 7. *)
Definition canonicalPhone (p : str) : bool :=
  match p with
  | a :: b :: c :: d :: e :: rest =>
      eqs [a; b; c; d] "+254"
      && (Ascii.eqb e "1" || Ascii.eqb e "7")
      && (List.length rest =? 8) && forallb isDigit rest
  | _ => false
  end.

(** A list with every later repetition of an entry removed. *)
Fixpoint dedupFirst (l : list str) : list str :=
  match l with
  | [] => []
  | x :: r => x :: filter (fun y => negb (eqs x y)) (dedupFirst r)
  end.

(** The text the phone numbers are read from. *)
Definition phoneSource (input : contactInput) : str :=
  match input with
  | ContactNull => []
  | ContactString s => s
  | ContactObject o =>
      orEmpty (orField (orField (cd_phone o) (cd_phoneNumber o)) (cd_mobile o))
  end.

Definition contactWithPhone (p : string) : contactInput :=
  ContactObject {| cd_name := None; cd_agentName := None;
                   cd_phone := Some (lit p); cd_phoneNumber := None;
                   cd_mobile := None; cd_whatsapp := None;
                   cd_email := None; cd_mail := None |}.

(** A detail page nothing was extracted from. *)
Definition blankListing : RawListing :=
  {| raw_id := None; raw_listingId := None; raw_url := None;
     raw_title := None; raw_description := None;
     raw_listingType := VUndefined; raw_type := VUndefined;
     raw_propertyType := VUndefined; raw_category := VUndefined;
     raw_price := VUndefined; raw_location := VUndefined;
     raw_address := VUndefined;
     raw_contact := ContactNull; raw_agent := ContactNull;
     raw_images := ImagesScalar VUndefined;
     raw_photos := ImagesScalar VUndefined |}.

(** A listing page with the given detail links and no next page. *)
Definition listingPage (hrefs : list string) : Crawler.Page :=
  {| Crawler.extractListing := fun _ => blankListing;
     Crawler.linkHrefs := map (fun h => Some (lit h)) hrefs;
     Crawler.nextLinks := [] |}.

Definition listRequest (u : string) : Crawler.Request :=
  {| Crawler.req_url := lit u; Crawler.label := Crawler.LIST |}.

Definition quotaOf (n : nat) : Crawler.Options :=
  {| Crawler.maxListings := n; Crawler.currency := lit "KES" |}.

(** The listings one entry of [sources] contributes: those of its crawler,
    run with the split quota, or none when no crawler is registered. *)
Definition contribution (input : Main.Input)
    (engine : nat -> list (Crawler.Request * Crawler.Page))
    (i : nat) (source : str) : list NormalizedListing :=
  match Main.CRAWLERS (toLowerCase source) with
  | Main.Own f =>
      Crawler.listings
        (Crawler.run (Main.handlerOf f)
           {| Crawler.maxListings :=
                ceilDiv (Main.maxListings input)
                        (List.length (Main.sources input));
              Crawler.currency := Main.currency input |}
           (engine i) Crawler.initial)
  | _ => []
  end.

Fixpoint contributions (input : Main.Input)
    (engine : nat -> list (Crawler.Request * Crawler.Page))
    (i : nat) (names : list str) : list (list NormalizedListing) :=
  match names with
  | [] => []
  | source :: rest =>
      contribution input engine i source
      :: contributions input engine (S i) rest
  end.

(** No entry is a member inherited from [Object.prototype]. *)
Definition plainNames (names : list str) : Prop :=
  Forall (fun source => Main.CRAWLERS (toLowerCase source) <> Main.Inherited)
         names.

Definition runInput (names : list string) : Main.Input :=
  {| Main.sources := lits names; Main.maxListings := 100;
     Main.currency := lit "KES" |}.

(** A number that is not negative; [NaN] counts as such. *)
Definition nonNegative (a : number) : Prop :=
  match a with
  | NaN => True
  | Inf negative => negative = false
  | Fin q => (0 <= q)%Q
  end.

(** The value of a decimal numeral read from the left, [acc] being the
    value of the digits already read. *)
Fixpoint uintValue (d : Decimal.uint) (acc : Z) : Z :=
  match d with
  | Decimal.Nil => acc
  | Decimal.D0 d => uintValue d (10 * acc + 0)
  | Decimal.D1 d => uintValue d (10 * acc + 1)
  | Decimal.D2 d => uintValue d (10 * acc + 2)
  | Decimal.D3 d => uintValue d (10 * acc + 3)
  | Decimal.D4 d => uintValue d (10 * acc + 4)
  | Decimal.D5 d => uintValue d (10 * acc + 5)
  | Decimal.D6 d => uintValue d (10 * acc + 6)
  | Decimal.D7 d => uintValue d (10 * acc + 7)
  | Decimal.D8 d => uintValue d (10 * acc + 8)
  | Decimal.D9 d => uintValue d (10 * acc + 9)
  end%Z.


(** The units [parseSize] can return. *)
Definition sizeUnits : list str :=
  lits ["sqft"; "sqm"; "acre"; "acres"; "hectare"; "hectares"].

(** The letters of the unit patterns. *)
Definition unitLetter (a : ascii) : bool :=
  existsb (Ascii.eqb a) (lit "sqftmacreh").

(** How the matched unit text is normalised: dots and white space
    removed, lower case. *)
Definition unitText (u : str) : str :=
  toLowerCase (filter (fun c => negb (isSpace c))
                 (filter (fun c => negb (Ascii.eqb c ".")) u)).

Definition noSize : Size := {| size_value := None; size_unit := None |}.

(** What a location adds to the path of a search URL after the separator
    [sep]: nothing when there is none. *)
Definition locationSuffix (sep : ascii) (location : option str) : str :=
  match location with
  | Some l => if isEmpty l then [] else sep :: Crawler.locationSlug l
  | None => []
  end.

Definition noSpace (s : str) : bool := forallb (fun c => negb (isSpace c)) s.

Definition searchOptions (listingType propertyType location : option str)
  : Crawler.SearchOptions :=
  {| Crawler.so_listingType := listingType;
     Crawler.so_propertyType := propertyType;
     Crawler.so_location := location |}.

(** The name under which a crawler files its listings. *)
Definition sourceName (f : Main.Factory) : str :=
  match f with
  | Main.createBuyRentKenyaCrawler => "buyrentkenya"
  | Main.createJijiCrawler => "jiji"
  end.

Definition absoluteUrl (u : str) : bool := startsWith u "http".

(** What every listing a crawler collects satisfies. *)
Definition normalisedFor (name targetCurrency : str) (l : NormalizedListing)
  : Prop :=
  source l = name
  /\ currency (price l) = targetCurrency
  /\ forallb absoluteUrl (images l) = true
  /\ forallb canonicalPhone (phone (contact l)) = true
  /\ In (listingType l) listingTypes
  /\ In (propertyType l) propertyTypes.

(** The listing types a detail page can be given. *)
Definition pageListingType (sale rent : bool) : str :=
  if sale then "sale" else if rent then "rent" else "unknown".

(** The number a run of digits is read as: the double nearest to the
    integer it denotes. *)
Definition countOf (ds : str) : number := double (inject_Z (digitsValue ds)).

(** A field that is absent or holds a non-empty run of digits. *)
Definition digitField (field : option str) : Prop :=
  forall ds, field = Some ds -> ds <> [] /\ forallb isDigit ds = true.

(* ================================================================== *)
(** ** Properties of the crawl state machine *)
(* ================================================================== *)

Section QuotaInvariant.
Import Crawler.

Lemma brk_stepShape : stepShape BuyRentKenya.requestHandler.
Proof.
  intros options st [u [|]] page; cbn.
  - left; split; reflexivity.
  - destruct (maxListings options <=? listingCount st) eqn:E.
    + left; split; reflexivity.
    + right. apply Nat.leb_gt in E. cbn. repeat split; eauto.
Qed.

Lemma jiji_stepShape : stepShape Jiji.requestHandler.
Proof.
  intros options st [u [|]] page; cbn.
  - left; split; reflexivity.
  - destruct (maxListings options <=? listingCount st) eqn:E.
    + left; split; reflexivity.
    + right. apply Nat.leb_gt in E. cbn. repeat split; eauto.
Qed.

Lemma handlerOf_stepShape (f : Main.Factory) : stepShape (Main.handlerOf f).
Proof. destruct f; [apply brk_stepShape | apply jiji_stepShape]. Qed.

Variable h : Handler.
Hypothesis h_shape : stepShape h.
Variable options : Options.

Lemma step_within st request page :
  within options st -> within options (h options st request page).
Proof.
  intros [Hlen Hle].
  destruct (h_shape options st request page) as [[Hl Hc] | (Hlt & Hc & l & Hl)];
    unfold within; rewrite Hc, Hl.
  - split; assumption.
  - rewrite length_app; cbn. split; lia.
Qed.

Lemma run_within events : forall st,
  within options st -> within options (run h options events st).
Proof.
  induction events as [|e events IH]; intros st Hst; cbn.
  - exact Hst.
  - apply IH, step_within, Hst.
Qed.

Lemma step_grows st request page :
  List.length (listings st)
  <= List.length (listings (h options st request page)).
Proof.
  destruct (h_shape options st request page) as [[Hl _] | (_ & _ & l & Hl)];
    rewrite Hl; [lia | rewrite length_app; lia].
Qed.

Lemma run_grows events : forall st,
  List.length (listings st) <= List.length (listings (run h options events st)).
Proof.
  induction events as [|e events IH]; intros st; cbn.
  - lia.
  - etransitivity; [apply step_grows | apply IH].
Qed.

End QuotaInvariant.

Lemma run_app h options (e1 e2 : list (Crawler.Request * Crawler.Page)) st :
  Crawler.run h options (e1 ++ e2) st
  = Crawler.run h options e2 (Crawler.run h options e1 st).
Proof. unfold Crawler.run. apply fold_left_app. Qed.

Lemma detail_at_quota (f : Main.Factory) options ls k q u page :
  let st := {| Crawler.listings := ls;
               Crawler.listingCount := Crawler.maxListings options + k;
               Crawler.requestQueue := q |} in
  Main.handlerOf f options st
    {| Crawler.req_url := u; Crawler.label := Crawler.DETAIL |} page = st.
Proof.
  destruct f; cbn;
    (replace (Crawler.maxListings options <=? Crawler.maxListings options + k)
       with true by (symmetry; apply Nat.leb_le; lia)); reflexivity.
Qed.

(** C1. For both source crawlers and every sequence of LIST and DETAIL
    requests handled one after the other from the initial state: the
    result list is never longer than [maxListings] and the counter is its
    length; a DETAIL request handled when the counter has reached
    [maxListings] (is [maxListings + k]) leaves the whole state unchanged;
    and handling further requests never shortens the result list. *)
Theorem quota_never_exceeded :
  forall (f : Main.Factory) (options : Crawler.Options)
         (events more : list (Crawler.Request * Crawler.Page)),
    let h := Main.handlerOf f in
    let st := Crawler.run h options events Crawler.initial in
    List.length (Crawler.listings st) <= Crawler.maxListings options
    /\ Crawler.listingCount st = List.length (Crawler.listings st)
    /\ (forall ls k q u page,
          let full := {| Crawler.listings := ls;
                         Crawler.listingCount := Crawler.maxListings options + k;
                         Crawler.requestQueue := q |} in
          h options full
            {| Crawler.req_url := u; Crawler.label := Crawler.DETAIL |} page
          = full)
    /\ List.length (Crawler.listings st)
       <= List.length (Crawler.listings (Crawler.run h options (events ++ more)
                                                     Crawler.initial))
    /\ 0 <= List.length (Crawler.listings st).
Proof.
  intros f options events more h st.
  assert (Hw : within options st).
  { apply run_within; [apply handlerOf_stepShape |].
    split; cbn; lia. }
  destruct Hw as [Hlen Hle].
  repeat split.
  - lia.
  - exact Hlen.
  - intros; apply detail_at_quota.
  - rewrite run_app. apply run_grows, handlerOf_stepShape.
  - lia.
Qed.

(* ================================================================== *)
(** ** Basic facts about strings *)
(* ================================================================== *)


Lemma eqs_true (a b : str) : eqs a b = true <-> a = b.
Proof.
  unfold eqs. destruct (list_eq_dec ascii_dec a b); split; congruence.
Qed.

Lemma eqs_false (a b : str) : eqs a b = false <-> a <> b.
Proof.
  unfold eqs. destruct (list_eq_dec ascii_dec a b); split; congruence.
Qed.

Lemma eqs_refl (a : str) : eqs a a = true.
Proof. apply eqs_true; reflexivity. Qed.

Lemma arrayIncludes_In (arr : list str) (x : str) :
  arrayIncludes arr x = true <-> In x arr.
Proof.
  unfold arrayIncludes. rewrite existsb_exists. split.
  - intros (y & Hy & E). apply eqs_true in E. subst; assumption.
  - intros H. exists x. split; [assumption | apply eqs_refl].
Qed.

(** A conjunction of boolean tests taken apart, for goals and hypotheses
    that come from [forallb] over a literal list. *)
Ltac split_andb :=
  repeat match goal with
         | H : _ && _ = true |- _ => apply andb_prop in H; destruct H
         | H : negb _ = true |- _ => apply negb_true_iff in H
         end.

(* ================================================================== *)
(** ** Classification and falsy prices *)
(* ================================================================== *)

Ltac in_literal := cbn; repeat (first [left; reflexivity | right]).

Ltac case_conditions :=
  repeat match goal with
         | |- context [if ?b then _ else _] => destruct b
         end.

Lemma listingType_listed (v : value) : In (normalizeListingType v) listingTypes.
Proof.
  unfold normalizeListingType.
  destruct (truthy v); cbn [negb]; case_conditions; in_literal.
Qed.

Lemma propertyType_listed (v : value) :
  In (normalizePropertyType v) propertyTypes.
Proof.
  unfold normalizePropertyType.
  destruct (truthy v); cbn [negb]; case_conditions; in_literal.
Qed.

(** C8. The two classifiers of [normalizeListing] are total: whatever the
    value, the listing type is one of sale, rent, unknown and the property
    type one of house, apartment, land, commercial, other, unknown, and so
    are these two fields of every normalised listing; a falsy value (null,
    undefined, the empty string) gives unknown for both, and a truthy value
    whose lower-cased text contains none of the property keywords gives
    other. *)
Theorem classification_total :
  forall v : value,
    In (normalizeListingType v) listingTypes
    /\ In (normalizePropertyType v) propertyTypes
    /\ (forall rawListing source targetCurrency,
          In (listingType (normalizeListing rawListing source targetCurrency))
             listingTypes
          /\ In (propertyType
                   (normalizeListing rawListing source targetCurrency))
                propertyTypes)
    /\ (truthy v = false ->
        normalizeListingType v = lit "unknown"
        /\ normalizePropertyType v = lit "unknown")
    /\ (truthy v = true ->
        forallb (fun k => negb (includes (toLowerCase (ToString v)) k))
                propertyKeywords = true ->
        normalizePropertyType v = lit "other").
Proof.
  intros v.
  split; [apply listingType_listed |].
  split; [apply propertyType_listed |].
  split; [intros; split;
          [apply listingType_listed | apply propertyType_listed] |].
  unfold normalizeListingType, normalizePropertyType. split.
  - intros ->; split; reflexivity.
  - intros -> H. cbn [negb].
    cbn [forallb propertyKeywords lits map] in H. split_andb.
    repeat match goal with
           | H : includes _ _ = false |- _ => rewrite H; clear H
           end.
    reflexivity.
Qed.

Lemma classification_total_witness :
  normalizeListingType VNull = lit "unknown"
  /\ normalizePropertyType (VStr "") = lit "unknown"
  /\ normalizePropertyType (VStr "Maisonette") = lit "other".
Proof.
  split; [| split].
  - apply (classification_total VNull); reflexivity.
  - apply (classification_total (VStr "")); reflexivity.
  - apply (classification_total (VStr "Maisonette")); reflexivity.
Defined.

(** C10. Every falsy price input, the number 0 included, gives the result
    of an absent price: no amount, the target currency, no original; so the
    number 0 and an absent price give the same record. *)
Theorem normalizePrice_falsy :
  forall (v : value) (targetCurrency : str),
    truthy v = false ->
    normalizePrice v targetCurrency = absentPrice targetCurrency
    /\ normalizePrice (VNum 0) targetCurrency = normalizePrice v targetCurrency.
Proof.
  intros v t H. unfold normalizePrice. rewrite H. split; reflexivity.
Qed.

Lemma normalizePrice_falsy_witness :
  truthy (VNum 0) = false
  /\ normalizePrice (VNum 0) "USD" = absentPrice "USD"
  /\ normalizePrice (VNum 0) "USD" = normalizePrice VNull "USD".
Proof.
  split; [reflexivity |].
  split.
  - apply (normalizePrice_falsy (VNum 0) "USD"); reflexivity.
  - apply (normalizePrice_falsy VNull "USD"); reflexivity.
Defined.

(* ================================================================== *)
(** ** Phone numbers *)
(* ================================================================== *)

Lemma startsWith_app (s p : str) : startsWith s p = true -> exists t, s = p ++ t.
Proof.
  revert s. induction p as [|a p IH]; intros s H; cbn in H.
  - exists s; reflexivity.
  - destruct s as [|b s]; [discriminate |].
    apply andb_prop in H. destruct H as [E H].
    apply Ascii.eqb_eq in E. subst b.
    destruct (IH s H) as [t ->]. exists t; reflexivity.
Qed.

Lemma digit_kept (c : ascii) :
  isDigit c = true ->
  negb (isSpace c || Ascii.eqb c "-" || Ascii.eqb c "(" || Ascii.eqb c ")")
  = true.
Proof.
  destruct c as [[|] [|] [|] [|] [|] [|] [|] [|]]; vm_compute; congruence.
Qed.

Lemma filter_digits (r : str) :
  forallb isDigit r = true ->
  filter (fun c => negb (isSpace c || Ascii.eqb c "-" ||
                         Ascii.eqb c "(" || Ascii.eqb c ")")) r = r.
Proof.
  induction r as [|c r IH]; cbn [forallb filter]; intros H; [reflexivity |].
  apply andb_prop in H. destruct H as [Hc Hr].
  rewrite (digit_kept c Hc), (IH Hr). reflexivity.
Qed.

(** What [[17]\d{8}] matches: a 1 or a 7 and eight digits. *)
Lemma subscriberAt_shape (s : str) :
  subscriberAt s = true ->
  exists e r t, s = e :: r ++ t
                /\ (e = "1"%char \/ e = "7"%char)
                /\ List.length r = 8 /\ forallb isDigit r = true.
Proof.
  destruct s as [|e s]; [discriminate |]. cbn [subscriberAt].
  intros H. split_andb.
  exists e, (firstn 8 s), (skipn 8 s). split; [| split; [| split]].
  - rewrite firstn_skipn. reflexivity.
  - apply orb_prop in H. destruct H as [H | H]; apply Ascii.eqb_eq in H; auto.
  - apply Nat.leb_le in H1. rewrite length_firstn. lia.
  - assumption.
Qed.

Lemma firstn_exact (r t : str) : List.length r = 8 -> firstn 8 (r ++ t) = r.
Proof.
  intros H. rewrite <- H. rewrite firstn_app, Nat.sub_diag, firstn_all.
  cbn. apply app_nil_r.
Qed.

Lemma canonical_tail (r : str) :
  List.length r = 8 -> forallb isDigit r = true ->
  (List.length r =? 8) && forallb isDigit r = true.
Proof. intros -> ->. reflexivity. Qed.

Ltac subscriber H :=
  apply subscriberAt_shape in H;
  let e := fresh "e" in
  let r := fresh "r" in
  let t := fresh "t" in
  let Hlen := fresh "Hlen" in
  let Hdig := fresh "Hdig" in
  destruct H as (e & r & t & -> & [-> | ->] & Hlen & Hdig);
  rewrite !firstn_cons, (firstn_exact r t Hlen);
  unfold normalizePhone; cbn;
  rewrite (filter_digits r Hdig); cbn;
  apply canonical_tail; assumption.

(** Every match of the phone pattern is normalised to the canonical form. *)
Lemma matchPhoneAt_canonical (s : str) (n : nat) :
  matchPhoneAt s = Some n ->
  canonicalPhone (normalizePhone (firstn n s)) = true.
Proof.
  unfold matchPhoneAt.
  destruct (startsWith s "+254" && subscriberAt (skipn 4 s)) eqn:E1.
  { intros [= <-]. split_andb.
    destruct (startsWith_app _ _ H) as [t0 ->].
    cbn [lit list_ascii_of_string app skipn] in *. subscriber H0. }
  destruct (startsWith s "254" && subscriberAt (skipn 3 s)) eqn:E2.
  { intros [= <-]. split_andb.
    destruct (startsWith_app _ _ H) as [t0 ->].
    cbn [lit list_ascii_of_string app skipn] in *. subscriber H0. }
  destruct (startsWith s "0" && subscriberAt (skipn 1 s)) eqn:E3.
  { intros [= <-]. split_andb.
    destruct (startsWith_app _ _ H) as [t0 ->].
    cbn [lit list_ascii_of_string app skipn] in *. subscriber H0. }
  destruct (subscriberAt s) eqn:E4; [| discriminate].
  intros [= <-]. subscriber E4.
Qed.

Lemma phoneMatches_canonical (s : str) : forall skip,
  Forall (fun m => canonicalPhone (normalizePhone m) = true)
         (phoneMatches skip s).
Proof.
  induction s as [|c s IH]; intros skip; cbn [phoneMatches].
  - constructor.
  - destruct skip as [|k]; [| apply IH].
    destruct (matchPhoneAt (c :: s)) as [[|k] |] eqn:E; try apply IH.
    constructor; [| apply IH].
    apply matchPhoneAt_canonical, E.
Qed.

Lemma filter_twice (f g : str -> bool) (l : list str) :
  filter f (filter g l) = filter (fun x => f x && g x) l.
Proof.
  induction l as [|x l IH]; cbn; [reflexivity |].
  destruct (g x); cbn; rewrite ?andb_true_r, ?andb_false_r;
    [destruct (f x) |]; rewrite IH; reflexivity.
Qed.

Lemma dedupFirst_filter (p : str -> bool) (l : list str) :
  dedupFirst (filter p l) = filter p (dedupFirst l).
Proof.
  induction l as [|x l IH]; cbn [filter dedupFirst]; [reflexivity |].
  destruct (p x) eqn:Px; cbn [dedupFirst]; rewrite IH.
  - f_equal. rewrite !filter_twice. apply filter_ext.
    intros y. apply andb_comm.
  - rewrite filter_twice. apply filter_ext_in. intros y _.
    destruct (eqs x y) eqn:E; cbn; [| rewrite andb_true_r; reflexivity].
    apply eqs_true in E. subst y. rewrite Px. reflexivity.
Qed.

Lemma arrayIncludes_snoc (acc : list str) (n x : str) :
  negb (arrayIncludes (acc ++ [n]) x)
  = negb (eqs n x) && negb (arrayIncludes acc x).
Proof.
  unfold arrayIncludes. rewrite existsb_app. cbn.
  rewrite orb_false_r, negb_orb, andb_comm. f_equal. f_equal.
  destruct (eqs x n) eqn:E1, (eqs n x) eqn:E2; try reflexivity.
  - apply eqs_true in E1. apply eqs_false in E2. congruence.
  - apply eqs_true in E2. apply eqs_false in E1. congruence.
Qed.

(** The loop of [extractPhoneNumbers] keeps the first occurrence of each
    normalised number, in the order of the matches. *)
Lemma collectPhones_dedup (ms : list str) : forall acc,
  collectPhones ms acc
  = acc ++ dedupFirst (filter (fun n => negb (arrayIncludes acc n))
                              (map normalizePhone ms)).
Proof.
  induction ms as [|m ms IH]; intros acc; cbn [collectPhones map filter].
  - cbn. symmetry. apply app_nil_r.
  - destruct (arrayIncludes acc (normalizePhone m)) eqn:E; cbn [negb].
    + apply IH.
    + rewrite IH, <- app_assoc. cbn [app dedupFirst]. f_equal. f_equal.
      rewrite <- dedupFirst_filter, filter_twice.
      f_equal. apply filter_ext. intros x.
      rewrite arrayIncludes_snoc. reflexivity.
Qed.

Lemma extractPhoneNumbers_dedup (s : str) :
  extractPhoneNumbers s = dedupFirst (map normalizePhone (phoneMatches 0 s)).
Proof.
  unfold extractPhoneNumbers. destruct s as [|c s]; [reflexivity |].
  cbn [isEmpty]. rewrite collectPhones_dedup. cbn [app].
  f_equal. apply forallb_filter_id. apply forallb_forall.
  intros x _. reflexivity.
Qed.

Lemma dedupFirst_incl (l : list str) (x : str) : In x (dedupFirst l) -> In x l.
Proof.
  induction l as [|y l IH]; cbn; [tauto |].
  intros [-> | H]; [left; reflexivity |].
  apply filter_In in H. right. apply IH, H.
Qed.

Lemma dedupFirst_NoDup (l : list str) : NoDup (dedupFirst l).
Proof.
  induction l as [|x l IH]; cbn; constructor.
  - intros H. apply filter_In in H. destruct H as [_ H].
    rewrite eqs_refl in H. discriminate.
  - apply NoDup_filter, IH.
Qed.

Lemma extractPhoneNumbers_canonical (s : str) :
  forallb canonicalPhone (extractPhoneNumbers s) = true.
Proof.
  rewrite extractPhoneNumbers_dedup. apply forallb_forall. intros x H.
  apply dedupFirst_incl, in_map_iff in H. destruct H as (m & <- & H).
  pose proof (phoneMatches_canonical s 0) as F.
  rewrite Forall_forall in F. apply F, H.
Qed.

Lemma normalizeContact_phone (input : contactInput) :
  phone (normalizeContact input) = extractPhoneNumbers (phoneSource input).
Proof.
  destruct input as [| s | o]; cbn; try reflexivity.
  destruct s; reflexivity.
Qed.

(** C5. Whatever the input of [normalizeContact] (null, a string or an
    object): every entry of [phone] has the canonical form; no entry is
    repeated; the entries are the normalised matches of the phone pattern
    with later repetitions dropped, so in first-seen order; the three
    spellings of 0722 123456 give the single entry +254722123456; and a text
    in which the pattern finds two numbers with different normal forms
    gives these two, in the order of the text. *)
Theorem phones_canonical_unique :
  forall input : contactInput,
    let phones := phone (normalizeContact input) in
    forallb canonicalPhone phones = true
    /\ NoDup phones
    /\ phones = dedupFirst (map normalizePhone
                                (phoneMatches 0 (phoneSource input)))
    /\ (forall m1 m2,
          phoneMatches 0 (phoneSource input) = [m1; m2] ->
          normalizePhone m1 <> normalizePhone m2 ->
          phones = [normalizePhone m1; normalizePhone m2])
    /\ phone (normalizeContact (contactWithPhone "0722123456"))
       = lits ["+254722123456"]
    /\ phone (normalizeContact (contactWithPhone "+254722123456"))
       = lits ["+254722123456"]
    /\ phone (normalizeContact (contactWithPhone "254722123456"))
       = lits ["+254722123456"]
    /\ phone (normalizeContact (ContactString "0722123456, 0733987654"))
       = lits ["+254722123456"; "+254733987654"].
Proof.
  intros input phones. subst phones. rewrite normalizeContact_phone.
  split; [apply extractPhoneNumbers_canonical |].
  split; [rewrite extractPhoneNumbers_dedup; apply dedupFirst_NoDup |].
  split; [apply extractPhoneNumbers_dedup |].
  split.
  { intros m1 m2 E N. rewrite extractPhoneNumbers_dedup, E. cbn.
    apply eqs_false in N. rewrite N. reflexivity. }
  repeat split; vm_compute; reflexivity.
Qed.

Lemma phones_canonical_unique_witness :
  phone (normalizeContact (ContactString "Call 0733987654 or 254722123456"))
  = lits ["+254733987654"; "+254722123456"].
Proof.
  refine (proj1 (proj2 (proj2 (proj2
            (phones_canonical_unique
               (ContactString "Call 0733987654 or 254722123456")))))
            (lit "0733987654") (lit "254722123456") _ _).
  - vm_compute; reflexivity.
  - vm_compute; discriminate.
Defined.

(* ================================================================== *)
(** ** Prices *)
(* ================================================================== *)

Lemma digit_cases (d : ascii) :
  isDigit d = true ->
  In d (list_ascii_of_string "0123456789").
Proof.
  destruct d as [[|] [|] [|] [|] [|] [|] [|] [|]]; vm_compute;
    intros H; try discriminate H; tauto.
Qed.

Ltac digit_split d H :=
  apply digit_cases in H; cbn in H;
  repeat (destruct H as [H | H]; [subst d |]); [.. | contradiction].

Lemma matchAlt_kes_digit (d : ascii) (s : str) :
  isDigit d = true -> matchAlt kesTokens (d :: s) = None.
Proof. intros H. digit_split d H; reflexivity. Qed.

Lemma matchAlt_usd_digit (d : ascii) (s : str) :
  isDigit d = true -> matchAlt usdTokens (d :: s) = None.
Proof. intros H. digit_split d H; reflexivity. Qed.

Lemma replace_kes_digits (D X : str) :
  forallb isDigit D = true -> In X priceSuffixes ->
  replaceAlt kesTokens 0 (D ++ X) = (D ++ X, false).
Proof.
  intros HD HX. induction D as [|d D IH].
  - cbn in HX. destruct HX as [<- | [<- | [<- | []]]]; reflexivity.
  - cbn [forallb] in HD. apply andb_prop in HD. destruct HD as [Hd HD].
    cbn [app replaceAlt]. rewrite (matchAlt_kes_digit d _ Hd), (IH HD).
    reflexivity.
Qed.

Lemma replace_usd_digits (D X : str) :
  forallb isDigit D = true -> In X priceSuffixes ->
  replaceAlt usdTokens 0 (D ++ X) = (D ++ X, false).
Proof.
  intros HD HX. induction D as [|d D IH].
  - cbn in HX. destruct HX as [<- | [<- | [<- | []]]]; reflexivity.
  - cbn [forallb] in HD. apply andb_prop in HD. destruct HD as [Hd HD].
    cbn [app replaceAlt]. rewrite (matchAlt_usd_digit d _ Hd), (IH HD).
    reflexivity.
Qed.

Lemma replaceAlt_keep (alts : list str) (c : ascii) (s : str) :
  matchAlt alts (c :: s) = None ->
  replaceAlt alts 0 (c :: s)
  = (c :: fst (replaceAlt alts 0 s), snd (replaceAlt alts 0 s)).
Proof.
  intros H. cbn [replaceAlt]. rewrite H.
  destruct (replaceAlt alts 0 s); reflexivity.
Qed.

Lemma replaceAlt_drop (alts : list str) (c : ascii) (s : str) (k : nat) :
  matchAlt alts (c :: s) = Some (S k) ->
  replaceAlt alts 0 (c :: s) = (fst (replaceAlt alts k s), true).
Proof. intros H. cbn [replaceAlt]. rewrite H. reflexivity. Qed.

Lemma replaceAlt_skip (alts : list str) (k : nat) (c : ascii) (s : str) :
  replaceAlt alts (S k) (c :: s) = replaceAlt alts k s.
Proof. reflexivity. Qed.

(** One character of a replacement whose head is known. *)
Ltac replace_step :=
  match goal with
  | |- context [replaceAlt ?a (S ?k) (?c :: ?s)] =>
      rewrite (replaceAlt_skip a k c s)
  | |- context [replaceAlt ?a 0 (?c :: ?s)] =>
      first [ rewrite (replaceAlt_keep a c s eq_refl)
            | rewrite (replaceAlt_drop a c s 0 eq_refl)
            | rewrite (replaceAlt_drop a c s 1 eq_refl)
            | rewrite (replaceAlt_drop a c s 2 eq_refl) ]
  end; cbn [fst snd].

(** The two deletions on an upper-cased marker followed by digits and a
    suffix: the marker goes (the tail [ILLING], [ILLINGS] of a shilling
    stays), and the dollar markers set the flag. *)
Lemma markers_deleted (M D X : str) (d : ascii) :
  In M priceMarkers -> isDigit d = true -> forallb isDigit D = true ->
  In X priceSuffixes ->
  let r1 := replaceAlt kesTokens 0 (M ++ d :: D ++ X) in
  let r2 := replaceAlt usdTokens 0 (fst r1) in
  exists R, In R (lits [""; "ILLING"; "ILLINGS"])
            /\ fst r2 = R ++ d :: D ++ X
            /\ snd r2 = (eqs M "USD" || eqs M "$").
Proof.
  intros HM Hd HD HX.
  pose proof (replace_kes_digits D X HD HX) as K.
  pose proof (replace_usd_digits D X HD HX) as U.
  cbn in HM.
  destruct HM as [<- | [<- | [<- | [<- | [<- | [<- | [<- | [<- | [<- | []]]]]]]]]];
    digit_split d Hd; cbn [app lit list_ascii_of_string];
    repeat (first [replace_step | rewrite K | rewrite U]; cbn [fst snd]).
  all: first [ exists (lit ""); split; [in_literal | split; reflexivity]
             | exists (lit "ILLING"); split; [in_literal | split; reflexivity]
             | exists (lit "ILLINGS"); split; [in_literal | split; reflexivity] ].
Qed.

(** A property of one character, settled by running through all of them. *)
Ltac by_char c :=
  destruct c as [[|] [|] [|] [|] [|] [|] [|] [|]]; vm_compute; congruence.

Lemma upper_space (c : ascii) : isSpace c = true -> upperChar c = c.
Proof. by_char c. Qed.

Lemma upper_digit (c : ascii) : isDigit c = true -> upperChar c = c.
Proof. by_char c. Qed.

Lemma digit_not_separator (c : ascii) :
  isDigit c = true -> negb (Ascii.eqb c "," || isSpace c) = true.
Proof. by_char c. Qed.

Lemma digit_not_space (c : ascii) : isDigit c = true -> isSpace c = false.
Proof. by_char c. Qed.

Lemma digit_isNumChar (c : ascii) : isDigit c = true -> isNumChar c = true.
Proof. by_char c. Qed.

Lemma digit_not_M (c : ascii) : isDigit c = true -> Ascii.eqb "M" c = false.
Proof. by_char c. Qed.

Lemma digit_not_K (c : ascii) : isDigit c = true -> Ascii.eqb "K" c = false.
Proof. by_char c. Qed.

Lemma space_upper_stripped (c : ascii) :
  isSpace c = true -> negb (Ascii.eqb (upperChar c) "," || isSpace (upperChar c)) = false.
Proof. by_char c. Qed.

(** Trimming does not change what is left once white space is removed. *)
Lemma strip_trimStart (s : str) :
  stripSeparators (toUpperCase (trimStart s)) = stripSeparators (toUpperCase s).
Proof.
  induction s as [|c s IH]; [reflexivity |].
  cbn [trimStart]. destruct (isSpace c) eqn:E; [| reflexivity].
  rewrite IH. cbn [toUpperCase map stripSeparators filter].
  rewrite (space_upper_stripped c E). reflexivity.
Qed.

Lemma strip_trimEnd (s : str) :
  stripSeparators (toUpperCase (trimEnd s)) = stripSeparators (toUpperCase s).
Proof.
  induction s as [|c s IH]; [reflexivity |].
  cbn [trimEnd]. destruct (trimEnd s) as [|x r] eqn:T.
  - cbn [toUpperCase map stripSeparators filter] in IH |- *.
    fold (toUpperCase s) in IH |- *. fold (stripSeparators (toUpperCase s)) in IH |- *.
    rewrite <- IH.
    destruct (isSpace c) eqn:E; cbn [map filter].
    + rewrite (space_upper_stripped c E). reflexivity.
    + reflexivity.
  - change (toUpperCase (c :: x :: r)) with (upperChar c :: toUpperCase (x :: r)).
    change (toUpperCase (c :: s)) with (upperChar c :: toUpperCase s).
    cbn [stripSeparators filter].
    fold (stripSeparators (toUpperCase (x :: r))).
    fold (stripSeparators (toUpperCase s)).
    rewrite IH. reflexivity.
Qed.

Lemma strip_trim (s : str) :
  stripSeparators (toUpperCase (trim s)) = stripSeparators (toUpperCase s).
Proof. unfold trim. rewrite strip_trimEnd. apply strip_trimStart. Qed.

Lemma strip_app (a b : str) :
  stripSeparators (toUpperCase (a ++ b))
  = stripSeparators (toUpperCase a) ++ stripSeparators (toUpperCase b).
Proof. unfold stripSeparators, toUpperCase. rewrite map_app. apply filter_app. Qed.

Lemma strip_spaces (ws : str) :
  forallb isSpace ws = true -> stripSeparators (toUpperCase ws) = [].
Proof.
  induction ws as [|c ws IH]; [reflexivity |]. cbn [forallb].
  intros H. apply andb_prop in H. destruct H as [Hc Hws].
  cbn [toUpperCase map stripSeparators filter].
  rewrite (space_upper_stripped c Hc). apply IH, Hws.
Qed.

Lemma strip_digits (D : str) :
  forallb isDigit D = true -> stripSeparators (toUpperCase D) = D.
Proof.
  induction D as [|c D IH]; [reflexivity |]. cbn [forallb].
  intros H. apply andb_prop in H. destruct H as [Hc HD].
  cbn [toUpperCase map stripSeparators filter].
  rewrite (upper_digit c Hc), (digit_not_separator c Hc).
  f_equal. apply IH, HD.
Qed.

Lemma strip_groups (groups : list str) :
  forallb digitGroup groups = true ->
  stripSeparators (toUpperCase (joinCommas groups)) = List.concat groups.
Proof.
  induction groups as [|g rest IH]; [reflexivity |]. cbn [forallb].
  intros H. apply andb_prop in H. destruct H as [Hg Hrest].
  unfold digitGroup in Hg. apply andb_prop in Hg. destruct Hg as [_ Hg].
  cbn [joinCommas List.concat]. destruct rest as [|g' rest'].
  - cbn [List.concat]. rewrite app_nil_r. apply strip_digits, Hg.
  - rewrite strip_app, (strip_digits g Hg). f_equal.
    change (toUpperCase (","%char :: ?x)) with (upperChar "," :: toUpperCase x).
    cbn [stripSeparators filter]. apply IH, Hrest.
Qed.

Lemma groups_digits (groups : list str) :
  forallb digitGroup groups = true -> forallb isDigit (List.concat groups) = true.
Proof.
  induction groups as [|g rest IH]; [reflexivity |]. cbn [forallb List.concat].
  intros H. apply andb_prop in H. destruct H as [Hg Hrest].
  unfold digitGroup in Hg. apply andb_prop in Hg. destruct Hg as [_ Hg].
  rewrite forallb_app, Hg. apply IH, Hrest.
Qed.

Lemma groups_nonempty (groups : list str) :
  groups <> [] -> forallb digitGroup groups = true ->
  exists d D, List.concat groups = d :: D.
Proof.
  destruct groups as [|g rest]; [congruence |]. intros _. cbn [forallb List.concat].
  intros H. apply andb_prop in H. destruct H as [Hg _].
  unfold digitGroup in Hg. apply andb_prop in Hg. destruct Hg as [Hg _].
  destruct g as [|d g]; [discriminate |]. exists d, (g ++ List.concat rest). reflexivity.
Qed.

Lemma trimEnd_id (s : str) :
  forallb (fun c => negb (isSpace c)) s = true -> trimEnd s = s.
Proof.
  induction s as [|c s IH]; [reflexivity |]. cbn [forallb].
  intros H. apply andb_prop in H. destruct H as [Hc Hs].
  cbn [trimEnd]. rewrite (IH Hs). apply negb_true_iff in Hc. rewrite Hc.
  destruct s; reflexivity.
Qed.

Lemma trim_id (s : str) :
  forallb (fun c => negb (isSpace c)) s = true -> trim s = s.
Proof.
  intros H. unfold trim.
  replace (trimStart s) with s; [apply trimEnd_id, H |].
  destruct s as [|c s]; [reflexivity |]. cbn [forallb] in H.
  apply andb_prop in H. destruct H as [Hc _]. apply negb_true_iff in Hc.
  cbn [trimStart]. rewrite Hc. reflexivity.
Qed.

Lemma digits_no_space (D : str) :
  forallb isDigit D = true -> forallb (fun c => negb (isSpace c)) D = true.
Proof.
  intros H. apply forallb_forall. intros c Hc.
  rewrite forallb_forall in H. rewrite (digit_not_space c (H c Hc)). reflexivity.
Qed.

Lemma takeWhile_digits (D X : str) :
  forallb isDigit D = true -> In X priceSuffixes ->
  takeWhile isNumChar (D ++ X) = D /\ takeWhile isDigit D = D
  /\ dropWhile isDigit D = [].
Proof.
  intros HD HX. induction D as [|c D IH].
  - cbn in HX. destruct HX as [<- | [<- | [<- | []]]]; repeat split; reflexivity.
  - cbn [forallb] in HD. apply andb_prop in HD. destruct HD as [Hc HD].
    destruct (IH HD) as (E1 & E2 & E3).
    cbn [app takeWhile dropWhile]. rewrite (digit_isNumChar c Hc), Hc, E1, E2, E3.
    repeat split; reflexivity.
Qed.

Lemma includes_char (s : str) (c : ascii) :
  includes s [c] = existsb (Ascii.eqb c) s.
Proof.
  induction s as [|x s IH]; [reflexivity |].
  cbn [includes startsWith existsb]. rewrite IH, andb_true_r. reflexivity.
Qed.

Lemma digits_no_letter (D : str) (c : ascii) :
  (forall d, isDigit d = true -> Ascii.eqb c d = false) ->
  forallb isDigit D = true -> existsb (Ascii.eqb c) D = false.
Proof.
  intros Hc. induction D as [|d D IH]; [reflexivity |]. cbn [forallb existsb].
  intros H. apply andb_prop in H. destruct H as [Hd HD].
  rewrite (Hc d Hd), (IH HD). reflexivity.
Qed.

Lemma Qred_integer (z : Z) : Qred (z # 1) = (z # 1)%Q.
Proof.
  unfold Qred.
  pose proof (Z.ggcd_gcd z 1) as G.
  pose proof (Z.ggcd_correct_divisors z 1) as C.
  destruct (Z.ggcd z 1) as (g & aa & bb). cbn [fst snd] in *.
  rewrite Z.gcd_1_r in G. subst g. destruct C as [-> C].
  rewrite !Z.mul_1_l in *. subst bb. reflexivity.
Qed.

(** *** Rounding to a double *)

Lemma roundHalfEven_whole (n : Z) : roundHalfEven n 1 = n.
Proof.
  unfold roundHalfEven. rewrite Z.mod_1_r, Z.div_1_r. reflexivity.
Qed.

Lemma roundHalfEven_nonneg (n d : Z) :
  (0 <= n)%Z -> (0 < d)%Z -> (0 <= roundHalfEven n d)%Z.
Proof.
  intros Hn Hd. unfold roundHalfEven.
  pose proof (Z.div_pos n d Hn Hd) as F.
  destruct (2 * (n mod d) ?= d)%Z; [destruct (Z.even (n / d)) | |]; lia.
Qed.

Lemma ilog2_whole (z : Z) : (0 < z)%Z -> ilog2 z 1 = Z.log2 z.
Proof.
  intros Hz. unfold ilog2. change (Z.log2 1) with 0%Z. rewrite Z.sub_0_r.
  pose proof (Z.log2_nonneg z) as L.
  destruct (Z.log2_spec z Hz) as [Lo _].
  replace (0 <=? Z.log2 z)%Z with true by (symmetry; apply Z.leb_le; exact L).
  replace (2 ^ Z.log2 z * 1 <=? z)%Z with true
    by (symmetry; apply Z.leb_le; lia).
  reflexivity.
Qed.

Lemma Qred_scaled (z k : Z) :
  (0 < k)%Z -> Qred (z * k # Z.to_pos k) = (z # 1)%Q.
Proof.
  intros Hk. rewrite <- (Qred_integer z). apply Qred_complete.
  unfold Qeq. cbn [Qnum Qden]. rewrite Z2Pos.id by exact Hk. lia.
Qed.

(** An integer below [2^53] is a double. *)
Lemma nearest64_whole (z : Z) :
  (0 < z < 2 ^ 53)%Z -> nearest64 z 1 = Some (inject_Z z).
Proof.
  intros [Hz Hb]. unfold nearest64. rewrite (ilog2_whole z Hz).
  pose proof (Z.log2_nonneg z) as L0.
  assert (L1 : (Z.log2 z < 53)%Z) by (apply Z.log2_lt_pow2; lia).
  rewrite Z.max_l by lia.
  destruct (0 <=? Z.log2 z - 52)%Z eqn:E.
  - apply Z.leb_le in E. replace (Z.log2 z - 52)%Z with 0%Z by lia.
    change (2 ^ 0)%Z with 1%Z. rewrite !Z.mul_1_r, roundHalfEven_whole.
    replace (2 ^ 1024 <=? z)%Z with false; [reflexivity |].
    symmetry. apply Z.leb_gt.
    apply Z.lt_trans with (2 ^ 53)%Z; [exact Hb | reflexivity].
  - apply Z.leb_gt in E. rewrite roundHalfEven_whole.
    rewrite Qred_scaled; [reflexivity |]. apply Z.pow_pos_nonneg; lia.
Qed.

Lemma double_whole (z : Z) :
  (Z.abs z < 2 ^ 53)%Z -> double (inject_Z z) = Fin (inject_Z z).
Proof.
  intros H. unfold double. cbn [inject_Z Qnum Qden].
  destruct z as [| p | p]; [reflexivity | |].
  - rewrite nearest64_whole; [reflexivity |]. cbn [Z.abs] in H. lia.
  - rewrite nearest64_whole; [reflexivity |]. cbn [Z.abs] in H. lia.
Qed.

(** *** Doubles with a power of two as denominator

    An integer below [2^53] over a power of two up to [2^1022] is a
    double: rounding leaves it as it is. *)

Section Dyadic.
Local Open Scope Z_scope.

Lemma roundHalfEven_multiple (a d : Z) : 0 < d -> roundHalfEven (a * d) d = a.
Proof.
  intros Hd. unfold roundHalfEven.
  rewrite Z.mod_mul by lia. rewrite Z.div_mul by lia.
  destruct (Z.compare_spec (2 * 0) d); [lia | reflexivity | lia].
Qed.

Lemma ilog2_dyadic (m j : Z) :
  0 < m -> 0 <= j -> ilog2 m (2 ^ j) = Z.log2 m - j.
Proof.
  intros Hm Hj. unfold ilog2. rewrite (Z.log2_pow2 j Hj).
  pose proof (Z.log2_nonneg m) as L.
  destruct (Z.log2_spec m Hm) as [Lo _].
  destruct (0 <=? Z.log2 m - j) eqn:E.
  - apply Z.leb_le in E.
    replace (2 ^ (Z.log2 m - j) * 2 ^ j <=? m) with true; [reflexivity |].
    symmetry. apply Z.leb_le. rewrite <- Z.pow_add_r by lia.
    replace (Z.log2 m - j + j) with (Z.log2 m) by lia. exact Lo.
  - apply Z.leb_gt in E.
    replace (2 ^ j <=? m * 2 ^ (- (Z.log2 m - j))) with true; [reflexivity |].
    symmetry. apply Z.leb_le.
    replace j with (Z.log2 m + (- (Z.log2 m - j))) at 1 by lia.
    rewrite Z.pow_add_r by lia.
    apply Z.mul_le_mono_nonneg_r; [| exact Lo].
    apply Z.pow_nonneg. lia.
Qed.

Lemma nearest64_dyadic (m j : Z) :
  0 < m < 2 ^ 53 -> 0 <= j <= 1022 ->
  nearest64 m (2 ^ j) = Some (Qred (m # Z.to_pos (2 ^ j))).
Proof.
  intros [Hm Hb] [Hj Hj']. unfold nearest64. rewrite (ilog2_dyadic m j Hm Hj).
  pose proof (Z.log2_nonneg m) as L0.
  assert (L1 : Z.log2 m < 53) by (apply Z.log2_lt_pow2; lia).
  rewrite Z.max_l by lia.
  assert (Pj : 0 < 2 ^ j) by (apply Z.pow_pos_nonneg; lia).
  destruct (0 <=? Z.log2 m - j - 52) eqn:E.
  - apply Z.leb_le in E. assert (j = 0) by lia. subst j.
    replace (Z.log2 m - 0 - 52) with 0 by lia.
    change (2 ^ 0) with 1. rewrite !Z.mul_1_r, roundHalfEven_whole.
    replace (2 ^ 1024 <=? m) with false.
    + f_equal. symmetry. apply Qred_integer.
    + symmetry. apply Z.leb_gt.
      apply Z.lt_trans with (2 ^ 53); [exact Hb | reflexivity].
  - apply Z.leb_gt in E. f_equal.
    replace (- (Z.log2 m - j - 52)) with ((52 - Z.log2 m) + j) by lia.
    rewrite Z.pow_add_r by lia. rewrite Z.mul_assoc.
    rewrite (roundHalfEven_multiple _ _ Pj).
    assert (Pk : 0 < 2 ^ (52 - Z.log2 m)) by (apply Z.pow_pos_nonneg; lia).
    apply Qred_complete. unfold Qeq. cbn [Qnum Qden].
    rewrite !Z2Pos.id by lia. ring.
Qed.

End Dyadic.

(** The product of two integers, when it is below [2^53], is formed
    exactly. *)
Lemma times_whole (a b : Z) :
  (Z.abs (a * b) < 2 ^ 53)%Z ->
  times (Fin (inject_Z a)) (Fin (inject_Z b)) = Fin (inject_Z (a * b)).
Proof.
  intros H. unfold times.
  change (inject_Z a * inject_Z b)%Q with (inject_Z (a * b)).
  apply double_whole, H.
Qed.

Lemma nearest64_nonneg (n d : Z) (v : Q) :
  (0 < n)%Z -> (0 < d)%Z -> nearest64 n d = Some v -> (0 <= v)%Q.
Proof.
  intros Hn Hd. unfold nearest64.
  set (e := Z.max (ilog2 n d - 52) (-1074)).
  destruct (0 <=? e)%Z eqn:E.
  - apply Z.leb_le in E.
    assert (P : (0 < 2 ^ e)%Z) by (apply Z.pow_pos_nonneg; lia).
    pose proof (roundHalfEven_nonneg n (d * 2 ^ e) ltac:(lia) ltac:(lia)) as R.
    set (w := (roundHalfEven n (d * 2 ^ e) * 2 ^ e)%Z) in *.
    destruct (2 ^ 1024 <=? w)%Z; [discriminate |].
    intros H. assert (V : v = inject_Z w) by congruence. rewrite V.
    unfold Qle, w. cbn [inject_Z Qnum Qden]. lia.
  - apply Z.leb_gt in E.
    assert (P : (0 < 2 ^ (- e))%Z) by (apply Z.pow_pos_nonneg; lia).
    pose proof (roundHalfEven_nonneg (n * 2 ^ (- e)) d ltac:(lia) Hd) as R.
    set (w := (roundHalfEven (n * 2 ^ (- e)) d # Z.to_pos (2 ^ (- e)))%Q).
    intros H. assert (V : v = Qred w) by congruence. rewrite V.
    apply Qle_trans with w.
    + unfold Qle, w. cbn [Qnum Qden]. lia.
    + apply Qle_lteq. right. symmetry. apply Qred_correct.
Qed.

Lemma double_nonneg (q : Q) : (0 <= q)%Q -> nonNegative (double q).
Proof.
  intros H. unfold double. destruct q as [n d]. cbn [Qnum Qden].
  destruct n as [| p | p].
  - cbn [nonNegative]. apply Qle_refl.
  - destruct (nearest64 (Z.pos p) (Z.pos d)) as [v |] eqn:E;
      cbn [nonNegative]; [| reflexivity].
    apply (nearest64_nonneg (Z.pos p) (Z.pos d) v); [lia | lia | exact E].
  - unfold Qle in H. cbn [Qnum Qden] in H.
    pose proof (Pos2Z.neg_is_neg p). lia.
Qed.

Lemma fold_digits_nonneg (ds : str) : forall a : Z,
  (0 <= a)%Z ->
  (0 <= fold_left (fun acc c => (10 * acc + digitVal c)%Z) ds a)%Z.
Proof.
  induction ds as [|c ds IH]; intros a Ha; cbn [fold_left]; [exact Ha |].
  apply IH. unfold digitVal. lia.
Qed.

Lemma digitsValue_nonneg (ds : str) : (0 <= digitsValue ds)%Z.
Proof. apply fold_digits_nonneg. lia. Qed.

Lemma digits_span (D rest : str) :
  forallb isDigit D = true -> takeWhile isDigit rest = [] ->
  takeWhile isDigit (D ++ rest) = D /\ dropWhile isDigit (D ++ rest) = rest.
Proof.
  intros HD R. induction D as [|c D IH]; cbn [app].
  - split; [exact R |]. destruct rest as [|x rest]; [reflexivity |].
    cbn [takeWhile dropWhile] in R |- *. destruct (isDigit x);
      [discriminate R | reflexivity].
  - cbn [forallb] in HD. apply andb_prop in HD. destruct HD as [Hc HD].
    destruct (IH HD) as [E1 E2]. cbn [takeWhile dropWhile].
    rewrite Hc, E1, E2. split; reflexivity.
Qed.

(** [parseFloat] on digits and a decimal fraction. *)
Lemma parseFloat_decimal (d : ascii) (D frac : str) :
  isDigit d = true -> forallb isDigit D = true ->
  forallb isDigit frac = true ->
  parseFloat (d :: D ++ fractionText frac)
  = double (digitsValue (d :: D ++ frac) # pow10 (List.length frac)).
Proof.
  intros Hd HD HF. unfold parseFloat.
  assert (HdD : forallb isDigit (d :: D) = true)
    by (cbn [forallb]; rewrite Hd, HD; reflexivity).
  replace (trimStart (d :: D ++ fractionText frac))
    with ((d :: D) ++ fractionText frac)
    by (cbn [app trimStart]; rewrite (digit_not_space d Hd); reflexivity).
  destruct (digits_span (d :: D) (fractionText frac) HdD) as [E1 E2];
    [unfold fractionText; destruct frac; reflexivity |].
  rewrite E1, E2. unfold fractionText.
  destruct frac as [|f F]; cbn [isEmpty].
  - rewrite !app_nil_r. reflexivity.
  - cbn [Ascii.eqb Bool.eqb].
    destruct (digits_span (f :: F) [] HF eq_refl) as [E3 _].
    rewrite app_nil_r in E3. rewrite E3. reflexivity.
Qed.

Lemma parseFloat_digits (d : ascii) (D : str) :
  isDigit d = true -> forallb isDigit D = true ->
  parseFloat (d :: D) = double (inject_Z (digitsValue (d :: D))).
Proof.
  intros Hd HD.
  pose proof (parseFloat_decimal d D [] Hd HD eq_refl) as P.
  cbn [fractionText isEmpty] in P. rewrite !app_nil_r in P. exact P.
Qed.

Lemma matchNumber_skip (R T : str) :
  forallb (fun c => negb (isNumChar c)) R = true ->
  matchNumber (R ++ T) = matchNumber T.
Proof.
  induction R as [|c R IH]; [reflexivity |]. cbn [forallb].
  intros H. apply andb_prop in H. destruct H as [Hc HR].
  apply negb_true_iff in Hc. cbn [app matchNumber]. rewrite Hc. apply IH, HR.
Qed.

Lemma marker_stripped (M : str) :
  In M priceMarkers -> stripSeparators M = M.
Proof.
  cbn. intros H.
  repeat (destruct H as [<- | H]; [reflexivity |]). contradiction.
Qed.

Lemma suffix_stripped (X : str) :
  In X priceSuffixes -> stripSeparators X = X.
Proof.
  cbn. intros H.
  repeat (destruct H as [<- | H]; [reflexivity |]). contradiction.
Qed.

(** Digits and points: what the currency patterns leave alone. *)
Lemma numchar_cases (c : ascii) :
  isNumChar c = true -> In c (list_ascii_of_string "0123456789.").
Proof.
  destruct c as [[|] [|] [|] [|] [|] [|] [|] [|]]; vm_compute;
    intros H; try discriminate H; tauto.
Qed.

Lemma matchAlt_numchar (c : ascii) (s : str) :
  isNumChar c = true ->
  matchAlt kesTokens (c :: s) = None /\ matchAlt usdTokens (c :: s) = None.
Proof.
  intros H. apply numchar_cases in H. cbn in H.
  repeat (destruct H as [<- | H]; [split; reflexivity |]). contradiction.
Qed.

Lemma replace_numchars (N X : str) :
  forallb isNumChar N = true -> In X priceSuffixes ->
  replaceAlt kesTokens 0 (N ++ X) = (N ++ X, false)
  /\ replaceAlt usdTokens 0 (N ++ X) = (N ++ X, false).
Proof.
  intros HN HX. induction N as [|c N IH].
  - cbn in HX. destruct HX as [<- | [<- | [<- | []]]]; split; reflexivity.
  - cbn [forallb] in HN. apply andb_prop in HN. destruct HN as [Hc HN].
    destruct (IH HN) as [K U]. destruct (matchAlt_numchar c (N ++ X) Hc) as [MK MU].
    cbn [app replaceAlt]. rewrite MK, MU, K, U. split; reflexivity.
Qed.

(** The two deletions on an upper-cased marker followed by a digit and a
    text [T] that they leave alone: the marker goes (the tail [ILLING],
    [ILLINGS] of a shilling stays), and the dollar markers set the flag. *)
Lemma markers_removed (M T : str) (d : ascii) :
  In M priceMarkers -> isDigit d = true ->
  replaceAlt kesTokens 0 T = (T, false) ->
  replaceAlt usdTokens 0 T = (T, false) ->
  let r1 := replaceAlt kesTokens 0 (M ++ d :: T) in
  let r2 := replaceAlt usdTokens 0 (fst r1) in
  exists R, In R (lits [""; "ILLING"; "ILLINGS"])
            /\ fst r2 = R ++ d :: T
            /\ snd r2 = (eqs M "USD" || eqs M "$").
Proof.
  intros HM Hd K U.
  cbn in HM.
  destruct HM as [<- | [<- | [<- | [<- | [<- | [<- | [<- | [<- | [<- | []]]]]]]]]];
    digit_split d Hd; cbn [app lit list_ascii_of_string];
    repeat (first [replace_step | rewrite K | rewrite U]; cbn [fst snd]).
  all: first [ exists (lit ""); split; [in_literal | split; reflexivity]
             | exists (lit "ILLING"); split; [in_literal | split; reflexivity]
             | exists (lit "ILLINGS"); split; [in_literal | split; reflexivity] ].
Qed.

Lemma numchar_kept (c : ascii) :
  isNumChar c = true ->
  upperChar c = c /\ negb (Ascii.eqb c "," || isSpace c) = true
  /\ isSpace c = false /\ Ascii.eqb "M" c = false /\ Ascii.eqb "K" c = false.
Proof.
  intros H. apply numchar_cases in H. cbn in H.
  repeat (destruct H as [<- | H]; [repeat split; reflexivity |]).
  contradiction.
Qed.

Lemma strip_numchars (N : str) :
  forallb isNumChar N = true -> stripSeparators (toUpperCase N) = N.
Proof.
  induction N as [|c N IH]; [reflexivity |]. cbn [forallb].
  intros H. apply andb_prop in H. destruct H as [Hc HN].
  destruct (numchar_kept c Hc) as (U & S & _).
  cbn [toUpperCase map stripSeparators filter]. rewrite U, S.
  f_equal. apply IH, HN.
Qed.

Lemma numchars_no_space (N : str) :
  forallb isNumChar N = true -> forallb (fun c => negb (isSpace c)) N = true.
Proof.
  intros H. apply forallb_forall. intros c Hc.
  rewrite forallb_forall in H.
  destruct (numchar_kept c (H c Hc)) as (_ & _ & -> & _). reflexivity.
Qed.

Lemma numchars_no_suffix (N : str) :
  forallb isNumChar N = true ->
  existsb (Ascii.eqb "M") N = false /\ existsb (Ascii.eqb "K") N = false.
Proof.
  induction N as [|c N IH]; [split; reflexivity |]. cbn [forallb existsb].
  intros H. apply andb_prop in H. destruct H as [Hc HN].
  destruct (numchar_kept c Hc) as (_ & _ & _ & -> & ->).
  exact (IH HN).
Qed.

Lemma takeWhile_numchars (N X : str) :
  forallb isNumChar N = true -> In X priceSuffixes ->
  takeWhile isNumChar (N ++ X) = N.
Proof.
  intros HN HX. induction N as [|c N IH].
  - cbn in HX. destruct HX as [<- | [<- | [<- | []]]]; reflexivity.
  - cbn [forallb] in HN. apply andb_prop in HN. destruct HN as [Hc HN].
    cbn [app takeWhile]. rewrite Hc, (IH HN). reflexivity.
Qed.

Lemma fraction_numchars (D frac : str) :
  forallb isDigit D = true -> forallb isDigit frac = true ->
  forallb isNumChar (D ++ fractionText frac) = true.
Proof.
  intros HD HF.
  assert (G : forall s, forallb isDigit s = true ->
                        forallb isNumChar s = true).
  { intros s H. apply forallb_forall. intros c Hc.
    rewrite forallb_forall in H. apply digit_isNumChar, H, Hc. }
  rewrite forallb_app, (G D HD). unfold fractionText.
  destruct frac as [|f F]; [reflexivity |]. cbn [isEmpty].
  change (forallb isNumChar ("."%char :: f :: F))
    with (isNumChar "." && forallb isNumChar (f :: F)).
  rewrite (G _ HF). reflexivity.
Qed.

(** The cleaned text and the detected currency of a price text. *)
Lemma cleanPrice_shape (marker ws : str) (groups : list str)
    (frac suffix : str) :
  In (toUpperCase marker) priceMarkers ->
  forallb isSpace ws = true ->
  groups <> [] -> forallb digitGroup groups = true ->
  forallb isDigit frac = true ->
  In (toUpperCase suffix) priceSuffixes ->
  exists R d D,
    In R (lits [""; "ILLING"; "ILLINGS"])
    /\ List.concat groups = d :: D
    /\ isDigit d = true /\ forallb isDigit D = true
    /\ cleanPrice (trim (priceText marker ws groups frac suffix))
       = (R ++ d :: (D ++ fractionText frac) ++ toUpperCase suffix,
          markerCurrency marker).
Proof.
  intros HM Hws Hne Hg HF HX.
  destruct (groups_nonempty groups Hne Hg) as (d & D & E).
  pose proof (groups_digits groups Hg) as HD. rewrite E in HD.
  cbn [forallb] in HD. apply andb_prop in HD. destruct HD as [Hd HD].
  pose proof (fraction_numchars D frac HD HF) as HN.
  destruct (replace_numchars _ _ HN HX) as [K U].
  destruct (markers_removed _ _ d HM Hd K U) as (R & HR & E1 & E2).
  exists R, d, D. repeat (split; [assumption |]).
  unfold cleanPrice, priceText.
  rewrite strip_trim, !strip_app, (strip_spaces ws Hws), (strip_groups groups Hg), E.
  rewrite (strip_numchars (fractionText frac))
    by (apply (fraction_numchars [] frac eq_refl HF)).
  rewrite (marker_stripped _ HM), (suffix_stripped _ HX). cbn [app].
  rewrite (app_assoc D (fractionText frac)).
  rewrite E1, E2. unfold markerCurrency. f_equal.
  apply trim_id.
  rewrite forallb_app. cbn [forallb]. rewrite forallb_app.
  rewrite (numchars_no_space _ HN), (digit_not_space d Hd).
  cbn in HR, HX.
  destruct HR as [<- | [<- | [<- | []]]];
    destruct HX as [<- | [<- | [<- | []]]]; reflexivity.
Qed.

(** The amount of a price text normalised to its own currency. *)
Lemma amount_scaled (marker ws : str) (groups : list str)
    (frac suffix : str) :
  In (toUpperCase marker) priceMarkers ->
  forallb isSpace ws = true ->
  groups <> [] -> forallb digitGroup groups = true ->
  forallb isDigit frac = true ->
  In (toUpperCase suffix) priceSuffixes ->
  normalizePrice (VStr (priceText marker ws groups frac suffix))
                 (markerCurrency marker)
  = {| amount := Some (scaleBy suffix (double (decimalValue groups frac)));
       currency := markerCurrency marker;
       original := Some (trim (priceText marker ws groups frac suffix)) |}.
Proof.
  intros HM Hws Hne Hg HF HX.
  destruct (cleanPrice_shape marker ws groups frac suffix HM Hws Hne Hg HF HX)
    as (R & d & D & HR & E & Hd & HD & C).
  assert (Htext : truthy (VStr (priceText marker ws groups frac suffix)) = true).
  { destruct (priceText marker ws groups frac suffix) eqn:T; [| reflexivity].
    exfalso. cbn in C. injection C as C _. destruct R; discriminate. }
  unfold normalizePrice. rewrite Htext. cbn [negb ToString].
  rewrite C, eqs_refl. cbn [negb]. f_equal.
  pose proof (fraction_numchars D frac HD HF) as HN.
  unfold scaledAmount.
  rewrite matchNumber_skip
    by (cbn in HR; destruct HR as [<- | [<- | [<- | []]]]; reflexivity).
  cbn [matchNumber]. rewrite (digit_isNumChar d Hd).
  change (d :: (D ++ fractionText frac) ++ toUpperCase suffix)
    with ((d :: D ++ fractionText frac) ++ toUpperCase suffix).
  rewrite (takeWhile_numchars (d :: D ++ fractionText frac))
    by (cbn [forallb]; rewrite ?(digit_isNumChar d Hd), ?HN; auto).
  rewrite (parseFloat_decimal d D frac Hd HD HF).
  unfold decimalValue. rewrite E.
  destruct (numchars_no_suffix _ HN) as [NM NK].
  cbn [lit list_ascii_of_string]. rewrite !includes_char, !existsb_app.
  cbn [existsb]. rewrite (digit_not_M d Hd), (digit_not_K d Hd), NM, NK.
  change (d :: D ++ frac) with ((d :: D) ++ frac).
  generalize (double (digitsValue ((d :: D) ++ frac) # pow10 (List.length frac))).
  intros a. unfold scaleBy.
  cbn in HR, HX.
  destruct HR as [<- | [<- | [<- | []]]];
    destruct HX as [<- | [<- | [<- | []]]]; reflexivity.
Qed.

Lemma suffixFactor_cases (suffix : str) :
  In (toUpperCase suffix) priceSuffixes ->
  forall a : number,
    scaleBy suffix a
    = (if (suffixFactor suffix =? 1)%Z then a
       else times a (Fin (inject_Z (suffixFactor suffix)))).
Proof.
  intros HX a. unfold scaleBy, suffixFactor. cbn in HX.
  destruct HX as [<- | [<- | [<- | []]]]; reflexivity.
Qed.

(** Without a fraction and within the safe integers the amount is exact. *)
Lemma scaled_whole (suffix : str) (n : Z) :
  In (toUpperCase suffix) priceSuffixes ->
  (0 <= n)%Z -> safeInteger (n * suffixFactor suffix) ->
  scaleBy suffix (double (inject_Z n))
  = Fin (inject_Z (n * suffixFactor suffix)).
Proof.
  intros HX Hn Hs. rewrite (suffixFactor_cases suffix HX).
  unfold safeInteger in Hs.
  assert (F : (1 <= suffixFactor suffix)%Z).
  { unfold suffixFactor. cbn in HX.
    destruct HX as [<- | [<- | [<- | []]]]; cbn; lia. }
  assert (B : (Z.abs n < 2 ^ 53)%Z).
  { change (2 ^ 53)%Z with 9007199254740992%Z. nia. }
  rewrite (double_whole n B).
  destruct (suffixFactor suffix =? 1)%Z eqn:E.
  - apply Z.eqb_eq in E. rewrite E, Z.mul_1_r. reflexivity.
  - apply times_whole. change (2 ^ 53)%Z with 9007199254740992%Z. lia.
Qed.

(** C2, amended. A price text made of an optional currency marker (in any
    letter case), optional white space, digit groups separated by commas,
    an optional decimal fraction and an optional K or M suffix, normalised
    to the currency its marker stands for: the number is read as the
    double nearest to the decimal value and multiplied, as doubles are, by
    1000000 for M and by 1000 for K; the original is the trimmed text.
    Without a fraction, and when the integer the digits denote times the
    factor is a safe integer, the amount is exactly that product.  The
    worked examples: KES 5,000,000 gives 5000000, 500K gives 500000, 2.5M
    gives 2500000, and a text with both letters is scaled by M. *)
Theorem normalizePrice_exact :
  forall (marker ws : str) (groups : list str) (frac suffix : str),
    In (toUpperCase marker) priceMarkers ->
    forallb isSpace ws = true ->
    groups <> [] -> forallb digitGroup groups = true ->
    forallb isDigit frac = true ->
    In (toUpperCase suffix) priceSuffixes ->
    let text := priceText marker ws groups frac suffix in
    normalizePrice (VStr text) (markerCurrency marker)
    = {| amount := Some (scaleBy suffix (double (decimalValue groups frac)));
         currency := markerCurrency marker;
         original := Some (trim text) |}
    /\ (frac = [] ->
        safeInteger (digitsValue (List.concat groups) * suffixFactor suffix) ->
        amount (normalizePrice (VStr text) (markerCurrency marker))
        = Some (Fin (inject_Z (digitsValue (List.concat groups)
                               * suffixFactor suffix))))
    /\ amount (normalizePrice (VStr "KES 5,000,000") "KES")
       = Some (Fin (inject_Z 5000000))
    /\ amount (normalizePrice (VStr "500K") "KES")
       = Some (Fin (inject_Z 500000))
    /\ amount (normalizePrice (VStr "2.5M") "KES")
       = Some (Fin (inject_Z 2500000))
    /\ amount (normalizePrice (VStr "3KM") "KES")
       = Some (Fin (inject_Z 3000000)).
Proof.
  intros marker ws groups frac suffix HM Hws Hne Hg HF HX text.
  pose proof (amount_scaled marker ws groups frac suffix HM Hws Hne Hg HF HX)
    as A.
  split; [exact A |].
  split; [| repeat split; vm_compute; reflexivity].
  intros -> Hs. subst text. rewrite A. cbn [amount]. f_equal.
  unfold decimalValue. rewrite app_nil_r.
  apply (scaled_whole suffix _ HX); [apply digitsValue_nonneg | exact Hs].
Qed.

Lemma normalizePrice_exact_witness :
  In (toUpperCase (lit "Ksh")) priceMarkers
  /\ amount (normalizePrice (VStr "Ksh 15,000,000") "KES")
     = Some (Fin (inject_Z 15000000))
  /\ normalizePrice (VStr "$1,250.75k") "USD"
     = {| amount := Some (Fin (inject_Z 1250750));
          currency := "USD";
          original := Some (lit "$1,250.75k") |}.
Proof.
  split; [vm_compute; tauto |].
  split.
  - refine (proj1 (proj2 (normalizePrice_exact "Ksh" " "
                            (lits ["15"; "000"; "000"]) "" ""
                            _ _ _ _ _ _)) _ _).
    + vm_compute; tauto.
    + reflexivity.
    + discriminate.
    + reflexivity.
    + reflexivity.
    + vm_compute; tauto.
    + reflexivity.
    + vm_compute. discriminate.
  - refine (eq_trans
              (proj1 (normalizePrice_exact "$" "" (lits ["1"; "250"]) "75" "k"
                        _ _ _ _ _ _)) _).
    + vm_compute; tauto.
    + reflexivity.
    + discriminate.
    + reflexivity.
    + reflexivity.
    + vm_compute; tauto.
    + vm_compute. reflexivity.
Defined.

(** The amount need not be the denoted number: 16.1 is no double, and the
    product of its double with 1000 is 16100.000000000002; and
    9007199254740993 is no double either, the nearest one being
    9007199254740992.  So the exact value is not recovered for every
    price text of the shape. *)
Lemma price_rounded_to_double :
  amount (normalizePrice (VStr "16.1K") "KES")
  = Some (Fin (8851068603596801 # 549755813888))
  /\ (16100 < 8851068603596801 # 549755813888)%Q
  /\ amount (normalizePrice (VStr "9,007,199,254,740,993") "KES")
     = Some (Fin (inject_Z 9007199254740992))
  /\ ~ (forall (marker ws : str) (groups : list str) (suffix : str),
          In (toUpperCase marker) priceMarkers ->
          forallb isSpace ws = true ->
          groups <> [] -> forallb digitGroup groups = true ->
          In (toUpperCase suffix) priceSuffixes ->
          amount (normalizePrice (VStr (priceText marker ws groups [] suffix))
                                 (markerCurrency marker))
          = Some (Fin (inject_Z (digitsValue (List.concat groups)
                                 * suffixFactor suffix)))).
Proof.
  split; [vm_compute; reflexivity |].
  split; [reflexivity |].
  split; [vm_compute; reflexivity |].
  intros H.
  specialize (H (lit "") (lit "")
                (lits ["9"; "007"; "199"; "254"; "740"; "993"]) (lit "")
                ltac:(vm_compute; tauto) eq_refl ltac:(discriminate) eq_refl
                ltac:(vm_compute; tauto)).
  vm_compute in H. discriminate H.
Qed.

Lemma round_nearest (p : Q) :
  (inject_Z (Qfloor (p + (1 # 2))) <= p + (1 # 2)
   < inject_Z (Qfloor (p + (1 # 2)) + 1))%Q.
Proof. split; [apply Qfloor_le | apply Qlt_floor]. Qed.

(** The two rates as doubles: 156.25 is one; 0.0064 is not, and its
    double is a little above it. *)
Lemma rates_as_doubles :
  USD_TO_KES_RATE = Fin (625 # 4)
  /\ KES_TO_USD_RATE = Fin (7378697629483821 # 1152921504606846976).
Proof. split; vm_compute; reflexivity. Qed.

Lemma convert_usd_kes (a : number) :
  convertCurrency "USD" "KES" a = Math_round (times a USD_TO_KES_RATE).
Proof. reflexivity. Qed.

Lemma convert_kes_usd (a : number) :
  convertCurrency "KES" "USD" a
  = over (Math_round (times (times a KES_TO_USD_RATE) (Fin (100 # 1))))
         (Fin (100 # 1)).
Proof. reflexivity. Qed.

(** A whole number of dollars, up to [2^53 / 625], converts to the integer
    nearest to its exact product with 156.25: the product is a double. *)
Lemma convert_whole_dollars (z : Z) :
  (0 <= z)%Z -> (z * 625 < 2 ^ 53)%Z ->
  convertCurrency "USD" "KES" (Fin (inject_Z z))
  = Fin (inject_Z (Qfloor (inject_Z z * (15625 # 100) + (1 # 2)))).
Proof.
  intros H0 Hb. rewrite convert_usd_kes.
  destruct rates_as_doubles as [RU _]. rewrite RU.
  assert (E : (inject_Z z * (15625 # 100) == (z * 625 # 4))%Q).
  { unfold Qeq, inject_Z. cbn [Qnum Qden Qmult]. lia. }
  destruct z as [| p | p]; [reflexivity | | lia].
  change (times (Fin (inject_Z (Z.pos p))) (Fin (625 # 4)))
    with (double (Z.pos (p * 625) # 4)).
  unfold double. cbn [Qnum Qden].
  assert (N : nearest64 (Z.pos p * 625) (2 ^ 2)
              = Some (Qred (Z.pos p * 625 # Z.to_pos (2 ^ 2))))
    by (apply nearest64_dyadic; lia).
  change (2 ^ 2)%Z with (Z.pos 4) in N. change (Z.to_pos (Z.pos 4)) with 4%positive in N.
  change (Z.pos p * 625)%Z with (Z.pos (p * 625)) in N |- *.
  rewrite N. cbn [Math_round]. do 2 f_equal. apply Qfloor_comp.
  rewrite Qred_correct, E. reflexivity.
Qed.

(** C3. The amount [normalizePrice] returns is the scaled amount passed
    through a conversion that depends on the detected currency, the target
    currency and the amount only; between equal currencies it changes
    nothing.  The rates are the doubles of 156.25 and of 0.0064.  From USD
    to KES the amount is multiplied by the rate, as doubles are, and the
    product is rounded to the nearest integer, a tie going up.  From KES
    to USD the amount is multiplied by the rate and by 100, the product is
    rounded to the nearest integer [n], and the result is the double of
    [n / 100].  A whole number of dollars up to [2^53 / 625] becomes the
    integer nearest to its exact product with 156.25.  So $1000 in KES is
    156250, KES 156250 in USD is 1000, and $4.56 in KES is 712: the double
    of 4.56 times 156.25 lies below 712.5. *)
Theorem conversion_fixed_rates :
  forall (v : value) (targetCurrency : str),
    let cleaned := cleanPrice (trim (ToString v)) in
    amount (normalizePrice v targetCurrency)
    = (if truthy v
       then option_map (convertCurrency (snd cleaned) targetCurrency)
                       (scaledAmount (fst cleaned))
       else None)
    /\ (forall c a, convertCurrency c c a = a)
    /\ USD_TO_KES_RATE = double (15625 # 100)
    /\ USD_TO_KES_RATE = Fin (625 # 4)
    /\ KES_TO_USD_RATE = double (64 # 10000)
    /\ (forall q p : Q,
          times (Fin q) USD_TO_KES_RATE = Fin p ->
          exists n : Z,
            convertCurrency "USD" "KES" (Fin q) = Fin (inject_Z n)
            /\ (inject_Z n <= p + (1 # 2) < inject_Z (n + 1))%Q)
    /\ (forall q p : Q,
          times (times (Fin q) KES_TO_USD_RATE) (Fin (100 # 1)) = Fin p ->
          exists n : Z,
            convertCurrency "KES" "USD" (Fin q)
            = double (inject_Z n / (100 # 1))
            /\ (inject_Z n <= p + (1 # 2) < inject_Z (n + 1))%Q)
    /\ (forall q : Q,
          times (Fin q) USD_TO_KES_RATE = double (q * (625 # 4))
          /\ times (Fin q) KES_TO_USD_RATE
             = double (q * (7378697629483821 # 1152921504606846976)))
    /\ (forall z : Z,
          (0 <= z)%Z -> (z * 625 < 2 ^ 53)%Z ->
          convertCurrency "USD" "KES" (Fin (inject_Z z))
          = Fin (inject_Z (Qfloor (inject_Z z * (15625 # 100) + (1 # 2)))))
    /\ amount (normalizePrice (VStr "$1000") "KES")
       = Some (Fin (inject_Z 156250))
    /\ amount (normalizePrice (VStr "KES 156250") "USD")
       = Some (Fin (inject_Z 1000))
    /\ amount (normalizePrice (VStr "$4.56") "KES")
       = Some (Fin (inject_Z 712)).
Proof.
  intros v t cleaned. destruct rates_as_doubles as [RU RK].
  split; [| split; [| split; [| split; [| split; [| split; [| split;
    [| split; [| split]]]]]]]].
  - unfold normalizePrice. destruct (truthy v); cbn [negb]; [| reflexivity].
    subst cleaned. destruct (cleanPrice (trim (ToString v))) as [c src].
    cbn [fst snd amount]. destruct (scaledAmount c) as [a |]; [| reflexivity].
    cbn [option_map]. unfold convertCurrency.
    destruct (eqs src t) eqn:E; cbn [negb]; [reflexivity |].
    destruct (eqs src "KES" && eqs t "USD") eqn:E1.
    + apply andb_prop in E1. destruct E1 as [E1 E2].
      apply eqs_true in E1, E2. subst src t. reflexivity.
    + destruct (eqs src "USD" && eqs t "KES"); reflexivity.
  - intros c a. unfold convertCurrency. rewrite eqs_refl. reflexivity.
  - reflexivity.
  - exact RU.
  - reflexivity.
  - intros q p H. rewrite convert_usd_kes, H.
    exists (Qfloor (p + (1 # 2))). split; [reflexivity | apply round_nearest].
  - intros q p H. rewrite convert_kes_usd, H.
    exists (Qfloor (p + (1 # 2))). split; [reflexivity | apply round_nearest].
  - intros q. rewrite RU, RK. split; reflexivity.
  - exact convert_whole_dollars.
  - repeat split; vm_compute; reflexivity.
Qed.

(* ================================================================== *)
(** ** Locations *)
(* ================================================================== *)

Lemma delimiter_not_space (c : ascii) : isDelimiter c = true -> isSpace c = false.
Proof. by_char c. Qed.

Lemma trimStart_app (a c : str) (x : ascii) :
  isSpace x = false -> trimStart (a ++ x :: c) = trimStart a ++ x :: c.
Proof.
  intros Hx. induction a as [|y a IH]; cbn [app trimStart].
  - rewrite Hx. reflexivity.
  - destruct (isSpace y); [apply IH | reflexivity].
Qed.

Lemma trimEnd_app (a c : str) (x : ascii) :
  isSpace x = false -> trimEnd (a ++ x :: c) = a ++ x :: trimEnd c.
Proof.
  intros Hx. induction a as [|y a IH]; cbn [app trimEnd].
  - rewrite Hx. destruct (trimEnd c); reflexivity.
  - rewrite IH. destruct a; reflexivity.
Qed.

Lemma trimStart_idem (s : str) : trimStart (trimStart s) = trimStart s.
Proof.
  induction s as [|c s IH]; [reflexivity |]. cbn [trimStart].
  destruct (isSpace c) eqn:E; [apply IH |]. cbn [trimStart]. rewrite E.
  reflexivity.
Qed.

Lemma trimEnd_cons (c : ascii) (s : str) :
  trimEnd (c :: s)
  = match trimEnd s with
    | [] => if isSpace c then [] else [c]
    | r => c :: r
    end.
Proof. reflexivity. Qed.

Lemma trimEnd_idem (s : str) : trimEnd (trimEnd s) = trimEnd s.
Proof.
  induction s as [|c s IH]; [reflexivity |]. rewrite trimEnd_cons.
  destruct (trimEnd s) as [|x r] eqn:T.
  - destruct (isSpace c) eqn:E; [reflexivity |].
    cbn [trimEnd]. rewrite E. reflexivity.
  - rewrite trimEnd_cons, IH. reflexivity.
Qed.

Lemma trim_swap (s : str) : trimStart (trimEnd s) = trimEnd (trimStart s).
Proof.
  induction s as [|c s IH]; [reflexivity |].
  cbn [trimStart]. destruct (isSpace c) eqn:E.
  - rewrite <- IH, trimEnd_cons.
    destruct (trimEnd s) as [|x r]; [rewrite E; reflexivity |].
    cbn [trimStart]. rewrite E. reflexivity.
  - rewrite trimEnd_cons.
    destruct (trimEnd s) as [|x r]; [rewrite E |]; cbn [trimStart];
      rewrite E; reflexivity.
Qed.

Lemma trim_trimStart (s : str) : trim (trimStart s) = trim s.
Proof. unfold trim. rewrite trimStart_idem. reflexivity. Qed.

Lemma trim_trimEnd (s : str) : trim (trimEnd s) = trim s.
Proof. unfold trim. rewrite trim_swap, trimEnd_idem. reflexivity. Qed.

Lemma noDelimiter_trimStart (s : str) :
  noDelimiter s = true -> noDelimiter (trimStart s) = true.
Proof.
  unfold noDelimiter. induction s as [|c s IH]; [reflexivity |].
  cbn [forallb trimStart]. intros H.
  destruct (isSpace c); [| exact H].
  apply andb_prop in H. apply IH, H.
Qed.

Lemma noDelimiter_trimEnd (s : str) :
  noDelimiter s = true -> noDelimiter (trimEnd s) = true.
Proof.
  unfold noDelimiter. induction s as [|c s IH]; [reflexivity |].
  cbn [forallb]. intros H. apply andb_prop in H. destruct H as [Hc Hs].
  rewrite trimEnd_cons. specialize (IH Hs).
  destruct (trimEnd s) as [|x r].
  - destruct (isSpace c); [reflexivity |]. cbn [forallb]. rewrite Hc. reflexivity.
  - cbn [forallb] in IH |- *. rewrite Hc. exact IH.
Qed.

Lemma unify_noDelimiter (s : str) :
  noDelimiter s = true -> unifyDelimiters s = s.
Proof.
  unfold noDelimiter, unifyDelimiters. induction s as [|c s IH]; [reflexivity |].
  cbn [forallb map]. intros H. apply andb_prop in H. destruct H as [Hc Hs].
  apply negb_true_iff in Hc. unfold isDelimiter in Hc. rewrite Hc, (IH Hs).
  reflexivity.
Qed.

Lemma unify_app (a c : str) (x : ascii) :
  noDelimiter a = true -> noDelimiter c = true -> isDelimiter x = true ->
  unifyDelimiters (a ++ x :: c) = a ++ ","%char :: c.
Proof.
  intros Ha Hc Hx. unfold unifyDelimiters. rewrite map_app. cbn [map].
  fold (unifyDelimiters a). fold (unifyDelimiters c).
  rewrite (unify_noDelimiter a Ha), (unify_noDelimiter c Hc).
  unfold isDelimiter in Hx. rewrite Hx. reflexivity.
Qed.

Lemma split_whole (s : str) :
  noDelimiter s = true -> split "," s = [s].
Proof.
  unfold noDelimiter. induction s as [|c s IH]; [reflexivity |].
  cbn [forallb split]. intros H. apply andb_prop in H. destruct H as [Hc Hs].
  apply negb_true_iff in Hc. unfold isDelimiter in Hc.
  apply orb_false_elim in Hc. destruct Hc as [Hc _].
  apply orb_false_elim in Hc. destruct Hc as [Hc _].
  rewrite Hc, (IH Hs). reflexivity.
Qed.

Lemma split_two (a c : str) :
  noDelimiter a = true -> noDelimiter c = true ->
  split "," (a ++ ","%char :: c) = [a; c].
Proof.
  intros Ha Hc. induction a as [|y a IH]; cbn [app split].
  - rewrite (split_whole c Hc). reflexivity.
  - unfold noDelimiter in Ha. cbn [forallb] in Ha.
    apply andb_prop in Ha. destruct Ha as [Hy Ha].
    apply negb_true_iff in Hy. unfold isDelimiter in Hy.
    apply orb_false_elim in Hy. destruct Hy as [Hy _].
    apply orb_false_elim in Hy. destruct Hy as [Hy _].
    rewrite Hy, (IH Ha). reflexivity.
Qed.

(** The segments of [<area><delimiter><City>]. *)
Lemma locationParts_two (a c : str) (x : ascii) :
  noDelimiter a = true -> noDelimiter c = true -> isDelimiter x = true ->
  trim a <> [] -> trim c <> [] ->
  locationParts (trim (a ++ x :: c)) = [trim a; trim c].
Proof.
  intros Ha Hc Hx Na Nc. unfold locationParts.
  pose proof (delimiter_not_space x Hx) as Sx.
  assert (E : trim (a ++ x :: c) = trimStart a ++ x :: trimEnd c).
  { unfold trim. rewrite (trimStart_app a c x Sx). apply trimEnd_app, Sx. }
  rewrite E, (unify_app _ _ x (noDelimiter_trimStart a Ha)
                        (noDelimiter_trimEnd c Hc) Hx).
  assert (E' : trim (trimStart a ++ ","%char :: trimEnd c)
               = trimStart a ++ ","%char :: trimEnd c).
  { unfold trim. rewrite trimStart_app by reflexivity.
    rewrite trimEnd_app by reflexivity.
    rewrite trimStart_idem, trimEnd_idem. reflexivity. }
  rewrite E', (split_two _ _ (noDelimiter_trimStart a Ha)
                         (noDelimiter_trimEnd c Hc)).
  cbn [map]. rewrite trim_trimStart, trim_trimEnd. cbn [filter].
  destruct (trim a); [congruence |]. destruct (trim c); [congruence |].
  reflexivity.
Qed.

Lemma matchCity_find (lowerPart : str) (cities : list str) :
  matchCity lowerPart cities
  = option_map (fun k => (capitalize k, regionOf k))
               (find (fun k => includes lowerPart k) cities).
Proof.
  induction cities as [|k cities IH]; [reflexivity |].
  cbn [matchCity find]. destruct (includes lowerPart k); [reflexivity | apply IH].
Qed.

Lemma known_city_facts (k : str) :
  In k kenyaCities ->
  isEmpty (capitalize k) = false /\ regionOf k <> None.
Proof.
  cbn. intros H.
  repeat (destruct H as [<- | H]; [split; [reflexivity | discriminate] |]).
  contradiction.
Qed.

Lemma knownCityIn_known (segment k : str) :
  knownCityIn segment = Some k -> In k kenyaCities.
Proof. intros H. apply find_some in H. apply H. Qed.

Lemma scanParts_none (parts : list str) :
  Forall (fun p => knownCityIn p = None) parts ->
  scanParts parts None None = (None, None).
Proof.
  induction 1 as [|p parts Hp _ IH]; [reflexivity |].
  cbn [scanParts]. rewrite matchCity_find. unfold knownCityIn in Hp.
  rewrite Hp. exact IH.
Qed.

Lemma region_needs_city (parts : list str) :
  snd (scanParts parts None None) <> None ->
  fst (scanParts parts None None) <> None.
Proof.
  induction parts as [|p parts IH]; cbn [scanParts]; [cbn; congruence |].
  rewrite matchCity_find.
  destruct (find _ kenyaCities) as [k |] eqn:F; cbn [option_map fst snd isSet].
  - apply find_some in F. destruct F as [F _].
    destruct (known_city_facts k F) as [-> _]. cbn. congruence.
  - exact IH.
Qed.

Lemma trim_idem (s : str) : trim (trim s) = trim s.
Proof.
  unfold trim at 2. rewrite trim_trimEnd, trim_trimStart. reflexivity.
Qed.

(** *** Segments *)

Lemma unify_keeps_space (c : ascii) :
  isSpace (if Ascii.eqb c "," || Ascii.eqb c "-" || Ascii.eqb c "/"
           then ","%char else c) = isSpace c.
Proof. by_char c. Qed.

Lemma unify_trimStart (s : str) :
  trimStart (unifyDelimiters s) = unifyDelimiters (trimStart s).
Proof.
  unfold unifyDelimiters. induction s as [|c s IH]; [reflexivity |].
  cbn [map trimStart]. rewrite unify_keeps_space.
  destruct (isSpace c); [exact IH | reflexivity].
Qed.

Lemma unify_trimEnd (s : str) :
  trimEnd (unifyDelimiters s) = unifyDelimiters (trimEnd s).
Proof.
  unfold unifyDelimiters. induction s as [|c s IH]; [reflexivity |].
  cbn [map]. rewrite !trimEnd_cons, IH, unify_keeps_space.
  destruct (trimEnd s); [destruct (isSpace c) |]; reflexivity.
Qed.

Lemma unify_trim (s : str) :
  trim (unifyDelimiters s) = unifyDelimiters (trim s).
Proof. unfold trim. rewrite unify_trimStart, unify_trimEnd. reflexivity. Qed.

(** Cutting at the commas after the delimiters are turned into commas is
    cutting at the delimiters. *)
Lemma split_unified (s : str) :
  split "," (unifyDelimiters s) = splitOn isDelimiter s.
Proof.
  unfold unifyDelimiters. induction s as [|c s IH]; [reflexivity |].
  cbn [map split splitOn]. rewrite IH.
  assert (D : isDelimiter c
              = (Ascii.eqb c "," || Ascii.eqb c "-" || Ascii.eqb c "/"))
    by reflexivity.
  rewrite D.
  destruct (Ascii.eqb c "," || Ascii.eqb c "-" || Ascii.eqb c "/") eqn:E.
  - reflexivity.
  - apply orb_false_elim in E. destruct E as [E _].
    apply orb_false_elim in E. destruct E as [E _]. rewrite E. reflexivity.
Qed.

Lemma splitOn_nonempty (p : ascii -> bool) (s : str) : splitOn p s <> [].
Proof.
  destruct s as [|c s]; cbn [splitOn]; [discriminate |].
  destruct (p c); [discriminate |]. destruct (splitOn p s); discriminate.
Qed.

Lemma splitOn_app (p : ascii -> bool) (a c : str) (x : ascii) :
  forallb (fun y => negb (p y)) a = true -> p x = true ->
  splitOn p (a ++ x :: c) = a :: splitOn p c.
Proof.
  intros Ha Hx. induction a as [|y a IH]; cbn [app splitOn].
  - rewrite Hx. reflexivity.
  - cbn [forallb] in Ha. apply andb_prop in Ha. destruct Ha as [Hy Ha].
    apply negb_true_iff in Hy. rewrite Hy, (IH Ha). reflexivity.
Qed.

(** White space in front of the text is white space in front of its first
    segment. *)
Lemma segments_trimStart (s : str) :
  map trim (splitOn isDelimiter (trimStart s)) = segments s.
Proof.
  unfold segments. induction s as [|c s IH]; [reflexivity |].
  cbn [trimStart]. destruct (isSpace c) eqn:E; [| reflexivity].
  rewrite IH. cbn [splitOn].
  replace (isDelimiter c) with false
    by (destruct (isDelimiter c) eqn:D; [| reflexivity];
        rewrite (delimiter_not_space c D) in E; discriminate E).
  pose proof (splitOn_nonempty isDelimiter s) as N.
  destruct (splitOn isDelimiter s) as [|seg segs]; [congruence |].
  cbn [map]. f_equal. unfold trim. cbn [trimStart]. rewrite E. reflexivity.
Qed.

Lemma trimEnd_spaces (x ws : str) :
  forallb isSpace ws = true -> trimEnd (x ++ ws) = trimEnd x.
Proof.
  intros H. induction x as [|c x IH]; cbn [app].
  - induction ws as [|w ws IHw]; [reflexivity |].
    cbn [forallb] in H. apply andb_prop in H. destruct H as [Hw Hws].
    rewrite trimEnd_cons, (IHw Hws). cbn [trimEnd]. rewrite Hw. reflexivity.
  - rewrite !trimEnd_cons, IH. reflexivity.
Qed.

Lemma trim_spaces_after (x ws : str) :
  forallb isSpace ws = true -> trim (x ++ ws) = trim x.
Proof.
  intros H. unfold trim. rewrite <- !trim_swap, (trimEnd_spaces x ws H).
  reflexivity.
Qed.

(** What [trimEnd] removes is white space at the end. *)
Lemma trimEnd_removed (s : str) :
  exists ws, s = trimEnd s ++ ws /\ forallb isSpace ws = true.
Proof.
  induction s as [|c s (ws & E & H)]; [exists []; split; reflexivity |].
  rewrite trimEnd_cons. destruct (trimEnd s) as [|x r] eqn:T.
  - cbn [app] in E. subst ws. destruct (isSpace c) eqn:Ec.
    + exists (c :: s). split; [reflexivity |]. cbn [forallb].
      rewrite Ec. exact H.
    + exists s. split; [reflexivity | exact H].
  - exists ws. split; [| exact H]. cbn [app]. f_equal. exact E.
Qed.

(** White space after the text is white space after its last segment. *)
Lemma splitOn_spaces_after (b ws : str) :
  forallb isSpace ws = true ->
  splitOn isDelimiter (b ++ ws)
  = removelast (splitOn isDelimiter b)
    ++ [last (splitOn isDelimiter b) [] ++ ws].
Proof.
  intros H. induction b as [|c b IH]; cbn [app].
  - cbn [splitOn removelast last app].
    induction ws as [|w ws IHw]; [reflexivity |].
    cbn [forallb] in H. apply andb_prop in H. destruct H as [Hw Hws].
    cbn [splitOn]. rewrite (IHw Hws).
    replace (isDelimiter w) with false; [reflexivity |].
    destruct (isDelimiter w) eqn:D; [| reflexivity].
    rewrite (delimiter_not_space w D) in Hw. discriminate Hw.
  - cbn [splitOn]. rewrite IH.
    pose proof (splitOn_nonempty isDelimiter b) as N.
    destruct (splitOn isDelimiter b) as [|g gs]; [congruence |].
    destruct (isDelimiter c); destruct gs; reflexivity.
Qed.

Lemma segments_trimEnd (s : str) :
  map trim (splitOn isDelimiter (trimEnd s)) = segments s.
Proof.
  unfold segments. destruct (trimEnd_removed s) as (ws & E & H).
  rewrite E at 2. rewrite (splitOn_spaces_after _ ws H).
  pose proof (splitOn_nonempty isDelimiter (trimEnd s)) as N.
  rewrite (app_removelast_last [] N) at 1.
  rewrite !map_app. cbn [map]. rewrite (trim_spaces_after _ ws H).
  reflexivity.
Qed.

Lemma segments_trim (s : str) :
  map trim (splitOn isDelimiter (trim s)) = segments s.
Proof.
  unfold trim. rewrite segments_trimEnd. apply segments_trimStart.
Qed.

(** The parts [normalizeLocation] works on are the segments that are not
    blank. *)
Lemma locationParts_segments (s : str) :
  locationParts (trim s)
  = filter (fun seg => negb (isEmpty seg)) (segments s).
Proof.
  unfold locationParts.
  rewrite unify_trim, trim_idem, <- unify_trim, <- (segments_trim s).
  rewrite <- split_unified, unify_trim. reflexivity.
Qed.

Lemma hd_filter (A : Type) (p : A -> bool) (l : list A) :
  hd_error (filter p l) = find p l.
Proof.
  induction l as [|x l IH]; [reflexivity |]. cbn [filter find].
  destruct (p x); [reflexivity | exact IH].
Qed.

Lemma scanParts_firstCity (parts : list str) :
  scanParts parts None None
  = match firstCity parts with
    | Some k => (Some (capitalize k), regionOf k)
    | None => (None, None)
    end.
Proof.
  induction parts as [|p parts IH]; [reflexivity |].
  cbn [scanParts firstCity]. rewrite matchCity_find. unfold knownCityIn.
  destruct (find _ kenyaCities) as [k |] eqn:F; cbn [option_map fst snd isSet].
  - apply find_some in F. destruct F as [F _].
    destruct (known_city_facts k F) as [-> _]. reflexivity.
  - exact IH.
Qed.

Lemma firstCity_nonblank (segs : list str) :
  firstCity (filter (fun seg => negb (isEmpty seg)) segs) = firstCity segs.
Proof.
  induction segs as [|seg segs IH]; [reflexivity |].
  cbn [filter]. destruct seg as [|c seg]; cbn [isEmpty negb].
  - cbn [firstCity]. change (knownCityIn []) with (@None str). exact IH.
  - cbn [firstCity]. rewrite IH. reflexivity.
Qed.

(** Area, city and region in terms of the segments. *)
Lemma location_by_segments (s : str) :
  area (normalizeLocation (VStr s)) = firstNonBlank (segments s)
  /\ city (normalizeLocation (VStr s))
     = option_map capitalize (firstCity (segments s))
  /\ region (normalizeLocation (VStr s))
     = match firstCity (segments s) with
       | Some k => regionOf k
       | None => None
       end.
Proof.
  destruct s as [|c s]; [repeat split; reflexivity |].
  unfold normalizeLocation. cbn [truthy isEmpty negb ToString].
  rewrite locationParts_segments, scanParts_firstCity, firstCity_nonblank.
  unfold firstNonBlank. rewrite <- hd_filter.
  destruct (firstCity (segments (c :: s))); repeat split; reflexivity.
Qed.

(** C4, as first stated, fails: the area segment is scanned before the city
    segment, so a known city named in the area is the one reported.  In
    "Mombasa Road, Nairobi" the city segment names Nairobi, yet the result
    is Mombasa in the Coast region. *)
Lemma city_found_in_area_first :
  knownCityIn (lit "Nairobi") = Some (lit "nairobi")
  /\ city (normalizeLocation (VStr "Mombasa Road, Nairobi"))
     = Some (lit "Mombasa")
  /\ region (normalizeLocation (VStr "Mombasa Road, Nairobi"))
     = Some (lit "Coast")
  /\ ~ (forall (a c : str) (x : ascii) (k : str),
          noDelimiter a = true -> noDelimiter c = true ->
          isDelimiter x = true ->
          In k kenyaCities -> includes (toLowerCase c) k = true ->
          city (normalizeLocation (VStr (a ++ x :: c)))
          = Some (capitalize k)).
Proof.
  split; [reflexivity |]. split; [reflexivity |]. split; [reflexivity |].
  intros H.
  specialize (H (lit "Mombasa Road") (lit " Nairobi") ","%char (lit "nairobi")).
  discriminate H; first [reflexivity | vm_compute; tauto].
Qed.

(** C4, amended. For a text [<area><delimiter><City>] (delimiter a comma,
    a hyphen or a slash) whose area segment is not blank and names no known
    city, and whose city segment names the known city [k] (the first of the
    gazetteer it contains, letter case ignored): the area is the trimmed
    first segment, the city is [k] capitalised and the region is the one
    the table gives for [k], which exists.  For every text: the area is
    the first segment that is not blank, null when there is none; the city
    is the capitalised gazetteer entry named by the first segment that
    names one, and the region is its table entry; so a known city named
    in the first segment is the one reported, whatever follows, and city
    and region are null when no segment names a known city.  For every
    input the region is non-null only if the city is.  The two worked
    examples hold. *)
Theorem location_resolved :
  forall (a c : str) (x : ascii) (k : str),
    noDelimiter a = true -> noDelimiter c = true -> isDelimiter x = true ->
    trim a <> [] ->
    knownCityIn (trim a) = None ->
    knownCityIn (trim c) = Some k ->
    normalizeLocation (VStr (a ++ x :: c))
    = {| area := Some (trim a);
         city := Some (capitalize k);
         region := regionOf k;
         location_original := Some (trim (a ++ x :: c)) |}
    /\ regionOf k <> None
    /\ (forall s : str,
          area (normalizeLocation (VStr s)) = firstNonBlank (segments s)
          /\ city (normalizeLocation (VStr s))
             = option_map capitalize (firstCity (segments s))
          /\ region (normalizeLocation (VStr s))
             = match firstCity (segments s) with
               | Some j => regionOf j
               | None => None
               end)
    /\ (forall (b rest : str) (y : ascii) (j : str),
          noDelimiter b = true -> isDelimiter y = true ->
          knownCityIn (trim b) = Some j ->
          city (normalizeLocation (VStr (b ++ y :: rest)))
          = Some (capitalize j)
          /\ region (normalizeLocation (VStr (b ++ y :: rest))) = regionOf j)
    /\ (forall s : str,
          Forall (fun seg => knownCityIn seg = None) (segments s) ->
          city (normalizeLocation (VStr s)) = None
          /\ region (normalizeLocation (VStr s)) = None)
    /\ (forall v : value,
          region (normalizeLocation v) <> None ->
          city (normalizeLocation v) <> None)
    /\ normalizeLocation (VStr "Nyali, Mombasa")
       = {| area := Some (lit "Nyali"); city := Some (lit "Mombasa");
            region := Some (lit "Coast");
            location_original := Some (lit "Nyali, Mombasa") |}
    /\ normalizeLocation (VStr "Milimani - Kisumu")
       = {| area := Some (lit "Milimani"); city := Some (lit "Kisumu");
            region := Some (lit "Nyanza");
            location_original := Some (lit "Milimani - Kisumu") |}.
Proof.
  intros a c x k Ha Hc Hx Na Ka Kc.
  pose proof (known_city_facts k (knownCityIn_known _ _ Kc)) as [Ek Rk].
  split; [| split; [exact Rk | split; [exact location_by_segments |
    split; [| split; [| split; [| split; reflexivity]]]]]].
  - assert (Nc : trim c <> []).
    { intros E. rewrite E in Kc. discriminate Kc. }
    unfold normalizeLocation.
    replace (truthy (VStr (a ++ x :: c))) with true
      by (destruct a; reflexivity).
    cbn [negb ToString].
    rewrite (locationParts_two a c x Ha Hc Hx Na Nc).
    cbn [scanParts hd_error]. rewrite !matchCity_find.
    unfold knownCityIn in Ka, Kc. rewrite Ka, Kc.
    cbn [option_map fst snd isSet]. rewrite Ek. reflexivity.
  - intros b rest y j Hb Hy Kb.
    destruct (location_by_segments (b ++ y :: rest)) as (_ & C & R).
    assert (F : firstCity (segments (b ++ y :: rest)) = Some j).
    { unfold segments. rewrite (splitOn_app isDelimiter b rest y Hb Hy).
      cbn [map firstCity]. rewrite Kb. reflexivity. }
    rewrite C, R, F. split; reflexivity.
  - intros s Hs. destruct (location_by_segments s) as (_ & C & R).
    assert (F : forall segs,
               Forall (fun seg => knownCityIn seg = None) segs ->
               firstCity segs = None).
    { induction 1 as [|seg segs Hseg _ IH]; [reflexivity |].
      cbn [firstCity]. rewrite Hseg. exact IH. }
    rewrite C, R, (F _ Hs). split; reflexivity.
  - intros v. unfold normalizeLocation.
    destruct (truthy v); cbn [negb]; [| cbn; congruence].
    pose proof (region_needs_city (locationParts (trim (ToString v)))) as R.
    destruct (scanParts (locationParts (trim (ToString v))) None None)
      as [ci re].
    exact R.
Qed.

Lemma location_resolved_witness :
  knownCityIn (trim (lit "Westlands ")) = None
  /\ knownCityIn (trim (lit " NAIROBI")) = Some (lit "nairobi")
  /\ normalizeLocation (VStr "Westlands / NAIROBI")
     = {| area := Some (lit "Westlands"); city := Some (lit "Nairobi");
          region := Some (lit "Nairobi");
          location_original := Some (lit "Westlands / NAIROBI") |}.
Proof.
  split; [reflexivity |]. split; [reflexivity |].
  refine (proj1 (location_resolved (lit "Westlands ") (lit " NAIROBI") "/"
                   (lit "nairobi") _ _ _ _ _ _)).
  - reflexivity.
  - reflexivity.
  - reflexivity.
  - discriminate.
  - reflexivity.
  - reflexivity.
Defined.

(* ================================================================== *)
(** ** Image URLs *)
(* ================================================================== *)

Lemma thumbSuffixAt_inside (c : ascii) (u ext : str) :
  thumbSuffixAt (c :: u ++ lit "-thumb." ++ ext) = false.
Proof.
  unfold thumbSuffixAt.
  replace (c :: u ++ lit "-thumb." ++ ext)
    with ((c :: u ++ lit "-thumb") ++ "."%char :: ext)
    by (cbn [app]; rewrite <- app_assoc; reflexivity).
  rewrite skipn_app, forallb_app.
  assert (L : List.length (c :: u ++ lit "-thumb") = S (List.length u + 6))
    by (cbn [List.length]; rewrite length_app; reflexivity).
  replace (7 - List.length (c :: u ++ lit "-thumb")) with 0 by lia.
  cbn [skipn forallb]. change (isWord ".") with false.
  rewrite andb_false_r, andb_false_r. reflexivity.
Qed.

(** Whatever precedes it, a suffix [-thumb.<ext>] is replaced by [.$1]. *)
Lemma replaceThumb_suffix (u ext : str) :
  ext <> [] -> forallb isWord ext = true ->
  replaceThumb (u ++ lit "-thumb." ++ ext) = u ++ lit ".$1".
Proof.
  intros Hne Hw. induction u as [|c u IH].
  - cbn [app]. destruct ext as [|e ext]; [congruence |].
    unfold replaceThumb, thumbSuffixAt.
    cbn [lit list_ascii_of_string app startsWith skipn isEmpty negb].
    rewrite Hw. reflexivity.
  - cbn [app replaceThumb]. rewrite thumbSuffixAt_inside.
    f_equal. exact IH.
Qed.

(** C6. A URL ending in [-thumb.<ext>] does not come out with the suffix
    rewritten to [.<ext>]: the replacement text names a capture group the
    pattern does not have, so the suffix is replaced by the four characters
    [.$1] and the extension is lost.  This is so for every image whose
    trimmed, protocol-completed URL is [u-thumb.<ext>] with [u] starting
    with http, and in particular for the two URLs evaluated here. *)
Theorem thumbnail_extension_lost :
  (forall img u ext : str,
     (let url := trim img in
      if startsWith url "//" then lit "https:" +++ url else url)
     = u ++ lit "-thumb." ++ ext ->
     img <> [] -> startsWith u "http" = true ->
     ext <> [] -> forallb isWord ext = true ->
     normalizeImages (ImagesArray [VStr img]) = [u ++ lit ".$1"]
     /\ u ++ lit ".$1" <> u ++ lit "." ++ ext)
  /\ normalizeImages
       (ImagesArray [VStr "https://img.example.com/p/12-thumb.jpg";
                     VStr "//img.example.com/p/13-thumb.png"])
     = lits ["https://img.example.com/p/12.$1";
             "https://img.example.com/p/13.$1"]
  /\ normalizeImages
       (ImagesArray [VStr "https://img.example.com/p/12-thumb.jpg"])
     <> lits ["https://img.example.com/p/12.jpg"].
Proof.
  split; [| split; [reflexivity | discriminate]].
  intros img u ext E Hi Hu Hne Hw. split.
  - unfold normalizeImages. cbn [flat_map stringEntry].
    destruct img as [|c img]; [congruence |].
    cbn [isEmpty app map]. unfold normalizeImageUrl. cbv zeta in E.
    rewrite E, (replaceThumb_suffix u ext Hne Hw). cbn [filter].
    destruct (startsWith_app _ _ Hu) as [t ->]. reflexivity.
  - intros H. apply app_inv_head in H.
    cbn [lit list_ascii_of_string app] in H. injection H as H.
    subst ext. discriminate Hw.
Qed.

(* ================================================================== *)
(** ** Detail links of a listing page *)
(* ================================================================== *)

(** C7. The duplicate test compares the raw [href] with the absolute URLs
    collected so far, so a relative link that occurs twice on a page is
    enqueued twice, and the repetition uses up the quota: with a quota of 2
    the second, distinct link of the page is not enqueued at all.  The same
    happens with an absolute link followed by its relative form. *)
Theorem relative_link_enqueued_twice :
  Crawler.requestQueue
    (Crawler.BuyRentKenya.requestHandler (quotaOf 2) Crawler.initial
       (listRequest "https://www.buyrentkenya.com/property")
       (listingPage ["/property/1"; "/property/1"; "/property/2"]))
  = Crawler.detailRequests
      (lits ["https://www.buyrentkenya.com/property/1";
             "https://www.buyrentkenya.com/property/1"])
  /\ Crawler.requestQueue
       (Crawler.Jiji.requestHandler (quotaOf 2) Crawler.initial
          (listRequest "https://jiji.co.ke/real-estate")
          (listingPage ["/item/1"; "/item/1"; "/item/2"]))
     = Crawler.detailRequests
         (lits ["https://jiji.co.ke/item/1"; "https://jiji.co.ke/item/1"])
  /\ Crawler.requestQueue
       (Crawler.BuyRentKenya.requestHandler (quotaOf 5) Crawler.initial
          (listRequest "https://www.buyrentkenya.com/property")
          (listingPage ["https://www.buyrentkenya.com/property/1";
                        "/property/1"]))
     = Crawler.detailRequests
         (lits ["https://www.buyrentkenya.com/property/1";
                "https://www.buyrentkenya.com/property/1"]).
Proof. split; [| split]; vm_compute; reflexivity. Qed.

Section LinkCap.
Import Crawler.

Variable options : Options.
Variable count : nat.
Variable visit : list str -> option str -> list str.

(** A link is added only while the quota has room, and one at a time. *)
Hypothesis visit_capped : forall links href,
  visit links href = links \/
  (count + List.length links < maxListings options /\
   exists u, visit links href = links ++ [u]).

Lemma fold_visit_capped (hrefs : list (option str)) : forall links,
  count + List.length links <= maxListings options ->
  count + List.length (fold_left visit hrefs links) <= maxListings options.
Proof.
  induction hrefs as [|h hrefs IH]; intros links H; cbn [fold_left]; [exact H |].
  apply IH. destruct (visit_capped links h) as [-> | (Hlt & u & ->)];
    [exact H |]. rewrite length_app. cbn. lia.
Qed.

End LinkCap.

Lemma brk_visit_capped options count links href :
  Crawler.BuyRentKenya.visitLink options count links href = links \/
  (count + List.length links < Crawler.maxListings options /\
   exists u, Crawler.BuyRentKenya.visitLink options count links href
             = links ++ [u]).
Proof.
  unfold Crawler.BuyRentKenya.visitLink. destruct href as [href |]; [| now left].
  destruct (negb (isEmpty href) && negb (arrayIncludes links href)
            && (count + List.length links <? Crawler.maxListings options))
    eqn:E; [| now left].
  right. split_andb. apply Nat.ltb_lt in H0. split; [exact H0 | eauto].
Qed.

Lemma jiji_visit_capped options count links href :
  Crawler.Jiji.visitLink options count links href = links \/
  (count + List.length links < Crawler.maxListings options /\
   exists u, Crawler.Jiji.visitLink options count links href = links ++ [u]).
Proof.
  unfold Crawler.Jiji.visitLink. destruct href as [href |]; [| now left].
  destruct (negb (isEmpty href) && includes href "/item/"
            && negb (arrayIncludes links href)); [| now left].
  destruct (count + List.length links <? Crawler.maxListings options) eqn:E;
    [| now left].
  right. apply Nat.ltb_lt in E. split; [exact E | eauto].
Qed.

(** The links a listing page hands over stay within what the quota leaves,
    and the next page is asked for only while the quota has room: for both
    crawlers, from a state whose counter is within the quota. *)
Lemma links_within_quota options (st : Crawler.State) (u : str)
    (page : Crawler.Page) :
  Crawler.listingCount st <= Crawler.maxListings options ->
  let request := {| Crawler.req_url := u; Crawler.label := Crawler.LIST |} in
  let brk := Crawler.BuyRentKenya.collectLinks options
               (Crawler.listingCount st) (Crawler.linkHrefs page) in
  let jiji := Crawler.Jiji.collectLinks options
                (Crawler.listingCount st) (Crawler.linkHrefs page) in
  Crawler.listingCount st + List.length brk <= Crawler.maxListings options
  /\ Crawler.listingCount st + List.length jiji <= Crawler.maxListings options
  /\ Crawler.requestQueue
       (Crawler.BuyRentKenya.requestHandler options st request page)
     = Crawler.requestQueue st ++ Crawler.detailRequests brk
       ++ (if Crawler.listingCount st + List.length brk
              <? Crawler.maxListings options
           then Crawler.listRequests (Crawler.nextLinks page) else [])
  /\ Crawler.requestQueue (Crawler.Jiji.requestHandler options st request page)
     = Crawler.requestQueue st ++ Crawler.detailRequests jiji
       ++ (if Crawler.listingCount st + List.length jiji
              <? Crawler.maxListings options
           then Crawler.listRequests (Crawler.nextLinks page) else []).
Proof.
  intros H request brk jiji. split; [| split; [| split]].
  - apply fold_visit_capped; [apply brk_visit_capped | cbn; lia].
  - apply fold_visit_capped; [apply jiji_visit_capped | cbn; lia].
  - subst request. unfold Crawler.BuyRentKenya.requestHandler.
    cbn [Crawler.label Crawler.requestQueue]. fold brk.
    destruct (Crawler.listingCount st + List.length brk
              <? Crawler.maxListings options);
      rewrite <- ?app_assoc, ?app_nil_r; reflexivity.
  - subst request. unfold Crawler.Jiji.requestHandler.
    cbn [Crawler.label Crawler.requestQueue]. fold jiji.
    destruct (Crawler.listingCount st + List.length jiji
              <? Crawler.maxListings options);
      rewrite <- ?app_assoc, ?app_nil_r; reflexivity.
Qed.

Lemma links_within_quota_witness :
  Crawler.requestQueue
    (Crawler.BuyRentKenya.requestHandler (quotaOf 2) Crawler.initial
       (listRequest "https://www.buyrentkenya.com/property")
       (listingPage ["/property/1"; "/property/2"; "/property/3"]))
  = Crawler.detailRequests
      (lits ["https://www.buyrentkenya.com/property/1";
             "https://www.buyrentkenya.com/property/2"]).
Proof.
  refine (eq_trans
            (proj1 (proj2 (proj2
               (links_within_quota (quotaOf 2) Crawler.initial
                  (lit "https://www.buyrentkenya.com/property")
                  (listingPage ["/property/1"; "/property/2"; "/property/3"])
                  _)))) _).
  - cbn; lia.
  - vm_compute; reflexivity.
Defined.

(* ================================================================== *)
(** ** The source loop *)
(* ================================================================== *)

Lemma run_quota_bound (f : Main.Factory) options events :
  List.length (Crawler.listings
                 (Crawler.run (Main.handlerOf f) options events Crawler.initial))
  <= Crawler.maxListings options.
Proof.
  destruct (run_within (Main.handlerOf f) (handlerOf_stepShape f) options
                       events Crawler.initial) as [E L].
  - split; cbn; lia.
  - rewrite <- E. exact L.
Qed.

Lemma processSources_plain input engine (names : list str) :
  plainNames names ->
  forall i acc,
    Main.processSources input engine i names acc
    = Some (acc ++ List.concat (contributions input engine i names)).
Proof.
  induction 1 as [|source names Hs _ IH]; intros i acc;
    cbn [Main.processSources contributions List.concat].
  - rewrite app_nil_r. reflexivity.
  - unfold contribution at 1.
    destruct (Main.CRAWLERS (toLowerCase source)) as [f | |];
      [| congruence |]; rewrite IH.
    + rewrite app_assoc. reflexivity.
    + reflexivity.
Qed.

Lemma contribution_bounded input engine i source :
  List.length (contribution input engine i source)
  <= ceilDiv (Main.maxListings input) (List.length (Main.sources input)).
Proof.
  unfold contribution.
  destruct (Main.CRAWLERS (toLowerCase source)) as [f | |]; cbn [List.length];
    try lia.
  apply run_quota_bound.
Qed.

Lemma contributions_bounded input engine (names : list str) : forall i,
  List.length (List.concat (contributions input engine i names))
  <= List.length names
     * ceilDiv (Main.maxListings input) (List.length (Main.sources input)).
Proof.
  induction names as [|source names IH]; intros i;
    cbn [contributions List.concat List.length]; [lia |].
  rewrite length_app.
  pose proof (contribution_bounded input engine i source).
  specialize (IH (S i)). lia.
Qed.



Lemma processSources_inherited input engine (names : list str) :
  Exists (fun source => Main.CRAWLERS (toLowerCase source) = Main.Inherited)
         names ->
  forall i acc, Main.processSources input engine i names acc = None.
Proof.
  induction names as [|source names IH]; intros H i acc.
  - inversion H.
  - cbn [Main.processSources].
    destruct (Main.CRAWLERS (toLowerCase source)) as [f | |] eqn:E;
      [| reflexivity |]; apply IH; inversion H; subst; congruence.
Qed.

(** C9. An entry of [sources] that names a member every object inherits,
    such as [constructor], has no registered crawler, yet it is not skipped:
    the lookup gives a truthy value, using it as a crawler factory throws,
    and the run ends in failure with nothing stored, whatever the other
    sources had collected. *)
Theorem inherited_name_aborts_run :
  forall (maxListings : nat) (currency : str)
         (engine : nat -> list (Crawler.Request * Crawler.Page)),
    Main.CRAWLERS (toLowerCase (lit "constructor")) = Main.Inherited
    /\ Main.main {| Main.sources := lits ["constructor"];
                    Main.maxListings := maxListings;
                    Main.currency := currency |} engine
       = ([], Main.Failure)
    /\ Main.main {| Main.sources := lits ["jiji"; "constructor"];
                    Main.maxListings := maxListings;
                    Main.currency := currency |} engine
       = ([], Main.Failure)
    /\ Main.success Main.Failure = false
    /\ (forall names : list str,
          Exists (fun source =>
                    Main.CRAWLERS (toLowerCase source) = Main.Inherited)
                 names ->
          Main.main {| Main.sources := names;
                       Main.maxListings := maxListings;
                       Main.currency := currency |} engine
          = ([], Main.Failure)).
Proof.
  intros. split; [reflexivity |]. split; [reflexivity |].
  split; [reflexivity |]. split; [reflexivity |].
  intros names H. unfold Main.main. cbn [Main.sources].
  rewrite (processSources_inherited _ engine names H). reflexivity.
Qed.

(* ================================================================== *)
(** ** Integers in text *)
(* ================================================================== *)

Lemma trimStart_spaces (ws s : str) :
  forallb isSpace ws = true -> trimStart (ws ++ s) = trimStart s.
Proof.
  induction ws as [|c ws IH]; [reflexivity |]. cbn [forallb].
  intros H. apply andb_prop in H. destruct H as [Hc Hws].
  cbn [app trimStart]. rewrite Hc. apply IH, Hws.
Qed.

Lemma takeWhile_stop (p : ascii -> bool) (ds rest : str) :
  forallb p ds = true -> takeWhile p rest = [] ->
  takeWhile p (ds ++ rest) = ds.
Proof.
  intros H R. induction ds as [|c ds IH]; [exact R |].
  cbn [forallb] in H. apply andb_prop in H. destruct H as [Hc Hds].
  cbn [app takeWhile]. rewrite Hc, (IH Hds). reflexivity.
Qed.

Lemma digit_no_sign (c : ascii) :
  isDigit c = true -> Ascii.eqb c "-" = false /\ Ascii.eqb c "+" = false.
Proof.
  intros H. apply digit_cases in H. cbn in H.
  repeat (destruct H as [<- | H]; [split; reflexivity |]). contradiction.
Qed.

Lemma double_not_NaN (q : Q) : double q <> NaN.
Proof.
  unfold double. destruct (Qnum q); [discriminate | |];
    destruct (nearest64 _ _); discriminate.
Qed.

(** [parseInt] on a run of digits followed by something else. *)
Lemma parseInt_digits (ds rest : str) :
  ds <> [] -> forallb isDigit ds = true -> takeWhile isDigit rest = [] ->
  parseInt (ds ++ rest) = double (inject_Z (digitsValue ds))
  /\ parseInt ("-"%char :: ds ++ rest) = double (inject_Z (- digitsValue ds))
  /\ parseInt ("+"%char :: ds ++ rest) = double (inject_Z (digitsValue ds)).
Proof.
  intros Hne Hd Hr. pose proof (takeWhile_stop isDigit ds rest Hd Hr) as T.
  destruct ds as [|d ds]; [congruence |].
  cbn [forallb] in Hd. apply andb_prop in Hd. destruct Hd as [Hd0 Hd].
  destruct (digit_no_sign d Hd0) as [N1 N2].
  unfold parseInt. split; [| split].
  - cbn [app trimStart]. rewrite (digit_not_space d Hd0), N1, N2.
    cbn [fst snd]. change (d :: ds ++ rest) with ((d :: ds) ++ rest).
    rewrite T. reflexivity.
  - cbn [trimStart isSpace]. change (isSpace "-") with false.
    cbn [Ascii.eqb Bool.eqb fst snd]. rewrite T. reflexivity.
  - cbn [trimStart]. change (isSpace "+") with false.
    cbn [Ascii.eqb Bool.eqb fst snd]. rewrite T. reflexivity.
Qed.

(** [isNaN(num) ? null : num] on a number that was read. *)
Lemma read_number (n : number) (q : Q) :
  n = double q ->
  match n with
  | NaN => None
  | Inf negative => Some (Inf negative)
  | Fin x => Some (Fin x)
  end = Some (double q).
Proof.
  intros ->. pose proof (double_not_NaN q) as N.
  destruct (double q); [congruence | reflexivity | reflexivity].
Qed.

Lemma safe_below (z : Z) : safeInteger z -> (Z.abs z < 2 ^ 53)%Z.
Proof.
  unfold safeInteger. change (2 ^ 53)%Z with 9007199254740992%Z. lia.
Qed.

(** X3. [parseNumber] reads a leading integer: for a text made of white
    space, an optional sign, digits and a rest that does not start with a
    digit, the result is the double nearest to the integer the digits
    denote, negated after a minus sign; it is that integer itself when it
    is a safe integer, and 9007199254740993 is read as 9007199254740992.
    A text whose first character after the white space is neither a sign
    nor a digit, an empty or blank text, null and undefined give null. *)
Theorem parseNumber_leading_integer :
  forall (ws sign ds rest : str),
    forallb isSpace ws = true ->
    In sign (lits [""; "+"; "-"]) ->
    ds <> [] -> forallb isDigit ds = true ->
    takeWhile isDigit rest = [] ->
    let n := if eqs sign "-" then (- digitsValue ds)%Z else digitsValue ds in
    parseNumber (VStr (ws ++ sign ++ ds ++ rest))
    = Some (double (inject_Z n))
    /\ (safeInteger n ->
        parseNumber (VStr (ws ++ sign ++ ds ++ rest))
        = Some (Fin (inject_Z n)))
    /\ parseNumber (VStr "9007199254740993")
       = Some (Fin (inject_Z 9007199254740992))
    /\ (forall (s r : str) (c : ascii),
          trimStart s = c :: r -> isDigit c = false ->
          Ascii.eqb c "-" = false -> Ascii.eqb c "+" = false ->
          parseNumber (VStr s) = None)
    /\ (forall s : str, trimStart s = [] -> parseNumber (VStr s) = None)
    /\ parseNumber VNull = None /\ parseNumber VUndefined = None.
Proof.
  intros ws sign ds rest Hws Hs Hne Hd Hr n.
  destruct (parseInt_digits ds rest Hne Hd Hr) as (P0 & P1 & P2).
  assert (A : parseNumber (VStr (ws ++ sign ++ ds ++ rest))
              = Some (double (inject_Z n))).
  { cbn [parseNumber ToString]. apply read_number. unfold parseInt at 1.
    rewrite (trimStart_spaces ws _ Hws). fold (parseInt (sign ++ ds ++ rest)).
    subst n. cbn in Hs.
    destruct Hs as [<- | [<- | [<- | []]]]; cbn [app lit list_ascii_of_string].
    - exact P0.
    - exact P2.
    - exact P1. }
  split; [exact A |].
  split; [intros S; rewrite A, (double_whole n (safe_below n S)); reflexivity |].
  split; [vm_compute; reflexivity |].
  split; [| split; [| split; reflexivity]].
  - intros s r c E Hc N1 N2. cbn [parseNumber ToString]. unfold parseInt.
    rewrite E, N1, N2. cbn [fst snd takeWhile]. rewrite Hc. reflexivity.
  - intros s E. cbn [parseNumber ToString]. unfold parseInt. rewrite E.
    reflexivity.
Qed.

Lemma parseNumber_leading_integer_witness :
  parseNumber (VStr " 3 bedrooms") = Some (Fin (inject_Z 3))
  /\ parseNumber (VStr "-12.5") = Some (Fin (inject_Z (-12))).
Proof.
  split.
  - refine (proj1 (proj2 (parseNumber_leading_integer " " "" "3" " bedrooms"
                            _ _ _ _ _)) _);
      solve [reflexivity | discriminate | in_literal
            | unfold safeInteger; vm_compute; discriminate].
  - refine (proj1 (proj2 (parseNumber_leading_integer "" "-" "12" ".5"
                            _ _ _ _ _)) _);
      solve [reflexivity | discriminate | in_literal
            | unfold safeInteger; vm_compute; discriminate].
Defined.

Lemma uint_chars_digits (d : Decimal.uint) :
  forallb isDigit (lit (NilEmpty.string_of_uint d)) = true.
Proof.
  induction d;
    cbn [NilEmpty.string_of_uint lit list_ascii_of_string forallb];
    [reflexivity | ..]; exact IHd.
Qed.

Lemma uint_chars_value (d : Decimal.uint) : forall acc,
  fold_left (fun a c => (10 * a + digitVal c)%Z)
            (lit (NilEmpty.string_of_uint d)) acc
  = uintValue d acc.
Proof.
  induction d; intros acc;
    cbn [NilEmpty.string_of_uint lit list_ascii_of_string fold_left uintValue];
    [reflexivity | ..]; fold (lit (NilEmpty.string_of_uint d));
    rewrite IHd; reflexivity.
Qed.

Lemma uintValue_positive (d : Decimal.uint) : forall acc : positive,
  uintValue d (Zpos acc) = Zpos (Pos.of_uint_acc d acc).
Proof.
  induction d; intros acc; cbn [uintValue Pos.of_uint_acc];
    [reflexivity | ..];
    match goal with
    | |- uintValue _ ?a = Zpos (Pos.of_uint_acc _ ?b) =>
        replace a with (Zpos b) by lia; apply IHd
    end.
Qed.

Lemma uintValue_zero (d : Decimal.uint) :
  uintValue d 0 = Z.of_N (Pos.of_uint d).
Proof.
  induction d; cbn [uintValue Pos.of_uint]; [reflexivity | exact IHd | ..];
    cbn [Z.mul Z.add Z.of_N]; apply uintValue_positive.
Qed.

Lemma positive_text (p : positive) :
  exists D : str,
    lit (NilZero.string_of_uint (Pos.to_uint p)) = D
    /\ D <> [] /\ forallb isDigit D = true /\ digitsValue D = Zpos p.
Proof.
  exists (lit (NilEmpty.string_of_uint (Pos.to_uint p))).
  pose proof (DecimalPos.Unsigned.to_uint_nonnil p) as N.
  split; [| split; [| split]].
  - unfold NilZero.string_of_uint. destruct (Pos.to_uint p); congruence.
  - destruct (Pos.to_uint p); [congruence | ..]; discriminate.
  - apply uint_chars_digits.
  - unfold digitsValue. rewrite uint_chars_value, uintValue_zero.
    rewrite DecimalPos.Unsigned.of_to. reflexivity.
Qed.

(** X4. A safe integer handed to [parseNumber] as a number comes back
    unchanged: printing it and reading the print is the identity. *)
Theorem parseNumber_of_integer :
  forall z : Z, safeInteger z -> parseNumber (VNum z) = Some (Fin (inject_Z z)).
Proof.
  intros z S. rewrite <- (double_whole z (safe_below z S)).
  cbn [parseNumber ToString]. apply read_number.
  destruct z as [| p | p]; [reflexivity | |].
  - destruct (positive_text p) as (D & E & Hne & Hd & V).
    cbn [Z.to_int NilZero.string_of_int]. rewrite E.
    rewrite <- (app_nil_r D), <- V.
    apply (parseInt_digits D [] Hne Hd eq_refl).
  - destruct (positive_text p) as (D & E & Hne & Hd & V).
    cbn [Z.to_int NilZero.string_of_int lit list_ascii_of_string].
    fold (lit (NilZero.string_of_uint (Pos.to_uint p))). rewrite E.
    rewrite <- (app_nil_r D).
    change (Z.neg p) with (- Z.pos p)%Z. rewrite <- V.
    apply (parseInt_digits D [] Hne Hd eq_refl).
Qed.

Lemma parseNumber_of_integer_witness :
  parseNumber (VNum (-12)) = Some (Fin (inject_Z (-12))).
Proof.
  apply (parseNumber_of_integer (-12)). unfold safeInteger. cbn. lia.
Defined.

(* ================================================================== *)
(** ** Prices given as numbers, and the sign of amounts *)
(* ================================================================== *)

(** The cleaning and the scaling of a text that is a run of digits, with
    or without a minus sign in front. *)
Lemma plain_digits_price (P D : str) :
  In P (lits [""; "-"]) -> D <> [] -> forallb isDigit D = true ->
  trim (P ++ D) = P ++ D
  /\ cleanPrice (P ++ D) = (P ++ D, lit "KES")
  /\ scaledAmount (P ++ D) = Some (double (inject_Z (digitsValue D))).
Proof.
  intros HP Hne HD.
  assert (S0 : In (lit "") priceSuffixes) by (left; reflexivity).
  pose proof (replace_kes_digits D _ HD S0) as K.
  pose proof (replace_usd_digits D _ HD S0) as U.
  destruct (takeWhile_digits D _ HD S0) as (T & _ & _).
  cbn [lit list_ascii_of_string] in K, U, T. rewrite app_nil_r in K, U, T.
  assert (NS : forallb (fun c => negb (isSpace c)) (P ++ D) = true).
  { rewrite forallb_app, (digits_no_space D HD).
    cbn in HP. destruct HP as [<- | [<- | []]]; reflexivity. }
  split; [apply trim_id, NS |]. split.
  - unfold cleanPrice. rewrite strip_app, (strip_digits D HD).
    cbn in HP. destruct HP as [<- | [<- | []]];
      cbn [app toUpperCase map stripSeparators filter].
    + rewrite K. cbn [fst snd]. rewrite U. cbn [fst snd].
      rewrite (trim_id D) by exact NS. reflexivity.
    + change (negb _) with true. cbn [app].
      repeat (first [replace_step | rewrite K | rewrite U]; cbn [fst snd]).
      change (upperChar "-") with "-"%char.
      rewrite (trim_id ("-"%char :: D) NS). reflexivity.
  - destruct D as [|d D']; [congruence |].
    cbn [forallb] in HD. apply andb_prop in HD. destruct HD as [Hd HD'].
    unfold scaledAmount.
    rewrite matchNumber_skip
      by (cbn in HP; destruct HP as [<- | [<- | []]]; reflexivity).
    cbn [matchNumber]. rewrite (digit_isNumChar d Hd), T.
    rewrite (parseFloat_digits d D' Hd HD').
    cbn [lit list_ascii_of_string]. rewrite !includes_char, !existsb_app.
    cbn [existsb].
    rewrite (digit_not_M d Hd), (digit_not_K d Hd),
            (digits_no_letter D' "M" digit_not_M HD'),
            (digits_no_letter D' "K" digit_not_K HD').
    cbn in HP. destruct HP as [<- | [<- | []]]; reflexivity.
Qed.

(** X5. A non-zero safe integer given as the price, with KES as the
    target, is its own amount when positive; the sign of a negative one is
    dropped.  The original is the number as printed. *)
Theorem normalizePrice_of_integer :
  forall z : Z,
    z <> 0%Z -> safeInteger z ->
    normalizePrice (VNum z) "KES"
    = {| amount := Some (Fin (inject_Z (Z.abs z)));
         currency := "KES";
         original := Some (ToString (VNum z)) |}.
Proof.
  intros z Hz S.
  assert (T : exists P D, ToString (VNum z) = P ++ D
                          /\ In P (lits [""; "-"]) /\ D <> []
                          /\ forallb isDigit D = true
                          /\ digitsValue D = Z.abs z).
  { destruct z as [| p | p]; [congruence | |];
      destruct (positive_text p) as (D & E & Hne & Hd & V).
    - exists (lit ""), D. cbn [ToString Z.to_int NilZero.string_of_int].
      rewrite E. repeat split; try assumption. left; reflexivity.
    - exists (lit "-"), D.
      cbn [ToString Z.to_int NilZero.string_of_int lit list_ascii_of_string].
      fold (lit (NilZero.string_of_uint (Pos.to_uint p))). rewrite E.
      repeat split; try assumption. right; left; reflexivity. }
  destruct T as (P & D & E & HP & Hne & Hd & V).
  destruct (plain_digits_price P D HP Hne Hd) as (Tr & C & A).
  unfold normalizePrice.
  replace (truthy (VNum z)) with true
    by (cbn [truthy]; destruct z; [congruence | reflexivity | reflexivity]).
  cbn [negb]. rewrite E, Tr, C, A, V.
  rewrite (double_whole (Z.abs z)); [reflexivity |].
  apply safe_below. unfold safeInteger in *. lia.
Qed.

Lemma normalizePrice_of_integer_witness :
  amount (normalizePrice (VNum (-4500000)) "KES")
  = Some (Fin (inject_Z 4500000)).
Proof.
  rewrite (normalizePrice_of_integer (-4500000));
    [reflexivity | discriminate | unfold safeInteger; cbn; lia].
Defined.

Lemma parseFloat_nonneg (s : str) : nonNegative (parseFloat s).
Proof.
  unfold parseFloat.
  destruct (takeWhile isDigit (trimStart s) ++ _) as [|c ds] eqn:E;
    [exact I |].
  apply double_nonneg.
  unfold Qle. cbn [Qnum Qden]. pose proof (digitsValue_nonneg (c :: ds)). lia.
Qed.

Lemma nonneg_not_negative (q : Q) : (0 <= q)%Q -> isNegative q = false.
Proof.
  unfold Qle, isNegative. cbn [Qnum Qden]. intros H. apply Z.ltb_ge. lia.
Qed.

Lemma times_nonneg (a b : number) :
  nonNegative a -> nonNegative b -> nonNegative (times a b).
Proof.
  destruct a as [| s | x], b as [| t | y]; cbn [nonNegative times];
    try trivial.
  - intros -> ->. reflexivity.
  - intros -> Hy. destruct (isZero y); [exact I |].
    cbn [nonNegative]. rewrite (nonneg_not_negative y Hy). reflexivity.
  - intros Hx ->. destruct (isZero x); [exact I |].
    cbn [nonNegative]. rewrite (nonneg_not_negative x Hx). reflexivity.
  - intros Hx Hy. apply double_nonneg, Qmult_le_0_compat; assumption.
Qed.

Lemma over_nonneg (a b : number) :
  nonNegative a -> nonNegative b -> nonNegative (over a b).
Proof.
  destruct a as [| s | x], b as [| t | y]; cbn [nonNegative over];
    try trivial.
  - intros -> Hy. rewrite (nonneg_not_negative y Hy). reflexivity.
  - intros _ _. apply Qle_refl.
  - intros Hx Hy. destruct (isZero y).
    + destruct (isZero x); [exact I |].
      cbn [nonNegative]. apply (nonneg_not_negative x Hx).
    + apply double_nonneg, Qmult_le_0_compat; [assumption |].
      apply Qinv_le_0_compat, Hy.
Qed.

Lemma round_nonneg (a : number) : nonNegative a -> nonNegative (Math_round a).
Proof.
  destruct a as [| s | q]; [trivial | trivial |].
  cbn [nonNegative Math_round]. intros Hq.
  change 0%Q with (inject_Z 0). rewrite <- Zle_Qle.
  change 0%Z with (Qfloor 0). apply Qfloor_resp_le.
  apply Qle_trans with q; [exact Hq |].
  rewrite <- (Qplus_0_r q) at 1. apply Qplus_le_r. discriminate.
Qed.

Lemma rates_nonneg :
  nonNegative KES_TO_USD_RATE /\ nonNegative USD_TO_KES_RATE.
Proof. split; apply double_nonneg; discriminate. Qed.

Lemma whole_nonneg (z : Z) : (0 <= z)%Z -> nonNegative (Fin (z # 1)).
Proof. intros H. unfold nonNegative, Qle. cbn [Qnum Qden]. lia. Qed.

Lemma scaledAmount_nonneg (cleaned : str) (a : number) :
  scaledAmount cleaned = Some a -> nonNegative a.
Proof.
  unfold scaledAmount. destruct (matchNumber cleaned) as [m |]; [| discriminate].
  intros [= <-].
  case_conditions;
    try (apply times_nonneg; [| apply whole_nonneg; lia]);
    apply parseFloat_nonneg.
Qed.

(** X6. Whatever the input and the target currency, the result carries
    the target currency, and its amount, when there is one, is never
    negative: a minus sign in the text is not part of the number, so
    "-500" has the amount 500. *)
Theorem amount_never_negative :
  forall (v : value) (targetCurrency : str),
    currency (normalizePrice v targetCurrency) = targetCurrency
    /\ (forall a, amount (normalizePrice v targetCurrency) = Some a ->
                  nonNegative a)
    /\ amount (normalizePrice (VStr "-500") "KES")
       = Some (Fin (inject_Z 500)).
Proof.
  intros v t. unfold normalizePrice.
  destruct (truthy v); cbn [negb];
    [| split; [reflexivity | split; [discriminate | reflexivity]]].
  destruct (cleanPrice (trim (ToString v))) as [c src].
  split; [reflexivity |]. split; [| reflexivity].
  cbn [amount]. intros a.
  destruct (scaledAmount c) as [a0 |] eqn:E; [| discriminate].
  apply scaledAmount_nonneg in E.
  destruct (negb (eqs src t)); [| intros [= <-]; exact E].
  destruct (eqs src "KES" && eqs t "USD").
  { intros [= <-]. apply over_nonneg; [| apply whole_nonneg; lia].
    apply round_nonneg, times_nonneg; [| apply whole_nonneg; lia].
    apply times_nonneg; [exact E | apply rates_nonneg]. }
  destruct (eqs src "USD" && eqs t "KES"); intros [= <-]; [| exact E].
  apply round_nonneg, times_nonneg; [exact E | apply rates_nonneg].
Qed.

Lemma amount_never_negative_witness :
  amount (normalizePrice (VStr "$1000") "KES") = Some (Fin (inject_Z 156250))
  /\ nonNegative (Fin (inject_Z 156250)).
Proof.
  split; [vm_compute; reflexivity |].
  apply (proj1 (proj2 (amount_never_negative (VStr "$1000") "KES"))).
  vm_compute. reflexivity.
Defined.

(* ================================================================== *)
(** ** Sizes *)
(* ================================================================== *)

Lemma unitText_app (a b : str) : unitText (a ++ b) = unitText a ++ unitText b.
Proof. unfold unitText, toLowerCase. rewrite !filter_app, map_app. reflexivity. Qed.

Lemma unitText_spaces (ws : str) : forallb isSpace ws = true -> unitText ws = [].
Proof.
  induction ws as [|c ws IH]; [reflexivity |]. cbn [forallb].
  intros H. apply andb_prop in H. destruct H as [Hc Hws].
  change (c :: ws) with ([c] ++ ws). rewrite unitText_app, (IH Hws), app_nil_r.
  unfold unitText. cbn [filter].
  destruct (negb (Ascii.eqb c ".")); cbn [filter]; rewrite ?Hc; reflexivity.
Qed.

(** A character that matches a unit letter, letter case ignored, is that
    letter once normalised. *)
Lemma unit_letter_matched (a b : ascii) :
  unitLetter a = true ->
  Ascii.eqb (upperChar a) (upperChar b) = true ->
  unitText [b] = [a].
Proof.
  intros Ha. unfold unitLetter in Ha. apply existsb_exists in Ha.
  destruct Ha as (x & Hx & E). apply Ascii.eqb_eq in E. subst x.
  cbn in Hx.
  repeat (destruct Hx as [<- | Hx]; [by_char b |]). contradiction.
Qed.

Lemma startsWithCI_unit (p : str) : forall r : str,
  forallb unitLetter p = true -> startsWithCI r p = true ->
  exists t rest, r = t ++ rest /\ List.length t = List.length p
                 /\ unitText t = p.
Proof.
  induction p as [|a p IH]; intros r Hp H.
  - exists [], r. repeat split.
  - cbn [forallb] in Hp. apply andb_prop in Hp. destruct Hp as [Ha Hp].
    cbn [startsWithCI] in H. destruct r as [|b r]; [discriminate |].
    apply andb_prop in H. destruct H as [Hab H].
    destruct (IH r Hp H) as (t & rest & -> & L & U).
    exists (b :: t), rest. split; [reflexivity |]. split; [cbn; lia |].
    change (b :: t) with ([b] ++ t).
    rewrite unitText_app, U, (unit_letter_matched a b Ha Hab). reflexivity.
Qed.

Lemma firstn_prefix (t rest : str) (n : nat) :
  List.length t = n -> firstn n (t ++ rest) = t.
Proof.
  intros <-. rewrite firstn_app, Nat.sub_diag, firstn_all. cbn.
  apply app_nil_r.
Qed.

Lemma skipn_prefix (t rest : str) (n : nat) :
  List.length t = n -> skipn n (t ++ rest) = rest.
Proof.
  intros <-. rewrite skipn_app, skipn_all, Nat.sub_diag. reflexivity.
Qed.

Lemma span_spaces (s : str) :
  s = takeWhile isSpace s ++ dropWhile isSpace s
  /\ forallb isSpace (takeWhile isSpace s) = true.
Proof.
  induction s as [|c s [IH1 IH2]]; [split; reflexivity |].
  cbn [takeWhile dropWhile]. destruct (isSpace c) eqn:E;
    [| split; reflexivity].
  cbn [app forallb]. rewrite E, IH2. split; [f_equal; exact IH1 | reflexivity].
Qed.

(** What [sq\.?\s*ft] and [sq\.?\s*m] match is normalised to the letters
    alone. *)
Lemma matchSq_unit (s tail : str) (n : nat) :
  forallb unitLetter tail = true ->
  matchSq s tail = Some n ->
  unitText (firstn n s) = lit "sq" ++ tail.
Proof.
  intros Ht. unfold matchSq.
  destruct (startsWithCI s "sq") eqn:E; [| discriminate].
  destruct (startsWithCI_unit (lit "sq") s eq_refl E) as (t & r & -> & L & U).
  rewrite (skipn_prefix t r 2 L). cbv zeta. intros H.
  assert (D : exists d r1 : str,
             r = d ++ r1 /\ unitText d = []
             /\ startsWithCI (dropWhile isSpace r1) tail = true
             /\ n = (2 + List.length d + List.length (takeWhile isSpace r1)
                     + List.length tail)%nat).
  { destruct r as [|c r'].
    - exists [], []. cbn [skipn] in H.
      destruct (startsWithCI (dropWhile isSpace []) tail); [| discriminate].
      injection H as <-. repeat split.
    - destruct (Ascii.eqb c ".") eqn:Ec.
      + apply Ascii.eqb_eq in Ec. subst c. exists ["."%char], r'.
        cbn [skipn] in H.
        destruct (startsWithCI (dropWhile isSpace r') tail); [| discriminate].
        injection H as <-. repeat split.
      + exists [], (c :: r').
        destruct (startsWithCI (dropWhile isSpace (c :: r')) tail);
          [| discriminate].
        injection H as <-. repeat split. }
  destruct D as (d & r1 & -> & Ud & E2 & ->).
  destruct (startsWithCI_unit tail _ Ht E2) as (t2 & r3 & E3 & L2 & U2).
  destruct (span_spaces r1) as [S1 S2].
  rewrite S1 at 2. rewrite E3, !app_assoc.
  rewrite firstn_prefix by (rewrite !length_app, L, L2; cbn; lia).
  rewrite !unitText_app, U, Ud, U2, (unitText_spaces _ S2). reflexivity.
Qed.

Lemma optional_s_unit (s p : str) (k : nat) :
  forallb unitLetter p = true -> List.length p = k ->
  startsWithCI s p = true ->
  unitText (firstn (if startsWithCI (skipn k s) "s" then S k else k) s)
  = p ++ (if startsWithCI (skipn k s) "s" then lit "s" else []).
Proof.
  intros Hp L E. destruct (startsWithCI_unit _ s Hp E) as (t & r & -> & Lt & U).
  rewrite (skipn_prefix t r k) by congruence.
  destruct (startsWithCI r "s") eqn:Es.
  - destruct (startsWithCI_unit (lit "s") r eq_refl Es) as (t2 & r3 & -> & L2 & U2).
    rewrite app_assoc, firstn_prefix
      by (rewrite length_app, L2; cbn [lit list_ascii_of_string List.length]; lia).
    rewrite unitText_app, U, U2. reflexivity.
  - rewrite firstn_prefix by congruence. rewrite U, app_nil_r. reflexivity.
Qed.

(** Every text the unit alternatives match is normalised to one of the
    six units. *)
Lemma matchUnitAt_unit (s : str) (n : nat) :
  matchUnitAt s = Some n -> In (unitText (firstn n s)) sizeUnits.
Proof.
  unfold matchUnitAt.
  destruct (startsWithCI s "sqft") eqn:E1.
  { intros [= <-].
    destruct (startsWithCI_unit (lit "sqft") s eq_refl E1) as (t & r & -> & L & U).
    rewrite firstn_prefix by exact L. rewrite U. in_literal. }
  destruct (matchSq s "ft") as [k |] eqn:E2.
  { intros [= <-]. rewrite (matchSq_unit s (lit "ft") k eq_refl E2). in_literal. }
  destruct (startsWithCI s "sqm") eqn:E3.
  { intros [= <-].
    destruct (startsWithCI_unit (lit "sqm") s eq_refl E3) as (t & r & -> & L & U).
    rewrite firstn_prefix by exact L. rewrite U. in_literal. }
  destruct (matchSq s "m") as [k |] eqn:E4.
  { intros [= <-]. rewrite (matchSq_unit s (lit "m") k eq_refl E4). in_literal. }
  destruct (startsWithCI s "acre") eqn:E5.
  { intros [= <-].
    change (In (unitText (firstn (if startsWithCI (skipn 4 s) "s"
                                  then 5 else 4)%nat s)) sizeUnits).
    rewrite (optional_s_unit s (lit "acre") 4 eq_refl eq_refl E5).
    destruct (startsWithCI (skipn 4 s) "s"); in_literal. }
  destruct (startsWithCI s "hectare") eqn:E6; [| discriminate].
  intros [= <-].
  change (In (unitText (firstn (if startsWithCI (skipn 7 s) "s"
                                then 8 else 7)%nat s)) sizeUnits).
  rewrite (optional_s_unit s (lit "hectare") 7 eq_refl eq_refl E6).
  destruct (startsWithCI (skipn 7 s) "s"); in_literal.
Qed.

Lemma firstSize_unit (s number unit : str) :
  firstSize s = Some (number, unit) -> In (unitText unit) sizeUnits.
Proof.
  induction s as [|c s IH]; cbn [firstSize].
  - destruct (matchSizeAt []) eqn:E; [| discriminate].
    unfold matchSizeAt in E. discriminate E.
  - destruct (matchSizeAt (c :: s)) as [m |] eqn:E; [| exact IH].
    intros [= ->]. unfold matchSizeAt in E.
    destruct (takeWhile isSizeChar (c :: s)); [discriminate |].
    destruct (matchUnitAt _) as [n |] eqn:M; [| discriminate].
    injection E as _ <-. apply matchUnitAt_unit, M.
Qed.

(** X7. Whatever the input of [parseSize]: value and unit are null
    together; the unit, when there is one, is one of sqft, sqm, acre, acres,
    hectare, hectares; the value, when there is one, is not negative; and a
    falsy input gives no size. *)
Theorem parseSize_units :
  forall v : value,
    (size_value (parseSize v) = None <-> size_unit (parseSize v) = None)
    /\ (forall u, size_unit (parseSize v) = Some u -> In u sizeUnits)
    /\ (forall a, size_value (parseSize v) = Some a -> nonNegative a)
    /\ (truthy v = false -> parseSize v = noSize).
Proof.
  intros v. unfold parseSize.
  destruct (truthy v); cbn [negb].
  - destruct (firstSize (toLowerCase (ToString v))) as [[number unit] |] eqn:E;
      cbn [size_value size_unit].
    + split; [split; discriminate |]. split; [| split; [| discriminate]].
      * intros u [= <-]. apply (firstSize_unit _ _ _ E).
      * intros a [= <-]. apply parseFloat_nonneg.
    + split; [split; reflexivity |].
      split; [discriminate | split; [discriminate | discriminate]].
  - split; [split; reflexivity |].
    split; [discriminate | split; [discriminate | reflexivity]].
Qed.

Lemma parseSize_units_witness :
  In (lit "sqft") sizeUnits /\ parseSize (VStr "") = noSize.
Proof.
  split.
  - apply (proj1 (proj2 (parseSize_units (VStr "approx. 1,200 Sq. Ft")))).
    reflexivity.
  - apply (proj2 (proj2 (proj2 (parseSize_units (VStr ""))))). reflexivity.
Defined.

Lemma lower_digit (c : ascii) : isDigit c = true -> lowerChar c = c.
Proof. by_char c. Qed.

Lemma lower_space (c : ascii) : isSpace c = true -> lowerChar c = c.
Proof. by_char c. Qed.

Lemma lower_not_size (c : ascii) :
  isSizeChar c = false -> isSizeChar (lowerChar c) = false.
Proof. by_char c. Qed.

Lemma space_not_size (c : ascii) : isSpace c = true -> isSizeChar c = false.
Proof. by_char c. Qed.

Lemma digit_isSizeChar (c : ascii) : isDigit c = true -> isSizeChar c = true.
Proof. by_char c. Qed.

Lemma digit_not_comma (c : ascii) :
  isDigit c = true -> negb (Ascii.eqb c ",") = true.
Proof. by_char c. Qed.

Lemma lower_digits (D : str) : forallb isDigit D = true -> toLowerCase D = D.
Proof.
  induction D as [|c D IH]; [reflexivity |]. cbn [forallb].
  intros H. apply andb_prop in H. destruct H as [Hc HD].
  cbn [toLowerCase map]. rewrite (lower_digit c Hc). f_equal. apply IH, HD.
Qed.

Lemma lower_spaces (ws : str) : forallb isSpace ws = true -> toLowerCase ws = ws.
Proof.
  induction ws as [|c ws IH]; [reflexivity |]. cbn [forallb].
  intros H. apply andb_prop in H. destruct H as [Hc Hws].
  cbn [toLowerCase map]. rewrite (lower_space c Hc). f_equal. apply IH, Hws.
Qed.

Lemma toLowerCase_app (a b : str) :
  toLowerCase (a ++ b) = toLowerCase a ++ toLowerCase b.
Proof. apply map_app. Qed.

Lemma lower_groups (groups : list str) :
  forallb digitGroup groups = true ->
  toLowerCase (joinCommas groups) = joinCommas groups.
Proof.
  induction groups as [|g rest IH]; [reflexivity |]. cbn [forallb].
  intros H. apply andb_prop in H. destruct H as [Hg Hrest].
  unfold digitGroup in Hg. apply andb_prop in Hg. destruct Hg as [_ Hg].
  cbn [joinCommas]. destruct rest as [|g' rest'].
  - apply lower_digits, Hg.
  - rewrite toLowerCase_app, (lower_digits g Hg). f_equal.
    change (toLowerCase (","%char :: ?x)) with (","%char :: toLowerCase x).
    f_equal. apply IH, Hrest.
Qed.

Lemma digits_size (D : str) :
  forallb isDigit D = true -> forallb isSizeChar D = true.
Proof.
  intros H. apply forallb_forall. intros c Hc.
  rewrite forallb_forall in H. apply digit_isSizeChar, H, Hc.
Qed.

Lemma groups_size (groups : list str) :
  forallb digitGroup groups = true ->
  forallb isSizeChar (joinCommas groups) = true.
Proof.
  induction groups as [|g rest IH]; [reflexivity |]. cbn [forallb].
  intros H. apply andb_prop in H. destruct H as [Hg Hrest].
  unfold digitGroup in Hg. apply andb_prop in Hg. destruct Hg as [_ Hg].
  cbn [joinCommas]. destruct rest as [|g' rest'].
  - apply digits_size, Hg.
  - rewrite forallb_app, (digits_size g Hg). cbn [forallb andb].
    rewrite (IH Hrest). reflexivity.
Qed.

Lemma uncomma_digits (D : str) :
  forallb isDigit D = true ->
  filter (fun c => negb (Ascii.eqb c ",")) D = D.
Proof.
  induction D as [|c D IH]; [reflexivity |]. cbn [forallb].
  intros H. apply andb_prop in H. destruct H as [Hc HD].
  cbn [filter]. rewrite (digit_not_comma c Hc). f_equal. apply IH, HD.
Qed.

Lemma uncomma_groups (groups : list str) :
  forallb digitGroup groups = true ->
  filter (fun c => negb (Ascii.eqb c ",")) (joinCommas groups)
  = List.concat groups.
Proof.
  induction groups as [|g rest IH]; [reflexivity |]. cbn [forallb].
  intros H. apply andb_prop in H. destruct H as [Hg Hrest].
  unfold digitGroup in Hg. apply andb_prop in Hg. destruct Hg as [_ Hg].
  cbn [joinCommas List.concat]. destruct rest as [|g' rest'].
  - cbn [List.concat]. rewrite app_nil_r. apply uncomma_digits, Hg.
  - rewrite filter_app, (uncomma_digits g Hg). f_equal.
    cbn [filter Ascii.eqb]. apply IH, Hrest.
Qed.

Lemma takeWhile_all (p : ascii -> bool) (a b : str) :
  forallb p a = true ->
  takeWhile p (a ++ b) = a ++ takeWhile p b
  /\ dropWhile p (a ++ b) = dropWhile p b.
Proof.
  induction a as [|c a IH]; [split; reflexivity |]. cbn [forallb].
  intros H. apply andb_prop in H. destruct H as [Hc Ha].
  destruct (IH Ha) as [E1 E2]. cbn [app takeWhile dropWhile].
  rewrite Hc, E1, E2. split; reflexivity.
Qed.

(** Text without digits, commas and dots cannot start a size. *)
Lemma firstSize_skip (pre s : str) :
  forallb (fun c => negb (isSizeChar c)) pre = true ->
  firstSize (pre ++ s) = firstSize s.
Proof.
  induction pre as [|c pre IH]; [reflexivity |]. cbn [forallb].
  intros H. apply andb_prop in H. destruct H as [Hc Hpre].
  apply negb_true_iff in Hc.
  cbn [app firstSize]. unfold matchSizeAt at 1. cbn [takeWhile].
  rewrite Hc. apply IH, Hpre.
Qed.

Lemma lower_prefix (pre : str) :
  forallb (fun c => negb (isSizeChar c)) pre = true ->
  forallb (fun c => negb (isSizeChar c)) (toLowerCase pre) = true.
Proof.
  induction pre as [|c pre IH]; [reflexivity |]. cbn [forallb].
  intros H. apply andb_prop in H. destruct H as [Hc Hpre].
  apply negb_true_iff in Hc.
  cbn [toLowerCase map forallb]. rewrite (lower_not_size c Hc).
  apply IH, Hpre.
Qed.

(** A unit written out, after optional white space: the size characters
    stop before it and the whole of it is matched. *)
Lemma unit_after_spaces (ws U : str) :
  forallb isSpace ws = true -> In U sizeUnits ->
  takeWhile isSizeChar (ws ++ U) = []
  /\ dropWhile isSizeChar (ws ++ U) = ws ++ U
  /\ dropWhile isSpace (ws ++ U) = U
  /\ matchUnitAt U = Some (List.length U)
  /\ unitText U = U.
Proof.
  intros Hws HU.
  assert (HU' : takeWhile isSizeChar U = [] /\ dropWhile isSizeChar U = U
                /\ dropWhile isSpace U = U
                /\ matchUnitAt U = Some (List.length U) /\ unitText U = U).
  { cbn in HU.
    repeat (destruct HU as [<- | HU]; [repeat split; reflexivity |]).
    contradiction. }
  destruct HU' as (T & D & S & M & N).
  split; [| split; [| split; [| split; assumption]]].
  - destruct ws as [|c ws]; [exact T |]. cbn [forallb] in Hws.
    apply andb_prop in Hws. destruct Hws as [Hc _].
    cbn [app takeWhile]. rewrite (space_not_size c Hc). reflexivity.
  - destruct ws as [|c ws]; [exact D |]. cbn [forallb] in Hws.
    apply andb_prop in Hws. destruct Hws as [Hc _].
    cbn [app dropWhile]. rewrite (space_not_size c Hc). reflexivity.
  - rewrite (proj2 (takeWhile_all isSpace ws U Hws)). exact S.
Qed.

(** X8. A size text made of digit groups separated by commas, optional
    white space and one of the six units in any letter case, after any
    text without digits, commas and dots: [parseSize] returns the double
    nearest to the integer the digits denote, which is that integer itself
    when it is a safe integer, and the unit in lower case. *)
Theorem parseSize_exact :
  forall (pre : str) (groups : list str) (ws u : str),
    forallb (fun c => negb (isSizeChar c)) pre = true ->
    groups <> [] -> forallb digitGroup groups = true ->
    forallb isSpace ws = true ->
    In (toLowerCase u) sizeUnits ->
    let n := digitsValue (List.concat groups) in
    parseSize (VStr (pre ++ joinCommas groups ++ ws ++ u))
    = {| size_value := Some (double (inject_Z n));
         size_unit := Some (toLowerCase u) |}
    /\ (safeInteger n ->
        parseSize (VStr (pre ++ joinCommas groups ++ ws ++ u))
        = {| size_value := Some (Fin (inject_Z n));
             size_unit := Some (toLowerCase u) |}).
Proof.
  intros pre groups ws u Hpre Hne Hg Hws Hu n.
  assert (A : parseSize (VStr (pre ++ joinCommas groups ++ ws ++ u))
              = {| size_value := Some (double (inject_Z n));
                   size_unit := Some (toLowerCase u) |});
    [| split; [exact A |];
       intros S; rewrite A, (double_whole n (safe_below n S)); reflexivity].
  subst n.
  destruct (groups_nonempty groups Hne Hg) as (d & D & E).
  pose proof (groups_digits groups Hg) as HD. rewrite E in HD.
  cbn [forallb] in HD. apply andb_prop in HD. destruct HD as [Hd HD].
  pose proof (uncomma_groups groups Hg) as HJ.
  pose proof (groups_size groups Hg) as HS.
  destruct (unit_after_spaces ws (toLowerCase u) Hws Hu)
    as (T & Dr & Sp & M & N).
  assert (NE : exists j J, joinCommas groups = j :: J).
  { destruct (joinCommas groups) as [|j J]; [| exists j, J; reflexivity].
    cbn in HJ. congruence. }
  destruct NE as (j & J & EJ).
  unfold parseSize.
  replace (truthy (VStr (pre ++ joinCommas groups ++ ws ++ u))) with true
    by (rewrite EJ; destruct pre; reflexivity).
  cbn [negb ToString]. cbv zeta.
  rewrite !toLowerCase_app, (lower_groups groups Hg), (lower_spaces ws Hws).
  rewrite (firstSize_skip _ _ (lower_prefix pre Hpre)).
  destruct (takeWhile_all isSizeChar (joinCommas groups)
              (ws ++ toLowerCase u) HS) as [E1 E2].
  rewrite T, app_nil_r in E1. rewrite Dr in E2.
  assert (F : firstSize (joinCommas groups ++ ws ++ toLowerCase u)
              = Some (joinCommas groups, toLowerCase u)).
  { rewrite EJ in E1, E2 |- *. cbn [app] in E1, E2 |- *. cbn [firstSize].
    unfold matchSizeAt. rewrite E1, E2, Sp, M, firstn_all. reflexivity. }
  rewrite F, HJ, E, (parseFloat_digits d D Hd HD).
  change (toLowerCase (filter (fun c => negb (isSpace c))
            (filter (fun c => negb (Ascii.eqb c ".")) (toLowerCase u))))
    with (unitText (toLowerCase u)).
  rewrite N. reflexivity.
Qed.

Lemma parseSize_exact_witness :
  parseSize (VStr "Plot size: 1,500 SqFt")
  = {| size_value := Some (Fin (inject_Z 1500));
       size_unit := Some (lit "sqft") |}.
Proof.
  refine (proj2 (parseSize_exact (lit "Plot size: ") (lits ["1"; "500"])
                   (lit " ") (lit "SqFt") _ _ _ _ _) _);
    solve [reflexivity | discriminate | in_literal
          | unfold safeInteger; vm_compute; discriminate].
Defined.

(* ================================================================== *)
(** ** Images, contacts and text fields *)
(* ================================================================== *)

Lemma normalizeImages_app (vs ws : list value) :
  normalizeImages (ImagesArray (vs ++ ws))
  = normalizeImages (ImagesArray vs) ++ normalizeImages (ImagesArray ws).
Proof.
  unfold normalizeImages. rewrite flat_map_app, map_app, filter_app.
  reflexivity.
Qed.

Lemma normalizeImages_http (i : imagesInput) :
  Forall (fun u => startsWith u "http" = true) (normalizeImages i).
Proof.
  unfold normalizeImages. apply Forall_forall. intros u H.
  apply filter_In in H. exact (proj2 H).
Qed.

Lemma normalizeImages_length (vs : list value) :
  List.length (normalizeImages (ImagesArray vs)) <= List.length vs.
Proof.
  induction vs as [|v vs IH]; [cbn; lia |].
  change (v :: vs) with ([v] ++ vs). rewrite normalizeImages_app, !length_app.
  apply Nat.add_le_mono; [| exact IH].
  unfold normalizeImages. cbn [flat_map List.length]. rewrite app_nil_r.
  destruct (stringEntry v); cbn [map filter List.length]; [| lia].
  destruct (startsWith _ _); cbn; lia.
Qed.

(** X9. Images are normalised one by one: the result for two arrays put
    together is the two results put together, a single value is treated as
    the array of itself, every URL returned starts with http, and no more
    URLs are returned than entries were given. *)
Theorem images_absolute_independent :
  forall (vs ws : list value) (v : value) (i : imagesInput),
    normalizeImages (ImagesArray (vs ++ ws))
    = normalizeImages (ImagesArray vs) ++ normalizeImages (ImagesArray ws)
    /\ normalizeImages (ImagesScalar v) = normalizeImages (ImagesArray [v])
    /\ Forall (fun u => startsWith u "http" = true) (normalizeImages i)
    /\ List.length (normalizeImages (ImagesArray vs)) <= List.length vs.
Proof.
  intros vs ws v i. split; [apply normalizeImages_app |].
  split; [| split; [apply normalizeImages_http | apply normalizeImages_length]].
  unfold normalizeImages. destruct (truthy v) eqn:T; [reflexivity |].
  destruct v as [| | b | z | s]; try reflexivity.
  destruct s; [reflexivity | discriminate T].
Qed.

Lemma lower_idem (c : ascii) : lowerChar (lowerChar c) = lowerChar c.
Proof. by_char c. Qed.

Lemma toLowerCase_idem (s : str) : toLowerCase (toLowerCase s) = toLowerCase s.
Proof.
  unfold toLowerCase. rewrite map_map. apply map_ext, lower_idem.
Qed.

Lemma matchEmailAt_at (s m : str) :
  matchEmailAt s = Some m -> In "@"%char m.
Proof.
  unfold matchEmailAt.
  destruct (takeWhile isEmailChar s) as [|l local]; [discriminate |].
  destruct (dropWhile isEmailChar s) as [|a r]; [discriminate |].
  destruct (Ascii.eqb a "@"); [| discriminate].
  destruct (lastDot 0 _); [| discriminate].
  intros [= <-]. apply (in_or_app (l :: local)). right. left. reflexivity.
Qed.

Lemma firstEmail_at (s m : str) : firstEmail s = Some m -> In "@"%char m.
Proof.
  induction s as [|c s IH]; cbn [firstEmail].
  - destruct (matchEmailAt []) eqn:E; [| discriminate].
    intros [= <-]. apply (matchEmailAt_at _ _ E).
  - destruct (matchEmailAt (c :: s)) eqn:E; [| exact IH].
    intros [= <-]. apply (matchEmailAt_at _ _ E).
Qed.

Lemma extractEmail_shape (s e : str) :
  extractEmail s = Some e -> toLowerCase e = e /\ In "@"%char e.
Proof.
  unfold extractEmail. destruct (isEmpty s); [discriminate |].
  destruct (firstEmail s) as [m |] eqn:E; [| discriminate].
  intros [= <-]. split; [apply toLowerCase_idem |].
  exact (in_map lowerChar m "@"%char (firstEmail_at s m E)).
Qed.

Lemma orField_filled (a b : option str) (s : str) :
  orField a b = Some s -> b = None -> s <> [].
Proof.
  unfold orField. destruct a as [x |]; [| intros H1 H2; congruence].
  destruct x; cbn [isEmpty]; [intros H1 H2; congruence |].
  intros [= <-] _. discriminate.
Qed.

(** X10. Whatever the contact given: the e-mail address returned, if any,
    is in lower case and contains an at sign; the WhatsApp number, if any,
    is a canonical +254 number; the name, if any, is not empty; and a
    contact given as a text has neither name nor WhatsApp number. *)
Theorem contact_fields_canonical :
  forall input : contactInput,
    (forall e, email (normalizeContact input) = Some e ->
               toLowerCase e = e /\ In "@"%char e)
    /\ (forall w, whatsapp (normalizeContact input) = Some w ->
                  canonicalPhone w = true)
    /\ (forall n, name (normalizeContact input) = Some n -> n <> [])
    /\ (forall s, name (normalizeContact (ContactString s)) = None
                  /\ whatsapp (normalizeContact (ContactString s)) = None).
Proof.
  intros input. split; [| split; [| split]].
  - intros e. destruct input as [| s | o]; cbn [normalizeContact email].
    + discriminate.
    + destruct (isEmpty s); cbn [email]; [discriminate |].
      apply extractEmail_shape.
    + apply extractEmail_shape.
  - intros w. destruct input as [| s | o]; cbn [normalizeContact whatsapp].
    + discriminate.
    + destruct (isEmpty s); discriminate.
    + destruct (orField (cd_whatsapp o) None) as [t |]; [| discriminate].
      pose proof (extractPhoneNumbers_canonical t) as C.
      destruct (extractPhoneNumbers t) as [|p ps]; [discriminate |].
      cbn [hd_error forallb] in *. intros [= <-].
      apply andb_prop in C. exact (proj1 C).
  - intros n. destruct input as [| s | o]; cbn [normalizeContact name].
    + discriminate.
    + destruct (isEmpty s); discriminate.
    + intros H. exact (orField_filled _ _ _ H eq_refl).
  - intros s. cbn [normalizeContact]. destruct (isEmpty s); split; reflexivity.
Qed.

Lemma trimOrNull_trimmed (field : option str) (t : str) :
  trimOrNull field = Some t -> t <> [] /\ trim t = t.
Proof.
  unfold trimOrNull. destruct field as [s |]; [| discriminate].
  destruct (trim s) eqn:E; cbn [isEmpty]; [discriminate |].
  intros [= <-]. split; [discriminate |]. rewrite <- E. apply trim_idem.
Qed.

(** X11. In every normalised listing the title and the description are
    null or a text that is not empty and has no white space at either end;
    the identifier and the URL are null or not empty; and the source is the
    one given. *)
Theorem text_fields_trimmed :
  forall (rawListing : RawListing) (name currency : str),
    let l := normalizeListing rawListing name currency in
    (forall t, title l = Some t -> t <> [] /\ trim t = t)
    /\ (forall t, description l = Some t -> t <> [] /\ trim t = t)
    /\ (forall i, id l = Some i -> i <> [])
    /\ (forall u, url l = Some u -> u <> [])
    /\ source l = name.
Proof.
  intros raw name currency l. subst l. cbn [normalizeListing title description id url source].
  split; [intros t; apply trimOrNull_trimmed |].
  split; [intros t; apply trimOrNull_trimmed |].
  split; [| split; [| reflexivity]].
  - intros i H. exact (orField_filled _ _ _ H eq_refl).
  - intros u H. exact (orField_filled _ _ _ H eq_refl).
Qed.

(* ================================================================== *)
(** ** Listing identifiers *)
(* ================================================================== *)

Lemma span_stop (p : ascii -> bool) (b : str) (x : ascii) (X : str) :
  p x = false ->
  takeWhile p (b ++ x :: X) = takeWhile p b
  /\ dropWhile p (b ++ x :: X) = dropWhile p b ++ x :: X.
Proof.
  intros Hx. induction b as [|c b [IH1 IH2]]; cbn [app takeWhile dropWhile].
  - rewrite Hx. split; reflexivity.
  - destruct (p c); [rewrite IH1; split; [reflexivity | exact IH2] |].
    split; reflexivity.
Qed.

Lemma takeWhile_forallb (p : ascii -> bool) (s : str) :
  forallb p (takeWhile p s) = true.
Proof.
  induction s as [|c s IH]; [reflexivity |]. cbn [takeWhile].
  destruct (p c) eqn:E; [| reflexivity]. cbn [forallb]. rewrite E. exact IH.
Qed.

Lemma isEmpty_false (s : str) : isEmpty s = false <-> s <> [].
Proof. destruct s; cbn; split; congruence. Qed.

Section BuyRentKenyaId.
Import Crawler.BuyRentKenya.

Lemma brk_matchIdAt_digits (s i : str) :
  matchIdAt s = Some i -> i <> [] /\ forallb isDigit i = true.
Proof.
  unfold matchIdAt. destruct s as [|c r]; [discriminate |].
  destruct (Ascii.eqb c "/"); [| discriminate].
  destruct (negb (isEmpty (takeWhile isDigit r))) eqn:E; [| discriminate].
  destruct (isEmpty (dropWhile isDigit r) || eqs (dropWhile isDigit r) "/");
    [| discriminate].
  intros [= <-]. apply negb_true_iff, isEmpty_false in E.
  split; [exact E | apply takeWhile_forallb].
Qed.

Lemma brk_listingId_digits (u i : str) :
  listingId u = Some i -> i <> [] /\ forallb isDigit i = true.
Proof.
  induction u as [|c u IH]; cbn [listingId].
  - destruct (matchIdAt []) eqn:E; [| discriminate].
    intros [= <-]. apply (brk_matchIdAt_digits _ _ E).
  - destruct (matchIdAt (c :: u)) eqn:E; [| exact IH].
    intros [= <-]. apply (brk_matchIdAt_digits _ _ E).
Qed.

(** Before the last number of the path nothing matches: what follows an
    earlier run of digits is longer than one slash. *)
Lemma brk_no_early_match (c : ascii) (b ds t : str) :
  ds <> [] -> matchIdAt (c :: b ++ "/"%char :: ds ++ t) = None.
Proof.
  intros Hne. unfold matchIdAt. destruct (Ascii.eqb c "/"); [| reflexivity].
  destruct (span_stop isDigit b "/" (ds ++ t) eq_refl) as [_ ->].
  replace (isEmpty (dropWhile isDigit b ++ "/"%char :: ds ++ t)) with false
    by (destruct (dropWhile isDigit b); reflexivity).
  replace (eqs (dropWhile isDigit b ++ "/"%char :: ds ++ t) "/") with false.
  - rewrite andb_false_r. reflexivity.
  - symmetry. apply eqs_false. intros H. apply (f_equal (@List.length _)) in H.
    destruct ds; [congruence |].
    rewrite length_app in H. cbn in H. lia.
Qed.

Lemma brk_match_last (ds t : str) :
  ds <> [] -> forallb isDigit ds = true -> t = [] \/ t = lit "/" ->
  matchIdAt ("/"%char :: ds ++ t) = Some ds.
Proof.
  intros Hne Hd Ht. unfold matchIdAt. cbn [Ascii.eqb Bool.eqb].
  destruct (takeWhile_all isDigit ds t Hd) as [-> ->].
  destruct Ht as [-> | ->]; cbn [takeWhile dropWhile lit list_ascii_of_string];
    rewrite app_nil_r; destruct ds; [congruence | | congruence |]; reflexivity.
Qed.

Lemma brk_listingId_last (base ds t : str) :
  ds <> [] -> forallb isDigit ds = true -> t = [] \/ t = lit "/" ->
  listingId (base ++ "/"%char :: ds ++ t) = Some ds.
Proof.
  intros Hne Hd Ht. induction base as [|c b IH]; cbn [app listingId].
  - rewrite (brk_match_last ds t Hne Hd Ht). reflexivity.
  - rewrite (brk_no_early_match c b ds t Hne). exact IH.
Qed.

End BuyRentKenyaId.

(** X12. The BuyRentKenya identifier of a listing is the number its URL
    ends with: for a URL that ends in a slash, a non-empty run of digits
    and at most one more slash, whatever comes before, the identifier is
    that run; and an identifier, when there is one, is a non-empty run of
    digits. *)
Theorem brk_id_is_trailing_number :
  forall base ds : str,
    ds <> [] -> forallb isDigit ds = true ->
    Crawler.BuyRentKenya.listingId (base ++ lit "/" ++ ds) = Some ds
    /\ Crawler.BuyRentKenya.listingId (base ++ lit "/" ++ ds ++ lit "/")
       = Some ds
    /\ (forall u i, Crawler.BuyRentKenya.listingId u = Some i ->
                    i <> [] /\ forallb isDigit i = true).
Proof.
  intros base ds Hne Hd. split; [| split].
  - rewrite <- (app_nil_r ds) at 1.
    apply (brk_listingId_last base ds [] Hne Hd). left; reflexivity.
  - apply (brk_listingId_last base ds (lit "/") Hne Hd). right; reflexivity.
  - apply brk_listingId_digits.
Qed.

Lemma brk_id_is_trailing_number_witness :
  Crawler.BuyRentKenya.listingId
    (lit "https://www.buyrentkenya.com/listings/3-bed-house-karen" ++ lit "/"
     ++ lit "3612345")
  = Some (lit "3612345").
Proof.
  apply (brk_id_is_trailing_number
           (lit "https://www.buyrentkenya.com/listings/3-bed-house-karen")
           (lit "3612345")); [discriminate | reflexivity].
Defined.

Section JijiId.
Import Crawler.Jiji.

Lemma startsWith_stop (p a : str) (x : ascii) (X : str) :
  forallb (fun c => negb (Ascii.eqb c x)) p = true ->
  startsWith (a ++ x :: X) p = startsWith a p.
Proof.
  revert a. induction p as [|q p IH]; intros a H; [reflexivity |].
  cbn [forallb] in H. apply andb_prop in H. destruct H as [Hq Hp].
  apply negb_true_iff in Hq.
  destruct a as [|c a]; cbn [app startsWith].
  - rewrite Hq. reflexivity.
  - rewrite (IH a Hp). reflexivity.
Qed.

(** A slash that follows decides nothing about a match that starts
    earlier. *)
Lemma jiji_matchIdAt_before (c : ascii) (b X : str) :
  matchIdAt (c :: b ++ "/"%char :: X) = matchIdAt (c :: b).
Proof.
  unfold matchIdAt. destruct (Ascii.eqb c "/"); [| reflexivity].
  destruct (span_stop isDigit b "/" X eq_refl) as [-> ->].
  rewrite (startsWith_stop (lit ".html") _ "/" X eq_refl). reflexivity.
Qed.

Lemma jiji_matchId_before (base X : str) :
  matchId base = None -> matchId (base ++ "/"%char :: X) = matchId ("/"%char :: X).
Proof.
  induction base as [|c b IH]; [reflexivity |].
  cbn [app]. change (matchId (c :: b ++ "/"%char :: X))
    with (match matchIdAt (c :: b ++ "/"%char :: X) with
          | Some ds => Some ds
          | None => matchId (b ++ "/"%char :: X)
          end).
  change (matchId (c :: b))
    with (match matchIdAt (c :: b) with
          | Some ds => Some ds
          | None => matchId b
          end).
  rewrite jiji_matchIdAt_before.
  destruct (matchIdAt (c :: b)); [discriminate | exact IH].
Qed.

Lemma jiji_matchIdAt_digits (s i : str) :
  matchIdAt s = Some i -> i <> [] /\ forallb isDigit i = true.
Proof.
  unfold matchIdAt. destruct s as [|c r]; [discriminate |].
  destruct (Ascii.eqb c "/"); [| discriminate].
  destruct (negb (isEmpty (takeWhile isDigit r))) eqn:E; [| discriminate].
  destruct (startsWith (dropWhile isDigit r) ".html"); [| discriminate].
  intros [= <-]. apply negb_true_iff, isEmpty_false in E.
  split; [exact E | apply takeWhile_forallb].
Qed.

Lemma jiji_numbered (ds tail : str) :
  ds <> [] -> forallb isDigit ds = true ->
  matchId ("/"%char :: ds ++ lit ".html" ++ tail) = Some ds.
Proof.
  intros Hne Hd. cbn [matchId]. unfold matchIdAt. cbn [Ascii.eqb Bool.eqb].
  destruct (takeWhile_all isDigit ds (lit ".html" ++ tail) Hd) as [-> ->].
  cbn [lit list_ascii_of_string app takeWhile dropWhile isDigit].
  rewrite app_nil_r. destruct ds; [congruence | reflexivity].
Qed.

(** The characters of a file name: neither slash nor dot. *)
Lemma name_no_match (n : str) :
  forallb (fun c => negb (Ascii.eqb c "/") && negb (Ascii.eqb c ".")) n = true ->
  matchId (n ++ lit ".html") = None
  /\ split "/" (n ++ lit ".html") = [n ++ lit ".html"]
  /\ replaceFirst ".html" [] (n ++ lit ".html") = n.
Proof.
  induction n as [|c n IH]; [repeat split; reflexivity |].
  cbn [forallb]. intros H. apply andb_prop in H. destruct H as [Hc Hn].
  apply andb_prop in Hc. destruct Hc as [H1 H2].
  apply negb_true_iff in H1. apply negb_true_iff in H2.
  destruct (IH Hn) as (M & S & R). split; [| split].
  - cbn [app matchId]. unfold matchIdAt. rewrite H1. exact M.
  - cbn [app split]. rewrite H1, S. reflexivity.
  - cbn [app replaceFirst].
    replace (startsWith (c :: n ++ lit ".html") ".html") with false.
    + rewrite R. reflexivity.
    + cbn [lit list_ascii_of_string startsWith].
      rewrite Ascii.eqb_sym, H2. reflexivity.
Qed.

Lemma split_nonempty (sep : ascii) (s : str) : split sep s <> [].
Proof.
  destruct s as [|c s]; cbn [split]; [discriminate |].
  destruct (Ascii.eqb c sep); [discriminate |].
  destruct (split sep s); discriminate.
Qed.

Lemma split_app (sep : ascii) (b s : str) :
  split sep (b ++ sep :: s) = split sep b ++ split sep s.
Proof.
  induction b as [|c b IH]; cbn [app split].
  - rewrite Ascii.eqb_refl. reflexivity.
  - rewrite IH. destruct (Ascii.eqb c sep); [reflexivity |].
    pose proof (split_nonempty sep b) as N.
    destruct (split sep b); [congruence | reflexivity].
Qed.

Lemma lastSegment_after (base seg : str) :
  split "/" seg = [seg] -> lastSegment (base ++ "/"%char :: seg) = seg.
Proof.
  intros S. unfold lastSegment. rewrite split_app, S. apply last_last.
Qed.

Lemma jiji_named (n : str) :
  n <> [] ->
  forallb (fun c => negb (Ascii.eqb c "/") && negb (Ascii.eqb c ".")) n = true ->
  matchId ("/"%char :: n ++ lit ".html") = Some n
  \/ matchId ("/"%char :: n ++ lit ".html") = None.
Proof.
  intros Hne Hn. destruct (name_no_match n Hn) as (M & _ & _).
  cbn [matchId]. destruct (matchIdAt ("/"%char :: n ++ lit ".html")) as [ds |] eqn:E;
    [| right; exact M].
  left. f_equal. unfold matchIdAt in E. cbn [Ascii.eqb Bool.eqb] in E.
  destruct (negb (isEmpty (takeWhile isDigit (n ++ lit ".html")))); [| discriminate].
  destruct (startsWith (dropWhile isDigit (n ++ lit ".html")) ".html") eqn:W;
    [| discriminate].
  cbn [andb] in E. injection E as <-.
  clear M Hne. induction n as [|c n IH]; [reflexivity |].
  cbn [forallb] in Hn. apply andb_prop in Hn. destruct Hn as [Hc Hn].
  apply andb_prop in Hc. destruct Hc as [_ H2]. apply negb_true_iff in H2.
  cbn [app takeWhile dropWhile] in W |- *. destruct (isDigit c).
  - f_equal. apply (IH Hn W).
  - cbn [lit list_ascii_of_string startsWith] in W.
    rewrite Ascii.eqb_sym, H2 in W. discriminate W.
Qed.

End JijiId.

(** X13. The Jiji identifier of a listing: for a URL with a slash, a
    non-empty run of digits and [.html] after a part without such a
    number, the identifier is that run, whatever follows; for a URL that
    ends in a file name without dot and slash followed by [.html], it is
    the file name; and an identifier, when there is one, is not empty. *)
Theorem jiji_id_is_file_name :
  forall base n tail : str,
    Crawler.Jiji.matchId base = None ->
    n <> [] ->
    (forallb isDigit n = true ->
     Crawler.Jiji.listingId (base ++ lit "/" ++ n ++ lit ".html" ++ tail)
     = Some n)
    /\ (forallb (fun c => negb (Ascii.eqb c "/") && negb (Ascii.eqb c "."))
               n = true ->
        Crawler.Jiji.listingId (base ++ lit "/" ++ n ++ lit ".html") = Some n)
    /\ (forall u i, Crawler.Jiji.listingId u = Some i -> i <> []).
Proof.
  intros base n tail Hb Hne. split; [| split].
  - intros Hd. unfold Crawler.Jiji.listingId.
    change (base ++ lit "/" ++ n ++ lit ".html" ++ tail)
      with (base ++ "/"%char :: n ++ lit ".html" ++ tail).
    rewrite (jiji_matchId_before base _ Hb), (jiji_numbered n tail Hne Hd).
    reflexivity.
  - intros Hn. unfold Crawler.Jiji.listingId.
    change (base ++ lit "/" ++ n ++ lit ".html")
      with (base ++ "/"%char :: n ++ lit ".html").
    rewrite (jiji_matchId_before base _ Hb).
    destruct (jiji_named n Hne Hn) as [-> | ->]; [reflexivity |].
    destruct (name_no_match n Hn) as (_ & S & R).
    rewrite (lastSegment_after base _ S), R.
    destruct n; [congruence | reflexivity].
  - intros u i. unfold Crawler.Jiji.listingId.
    destruct (Crawler.Jiji.matchId u) as [ds |] eqn:E.
    + intros [= <-]. clear - E. induction u as [|c u IH]; cbn [Crawler.Jiji.matchId] in E.
      * destruct (Crawler.Jiji.matchIdAt []) eqn:M; [| discriminate].
        injection E as <-. apply (jiji_matchIdAt_digits _ _ M).
      * destruct (Crawler.Jiji.matchIdAt (c :: u)) eqn:M; [| exact (IH E)].
        injection E as <-. apply (jiji_matchIdAt_digits _ _ M).
    + destruct (replaceFirst ".html" [] (lastSegment u)); cbn [isEmpty];
        [discriminate | intros [= <-]; discriminate].
Qed.

Lemma jiji_id_is_file_name_witness :
  Crawler.Jiji.listingId
    (lit "https://jiji.co.ke/westlands/houses-apartments-for-rent" ++ lit "/"
     ++ lit "2bdrm-apartment-in-westlands-kXyZ12" ++ lit ".html")
  = Some (lit "2bdrm-apartment-in-westlands-kXyZ12").
Proof.
  apply (proj1 (proj2 (jiji_id_is_file_name
           (lit "https://jiji.co.ke/westlands/houses-apartments-for-rent")
           (lit "2bdrm-apartment-in-westlands-kXyZ12") []
           eq_refl ltac:(discriminate)))).
  reflexivity.
Defined.

(* ================================================================== *)
(** ** Search URLs *)
(* ================================================================== *)

Lemma lower_keeps_space (c : ascii) : isSpace (lowerChar c) = isSpace c.
Proof. by_char c. Qed.

Lemma hyphenate_noSpace (s : str) : forall inRun,
  noSpace (hyphenate inRun s) = true.
Proof.
  unfold noSpace. induction s as [|c s IH]; intros inRun; [reflexivity |].
  cbn [hyphenate]. destruct (isSpace c) eqn:E.
  - destruct inRun; [apply IH |]. cbn [forallb]. rewrite IH. reflexivity.
  - cbn [forallb]. rewrite E, IH. reflexivity.
Qed.

Lemma locationSuffix_noSpace (sep : ascii) (location : option str) :
  isSpace sep = false -> noSpace (locationSuffix sep location) = true.
Proof.
  intros Hs. unfold locationSuffix. destruct location as [l |]; [| reflexivity].
  destruct (isEmpty l); [reflexivity |].
  unfold noSpace. cbn [forallb]. rewrite Hs. apply hyphenate_noSpace.
Qed.

Lemma noSpace_app (a b : str) : noSpace (a ++ b) = noSpace a && noSpace b.
Proof. apply forallb_app. Qed.

Section SearchUrls.
Import Crawler.

Lemma brk_search_suffix (options : SearchOptions) (u : str) :
  BuyRentKenya.buildSearchUrl options = Some u ->
  exists path,
    u = BuyRentKenya.BASE_URL ++ "/"%char :: path
            ++ locationSuffix "-" (so_location options)
    /\ noSpace path = true.
Proof.
  unfold BuyRentKenya.buildSearchUrl.
  fold (locationSuffix "-" (so_location options)).
  assert (L : forall path : str,
             match so_location options with
             | Some l => if isEmpty l then path
                         else path ++ "-"%char :: locationSlug l
             | None => path
             end = path ++ locationSuffix "-" (so_location options)).
  { intros path. unfold locationSuffix.
    destruct (so_location options) as [l |]; [| symmetry; apply app_nil_r].
    destruct (isEmpty l); [symmetry; apply app_nil_r | reflexivity]. }
  cbv zeta. 
  destruct (so_listingType options) as [t |];
    [destruct (eqs t "sale"); [| destruct (eqs t "rent")] |];
    (destruct (so_propertyType options) as [p |];
     [destruct (negb (isEmpty p) && negb (eqs p "all"));
      [unfold BuyRentKenya.typeMap; case_conditions |] |]);
    try discriminate;
    intros [= <-]; rewrite L; eexists; (split; [reflexivity |]);
    reflexivity.
Qed.

Lemma jiji_search_suffix (options : SearchOptions) (u : str) :
  Jiji.buildSearchUrl options = Some u ->
  exists path,
    u = Jiji.BASE_URL ++ "/"%char :: path
            ++ locationSuffix "/" (so_location options)
    /\ noSpace path = true.
Proof.
  unfold Jiji.buildSearchUrl.
  assert (L : forall path : str,
             match so_location options with
             | Some l => if isEmpty l then path
                         else path ++ "/"%char :: locationSlug l
             | None => path
             end = path ++ locationSuffix "/" (so_location options)).
  { intros path. unfold locationSuffix.
    destruct (so_location options) as [l |]; [| symmetry; apply app_nil_r].
    destruct (isEmpty l); [symmetry; apply app_nil_r | reflexivity]. }
  cbv zeta. unfold Jiji.typePath, Jiji.typeMap.
  destruct (so_listingType options) as [t |];
    [destruct (eqs t "rent"); destruct (eqs t "sale") |];
    (destruct (so_propertyType options) as [p |];
     [destruct (negb (isEmpty p) && negb (eqs p "all")); cbn [orEmpty];
      [case_conditions |] |]);
    try discriminate;
    intros [= <-]; rewrite L; eexists; (split; [reflexivity |]);
    reflexivity.
Qed.

End SearchUrls.

Lemma search_url_exists (options : Crawler.SearchOptions) :
  (forall p, Crawler.so_propertyType options = Some p ->
             arrayIncludes Crawler.inheritedKeys p = false) ->
  Crawler.BuyRentKenya.buildSearchUrl options <> None
  /\ Crawler.Jiji.buildSearchUrl options <> None.
Proof.
  intros P.
  unfold Crawler.BuyRentKenya.buildSearchUrl, Crawler.Jiji.buildSearchUrl,
    Crawler.Jiji.typePath, Crawler.BuyRentKenya.typeMap, Crawler.Jiji.typeMap.
  cbv zeta.
  destruct (Crawler.so_propertyType options) as [p |].
  + pose proof (P p eq_refl) as Q. destruct p as [|c p];
      cbn [orEmpty orField isEmpty negb andb]; rewrite ?Q;
    split; case_conditions;
      repeat match goal with
             | |- context [match ?o with Some _ => _ | None => _ end] =>
                 destruct o
             end; discriminate.
  + split; case_conditions;
      repeat match goal with
             | |- context [match ?o with Some _ => _ | None => _ end] =>
                 destruct o
             end; case_conditions; discriminate.
Qed.

(** X14. For filters whose property type does not name a member that an
    object inherits, each site has a search URL; it is the site's base URL
    followed by a path, and it contains no white space: the white space
    of a location is turned into hyphens. *)
Theorem search_url_shape :
  forall options : Crawler.SearchOptions,
    (forall p, Crawler.so_propertyType options = Some p ->
               arrayIncludes Crawler.inheritedKeys p = false) ->
    exists u w : str,
      Crawler.BuyRentKenya.buildSearchUrl options = Some u
      /\ Crawler.Jiji.buildSearchUrl options = Some w
      /\ startsWith u (Crawler.BuyRentKenya.BASE_URL ++ lit "/") = true
      /\ noSpace u = true
      /\ startsWith w (Crawler.Jiji.BASE_URL ++ lit "/") = true
      /\ noSpace w = true.
Proof.
  intros options P. destruct (search_url_exists options P) as [NB NJ].
  destruct (Crawler.BuyRentKenya.buildSearchUrl options) as [u |] eqn:EB;
    [| congruence].
  destruct (Crawler.Jiji.buildSearchUrl options) as [w |] eqn:EJ;
    [| congruence].
  exists u, w. split; [reflexivity |]. split; [reflexivity |].
  destruct (brk_search_suffix options u EB) as (path & -> & N).
  destruct (jiji_search_suffix options w EJ) as (path' & -> & N').
  split; [reflexivity |]. split.
  - change (Crawler.BuyRentKenya.BASE_URL ++ "/"%char :: path
            ++ locationSuffix "-" (Crawler.so_location options))
      with ((Crawler.BuyRentKenya.BASE_URL ++ lit "/")
            ++ path ++ locationSuffix "-" (Crawler.so_location options)).
    rewrite !noSpace_app, N, locationSuffix_noSpace by reflexivity.
    reflexivity.
  - split; [reflexivity |].
    change (Crawler.Jiji.BASE_URL ++ "/"%char :: path'
            ++ locationSuffix "/" (Crawler.so_location options))
      with ((Crawler.Jiji.BASE_URL ++ lit "/")
            ++ path' ++ locationSuffix "/" (Crawler.so_location options)).
    rewrite !noSpace_app, N', locationSuffix_noSpace by reflexivity.
    reflexivity.
Qed.

Lemma search_url_shape_witness :
  exists u w : str,
    Crawler.BuyRentKenya.buildSearchUrl
      (searchOptions (Some (lit "rent")) (Some (lit "land"))
                     (Some (lit "Nakuru  Town"))) = Some u
    /\ Crawler.Jiji.buildSearchUrl
         (searchOptions (Some (lit "rent")) (Some (lit "land"))
                        (Some (lit "Nakuru  Town"))) = Some w
    /\ startsWith u (Crawler.BuyRentKenya.BASE_URL ++ lit "/") = true
    /\ noSpace u = true
    /\ startsWith w (Crawler.Jiji.BASE_URL ++ lit "/") = true
    /\ noSpace w = true.
Proof.
  apply (search_url_shape
           (searchOptions (Some (lit "rent")) (Some (lit "land"))
                          (Some (lit "Nakuru  Town")))).
  intros p [= <-]. reflexivity.
Defined.

Lemma location_added (sep : ascii) (location : option str) (path : str) :
  match location with
  | Some l => if isEmpty l then path
              else path ++ sep :: Crawler.locationSlug l
  | None => path
  end = path ++ locationSuffix sep location.
Proof.
  unfold locationSuffix.
  destruct location as [l |]; [| symmetry; apply app_nil_r].
  destruct (isEmpty l); [symmetry; apply app_nil_r | reflexivity].
Qed.

(** X15. The BuyRentKenya search URL.  For sale or rent and one of the
    four property types it is the base URL, the path segment of the type,
    [-for-sale] or [-for-rent], and the location in lower case with
    hyphens for white space.  A property type that is none of the four and
    names no inherited member counts as no property type.  Without sale or
    rent the path is [/property] and the property type is ignored. *)
Theorem brk_search_path :
  forall (t p seg : str) (location : option str),
    t = lit "sale" \/ t = lit "rent" ->
    Crawler.BuyRentKenya.typeMap p = Crawler.OwnSegment seg ->
    Crawler.BuyRentKenya.buildSearchUrl
      (searchOptions (Some t) (Some p) location)
    = Some (Crawler.BuyRentKenya.BASE_URL ++ lit "/" ++ seg ++ lit "-for-"
            ++ t ++ locationSuffix "-" location)
    /\ (forall listingType q,
          Crawler.BuyRentKenya.typeMap q = Crawler.NoSegment ->
          Crawler.BuyRentKenya.buildSearchUrl
            (searchOptions listingType (Some q) location)
          = Crawler.BuyRentKenya.buildSearchUrl
              (searchOptions listingType None location))
    /\ (forall listingType propertyType,
          listingType <> Some (lit "sale") ->
          listingType <> Some (lit "rent") ->
          Crawler.BuyRentKenya.buildSearchUrl
            (searchOptions listingType propertyType location)
          = Some (Crawler.BuyRentKenya.BASE_URL ++ lit "/property"
                  ++ locationSuffix "-" location)).
Proof.
  intros t p seg location Ht Hp. split; [| split].
  - unfold Crawler.BuyRentKenya.buildSearchUrl, searchOptions.
    cbn [Crawler.so_listingType Crawler.so_propertyType Crawler.so_location].
    cbv zeta. rewrite Hp.
    assert (Hne : negb (isEmpty p) && negb (eqs p "all") = true).
    { unfold Crawler.BuyRentKenya.typeMap in Hp.
      destruct p as [|c p]; [discriminate Hp |].
      destruct (eqs (c :: p) "all") eqn:E; [| reflexivity].
      apply eqs_true in E. rewrite E in Hp. discriminate Hp. }
    rewrite Hne, location_added.
    unfold Crawler.BuyRentKenya.typeMap in Hp.
    destruct Ht as [-> | ->];
      repeat match type of Hp with
             | (if ?b then _ else _) = _ => destruct b
             end; try discriminate Hp; injection Hp as <-; reflexivity.
  - intros listingType q Hq.
    unfold Crawler.BuyRentKenya.buildSearchUrl, searchOptions.
    cbn [Crawler.so_listingType Crawler.so_propertyType Crawler.so_location].
    cbv zeta. rewrite Hq.
    destruct (negb (isEmpty q) && negb (eqs q "all")); [| reflexivity].
    destruct listingType as [lt |]; [| reflexivity].
    destruct (eqs lt "sale"); [reflexivity |].
    destruct (eqs lt "rent"); reflexivity.
  - intros listingType propertyType H1 H2.
    unfold Crawler.BuyRentKenya.buildSearchUrl, searchOptions.
    cbn [Crawler.so_listingType Crawler.so_propertyType Crawler.so_location].
    cbv zeta.
    assert (E : match listingType with
                | Some t0 => if eqs t0 "sale" then lit "/houses-for-sale"
                             else if eqs t0 "rent" then lit "/houses-for-rent"
                             else lit "/property"
                | None => lit "/property"
                end = lit "/property").
    { destruct listingType as [lt |]; [| reflexivity].
      destruct (eqs lt "sale") eqn:E1;
        [apply eqs_true in E1; subst lt; congruence |].
      destruct (eqs lt "rent") eqn:E2;
        [apply eqs_true in E2; subst lt; congruence |]. reflexivity. }
    rewrite E.
    destruct propertyType as [q |]; [| rewrite location_added; reflexivity].
    destruct (negb (isEmpty q) && negb (eqs q "all"));
      [| rewrite location_added; reflexivity].
    destruct (Crawler.BuyRentKenya.typeMap q);
      rewrite <- (location_added "-" location (lit "/property"));
      reflexivity.
Qed.

Lemma brk_search_path_witness :
  Crawler.BuyRentKenya.buildSearchUrl
    (searchOptions (Some (lit "sale")) (Some (lit "apartment"))
                   (Some (lit "Nairobi  West")))
  = Some (lit "https://www.buyrentkenya.com/apartments-for-sale-nairobi-west").
Proof.
  apply (proj1 (brk_search_path (lit "sale") (lit "apartment")
                  (lit "apartments") (Some (lit "Nairobi  West"))
                  (or_introl eq_refl) eq_refl)).
Defined.

(** X16. The Jiji search URL.  For rent the path is
    [/houses-apartments-for-rent] whatever the property type.  Apartments
    for sale are searched under the same path as apartments for rent.
    Otherwise one of the four property types gives the path segment of its
    table entry, and the location is added after a slash. *)
Theorem jiji_search_path :
  forall (propertyType location : option str),
    Crawler.Jiji.buildSearchUrl
      (searchOptions (Some (lit "rent")) propertyType location)
    = Some (Crawler.Jiji.BASE_URL ++ lit "/houses-apartments-for-rent"
            ++ locationSuffix "/" location)
    /\ Crawler.Jiji.buildSearchUrl
         (searchOptions (Some (lit "sale")) (Some (lit "apartment")) location)
       = Crawler.Jiji.buildSearchUrl
           (searchOptions (Some (lit "rent")) (Some (lit "apartment"))
                          location)
    /\ (forall listingType p seg,
          listingType <> Some (lit "rent") ->
          Crawler.Jiji.typeMap p = Crawler.OwnSegment seg ->
          Crawler.Jiji.buildSearchUrl
            (searchOptions listingType (Some p) location)
          = Some (Crawler.Jiji.BASE_URL ++ lit "/" ++ seg
                  ++ locationSuffix "/" location)).
Proof.
  intros propertyType location. split; [| split].
  - unfold Crawler.Jiji.buildSearchUrl, searchOptions.
    cbn [Crawler.so_listingType Crawler.so_propertyType Crawler.so_location].
    cbv zeta. change (eqs (lit "rent") "rent") with true.
    destruct propertyType as [p |];
      [destruct (negb (isEmpty p) && negb (eqs p "all")) |];
      rewrite location_added; reflexivity.
  - unfold Crawler.Jiji.buildSearchUrl, searchOptions.
    cbn [Crawler.so_listingType Crawler.so_propertyType Crawler.so_location].
    cbv zeta. destruct location as [l |]; [destruct (isEmpty l) |]; reflexivity.
  - intros listingType p seg H Hp.
    unfold Crawler.Jiji.buildSearchUrl, searchOptions.
    cbn [Crawler.so_listingType Crawler.so_propertyType Crawler.so_location].
    cbv zeta.
    assert (Hne : negb (isEmpty p) && negb (eqs p "all") = true).
    { unfold Crawler.Jiji.typeMap in Hp.
      destruct p as [|c p]; [discriminate Hp |].
      destruct (eqs (c :: p) "all") eqn:E; [| reflexivity].
      apply eqs_true in E. rewrite E in Hp. discriminate Hp. }
    assert (HR : match listingType with
                 | Some t => eqs t "rent"
                 | None => false
                 end = false).
    { destruct listingType as [t |]; [| reflexivity].
      apply eqs_false. congruence. }
    rewrite Hne, HR.
    assert (O : orEmpty (Some p) = p).
    { destruct p; [discriminate Hne | reflexivity]. }
    rewrite O. unfold Crawler.Jiji.typePath. rewrite Hp.
    destruct (match listingType with
              | Some t => eqs t "sale"
              | None => false
              end); rewrite location_added; reflexivity.
Qed.

(* ================================================================== *)
(** ** What the crawlers collect *)
(* ================================================================== *)

Lemma firstDigits_shape (s ds : str) :
  firstDigits s = Some ds -> ds <> [] /\ forallb isDigit ds = true.
Proof.
  induction s as [|c s IH]; cbn [firstDigits]; [discriminate |].
  destruct (isDigit c) eqn:E; [| exact IH].
  intros [= <-]. cbn [takeWhile]. rewrite E. split; [discriminate |].
  cbn [forallb]. rewrite E. apply takeWhile_forallb.
Qed.

Lemma parseNumber_digits (ds : str) :
  ds <> [] -> forallb isDigit ds = true ->
  parseNumber (VStr ds) = Some (countOf ds).
Proof.
  intros Hne Hd. unfold parseNumber, countOf. cbn [ToString].
  apply read_number. rewrite <- (app_nil_r ds) at 1.
  exact (proj1 (parseInt_digits ds [] Hne Hd eq_refl)).
Qed.

Lemma or_else_text (s : str) (v : value) :
  s <> [] -> or_else (VStr s) v = VStr s.
Proof. destruct s; [congruence | reflexivity]. Qed.

(** A room count read off a run of digits. *)
Lemma rooms_counted (found : option str) :
  (forall ds, found = Some ds -> ds <> [] /\ forallb isDigit ds = true) ->
  parseNumber (or_else (match found with
                        | Some ds => VStr ds
                        | None => VNull
                        end) VUndefined)
  = option_map countOf found.
Proof.
  intros H. destruct found as [ds |]; [| reflexivity].
  destruct (H ds eq_refl) as [Hne Hd].
  rewrite (or_else_text ds _ Hne). apply parseNumber_digits; assumption.
Qed.

Section JijiAttributes.
Import Crawler.Jiji.

Lemma readAttribute_digits (a : Attributes) (text : str) :
  digitField (fst (fst a)) /\ digitField (snd (fst a)) ->
  digitField (fst (fst (readAttribute a text)))
  /\ digitField (snd (fst (readAttribute a text))).
Proof.
  destruct a as [[b t] s]. cbn [fst snd]. intros [Hb Ht].
  unfold readAttribute. case_conditions; cbn [fst snd];
    (split; [first [exact Hb | intros ds; apply firstDigits_shape]
            | first [exact Ht | intros ds; apply firstDigits_shape]]).
Qed.

Lemma attributes_digits (texts : list str) : forall a : Attributes,
  digitField (fst (fst a)) /\ digitField (snd (fst a)) ->
  digitField (fst (fst (fold_left readAttribute texts a)))
  /\ digitField (snd (fst (fold_left readAttribute texts a))).
Proof.
  induction texts as [|t texts IH]; intros a H; [exact H |].
  cbn [fold_left]. apply IH, readAttribute_digits, H.
Qed.

Lemma textOrNull_rooms (field : option str) :
  digitField field ->
  parseNumber (or_else (textOrNull field) VUndefined)
  = option_map countOf field.
Proof.
  intros H. destruct field as [ds |]; [| reflexivity].
  destruct (H ds eq_refl) as [Hne Hd]. unfold textOrNull.
  destruct ds as [|d ds]; [congruence |]. cbn [orField isEmpty].
  rewrite or_else_text by discriminate.
  apply parseNumber_digits; assumption.
Qed.

End JijiAttributes.

Lemma option_count_nonneg (found : option str) (n : number) :
  option_map countOf found = Some n -> nonNegative n.
Proof.
  destruct found as [ds |]; [| discriminate].
  intros [= <-]. apply double_nonneg.
  unfold Qle. cbn [inject_Z Qnum Qden].
  pose proof (digitsValue_nonneg ds). lia.
Qed.

Lemma countOf_safe (ds : str) :
  safeInteger (digitsValue ds) -> countOf ds = Fin (inject_Z (digitsValue ds)).
Proof. intros S. apply double_whole, safe_below, S. Qed.

(** X17. The features of a scraped listing.  On BuyRentKenya the numbers
    of bedrooms and bathrooms are read off the first run of digits in the
    text of their element, as the double nearest to the integer it
    denotes, which is that integer itself when it is a safe integer; they
    are null when the text has no digit.  On both sites a number of rooms
    is never negative, and parking and furnishing are never filled in. *)
Theorem scraped_rooms_counted :
  forall (page : Crawler.BuyRentKenya.Document)
         (item : Crawler.Jiji.Document) (url : str),
    let f := normalizeFeatures
               (snd (Crawler.BuyRentKenya.extractListingFromPage page url)) in
    let g := normalizeFeatures
               (snd (Crawler.Jiji.extractListingFromPage item url)) in
    bedrooms f
    = option_map countOf
        (firstDigits (Crawler.BuyRentKenya.bedroomsText page))
    /\ bathrooms f
       = option_map countOf
           (firstDigits (Crawler.BuyRentKenya.bathroomsText page))
    /\ (forall ds, safeInteger (digitsValue ds) ->
                   countOf ds = Fin (inject_Z (digitsValue ds)))
    /\ countOf "9007199254740993" = Fin (inject_Z 9007199254740992)
    /\ (forall n, bedrooms f = Some n \/ bathrooms f = Some n
                  \/ bedrooms g = Some n \/ bathrooms g = Some n ->
                  nonNegative n)
    /\ parking f = VNull /\ furnished f = VNull
    /\ parking g = VNull /\ furnished g = VNull.
Proof.
  intros page item url f g.
  assert (B : bedrooms f
              = option_map countOf
                  (firstDigits (Crawler.BuyRentKenya.bedroomsText page))).
  { apply rooms_counted. intros ds. apply firstDigits_shape. }
  assert (T : bathrooms f
              = option_map countOf
                  (firstDigits (Crawler.BuyRentKenya.bathroomsText page))).
  { apply rooms_counted. intros ds. apply firstDigits_shape. }
  destruct (attributes_digits (Crawler.Jiji.attributeTexts item)
              (None, None, None)) as [Gb Gt];
    [split; intros ds; discriminate |].
  assert (B' : bedrooms g
               = option_map countOf
                   (fst (fst (fold_left Crawler.Jiji.readAttribute
                                (Crawler.Jiji.attributeTexts item)
                                (None, None, None)))))
    by (apply textOrNull_rooms, Gb).
  assert (T' : bathrooms g
               = option_map countOf
                   (snd (fst (fold_left Crawler.Jiji.readAttribute
                                (Crawler.Jiji.attributeTexts item)
                                (None, None, None)))))
    by (apply textOrNull_rooms, Gt).
  split; [exact B |]. split; [exact T |].
  split; [exact countOf_safe |].
  split; [vm_compute; reflexivity |].
  split; [| repeat split].
  intros n [H | [H | [H | H]]].
  - rewrite B in H. apply (option_count_nonneg _ _ H).
  - rewrite T in H. apply (option_count_nonneg _ _ H).
  - rewrite B' in H. apply (option_count_nonneg _ _ H).
  - rewrite T' in H. apply (option_count_nonneg _ _ H).
Qed.

Lemma lower_filled (s : str) : s <> [] -> toLowerCase s <> [].
Proof. destruct s; [congruence | discriminate]. Qed.

Lemma typed_not_unknown (s : str) :
  s <> [] -> normalizePropertyType (or_else (VStr s) VUndefined)
             <> lit "unknown".
Proof.
  intros H. rewrite (or_else_text s _ H). unfold normalizePropertyType.
  replace (truthy (VStr s)) with true by (destruct s; [congruence | reflexivity]).
  cbn [negb]. case_conditions; discriminate.
Qed.

Lemma page_type_normalised (sale rent : bool) :
  normalizeListingType
    (or_else (if sale then VStr "sale"
              else if rent then VStr "rent" else VUndefined) VUndefined)
  = pageListingType sale rent.
Proof. destruct sale, rent; reflexivity. Qed.

(** X18. How a scraped listing is classified.  Its property type is never
    [unknown]: without text in the property-type element it is [house].
    Its listing type is [sale] when the page (on Jiji: the breadcrumb or
    the title) or the URL says for sale, else [rent] when it says for rent,
    else [unknown]; for sale wins when both are there. *)
Theorem scraped_classification :
  forall (page : Crawler.BuyRentKenya.Document)
         (item : Crawler.Jiji.Document) (url name currency : str),
    let l := normalizeListing
               (fst (Crawler.BuyRentKenya.extractListingFromPage page url))
               name currency in
    let m := normalizeListing
               (fst (Crawler.Jiji.extractListingFromPage item url))
               name currency in
    propertyType l <> lit "unknown"
    /\ propertyType m <> lit "unknown"
    /\ (Crawler.BuyRentKenya.propertyTypeText page = [] ->
        propertyType l = lit "house")
    /\ (Crawler.Jiji.categoryText item = [] -> propertyType m = lit "house")
    /\ listingType l
       = pageListingType
           (includes (toLowerCase (Crawler.BuyRentKenya.bodyText page))
                     "for sale" || includes url "for-sale")
           (includes (toLowerCase (Crawler.BuyRentKenya.bodyText page))
                     "for rent" || includes url "for-rent")
    /\ listingType m
       = (let title :=
            toLowerCase
              (Crawler.Jiji.orText (trim (Crawler.Jiji.titleText item))
                                   (Crawler.Jiji.ogTitle item)) in
          let breadcrumb := toLowerCase (Crawler.Jiji.breadcrumbText item) in
          pageListingType
            (includes breadcrumb "for-sale" || includes title "for sale")
            (includes breadcrumb "for-rent" || includes title "for rent")).
Proof.
  intros page item url name currency l m. subst l m.
  cbn [normalizeListing propertyType listingType
       Crawler.BuyRentKenya.extractListingFromPage
       Crawler.Jiji.extractListingFromPage fst
       raw_propertyType raw_category raw_listingType raw_type].
  split; [| split; [| split; [| split; [| split]]]].
  - apply typed_not_unknown.
    destruct (toLowerCase (Crawler.BuyRentKenya.propertyTypeText page));
      discriminate.
  - apply typed_not_unknown.
    destruct (toLowerCase (Crawler.Jiji.categoryText item)); discriminate.
  - intros ->. reflexivity.
  - intros ->. reflexivity.
  - apply page_type_normalised.
  - apply page_type_normalised.
Qed.

Lemma normalizePrice_currency (v : value) (targetCurrency : str) :
  currency (normalizePrice v targetCurrency) = targetCurrency.
Proof.
  unfold normalizePrice. destruct (truthy v); cbn [negb]; [| reflexivity].
  destruct (cleanPrice (trim (ToString v))). reflexivity.
Qed.

Lemma normalizeListing_normalised (rawListing : RawListing)
    (name targetCurrency : str) :
  normalisedFor name targetCurrency
    (normalizeListing rawListing name targetCurrency).
Proof.
  unfold normalisedFor.
  cbn [normalizeListing source price images contact listingType propertyType].
  split; [reflexivity |]. split; [apply normalizePrice_currency |].
  split; [| split; [| split]].
  - unfold normalizeImages, absoluteUrl. apply forallb_forall. intros u H.
    apply filter_In in H. exact (proj2 H).
  - rewrite normalizeContact_phone. apply extractPhoneNumbers_canonical.
  - apply listingType_listed.
  - apply propertyType_listed.
Qed.

Lemma handler_normalises (f : Main.Factory) (options : Crawler.Options)
    (st : Crawler.State) (request : Crawler.Request) (page : Crawler.Page) :
  Forall (normalisedFor (sourceName f) (Crawler.currency options))
         (Crawler.listings st) ->
  Forall (normalisedFor (sourceName f) (Crawler.currency options))
         (Crawler.listings (Main.handlerOf f options st request page)).
Proof.
  intros H.
  destruct f; cbn [Main.handlerOf sourceName];
    [unfold Crawler.BuyRentKenya.requestHandler
    | unfold Crawler.Jiji.requestHandler];
    (destruct (Crawler.label request); [exact H |]);
    (destruct (Crawler.maxListings options <=? Crawler.listingCount st);
     [exact H |]);
    cbn [Crawler.listings]; apply Forall_app; (split; [exact H |]);
    constructor; [| constructor | | constructor];
    apply normalizeListing_normalised.
Qed.

Lemma run_normalises (f : Main.Factory) (options : Crawler.Options)
    (events : list (Crawler.Request * Crawler.Page)) :
  forall st : Crawler.State,
    Forall (normalisedFor (sourceName f) (Crawler.currency options))
           (Crawler.listings st) ->
    Forall (normalisedFor (sourceName f) (Crawler.currency options))
           (Crawler.listings (Crawler.run (Main.handlerOf f) options events st)).
Proof.
  unfold Crawler.run. induction events as [|e events IH]; intros st H;
    [exact H |].
  cbn [fold_left]. apply IH, handler_normalises, H.
Qed.

(** X19. Every listing a crawler has collected, after whatever requests
    the engine completed, carries the name of the crawler's site and the
    requested currency, has only image URLs that start with http and only
    phone numbers in the canonical +254 form, and has a listing type and a
    property type of the fixed vocabularies. *)
Theorem crawl_listings_normalised :
  forall (f : Main.Factory) (options : Crawler.Options)
         (events : list (Crawler.Request * Crawler.Page)),
    Forall (normalisedFor (sourceName f) (Crawler.currency options))
           (Crawler.listings
              (Crawler.run (Main.handlerOf f) options events Crawler.initial)).
Proof.
  intros f options events. apply run_normalises. constructor.
Qed.

Lemma includes_after (p s needle : str) :
  includes s needle = true -> includes (p ++ s) needle = true.
Proof.
  intros H. induction p as [|c p IH]; [exact H |].
  cbn [app includes]. rewrite IH. apply orb_true_r.
Qed.

Lemma fold_links_invariant (P : str -> Prop)
    (visit : list str -> option str -> list str) :
  (forall links href, Forall P links -> Forall P (visit links href)) ->
  forall hrefs links, Forall P links -> Forall P (fold_left visit hrefs links).
Proof.
  intros V. induction hrefs as [|h hrefs IH]; intros links H; [exact H |].
  cbn [fold_left]. apply IH, V, H.
Qed.

(** X20. Every detail link a listing page hands over is an absolute URL:
    it starts with http, a relative link having been put after the base
    URL of the site.  On Jiji it also contains [/item/]. *)
Theorem detail_links_absolute :
  forall (options : Crawler.Options) (count : nat)
         (hrefs : list (option str)),
    Forall (fun u => absoluteUrl u = true)
           (Crawler.BuyRentKenya.collectLinks options count hrefs)
    /\ Forall (fun u => absoluteUrl u = true
                        /\ includes u "/item/" = true)
              (Crawler.Jiji.collectLinks options count hrefs)
    /\ (forall href,
          absoluteUrl href = false ->
          includes href "/item/" = true ->
          0 < Crawler.maxListings options ->
          Crawler.BuyRentKenya.collectLinks options 0 [Some href]
          = [Crawler.BuyRentKenya.BASE_URL ++ href]
          /\ Crawler.Jiji.collectLinks options 0 [Some href]
             = [Crawler.Jiji.BASE_URL ++ href]).
Proof.
  intros options count hrefs. split; [| split].
  - apply fold_links_invariant; [| constructor].
    intros links href H. unfold Crawler.BuyRentKenya.visitLink.
    destruct href as [href |]; [| exact H].
    destruct (_ && _); [| exact H].
    apply Forall_app. split; [exact H |]. constructor; [| constructor].
    unfold absoluteUrl. destruct (startsWith href "http") eqn:E;
      [exact E | reflexivity].
  - apply fold_links_invariant; [| constructor].
    intros links href H. unfold Crawler.Jiji.visitLink.
    destruct href as [href |]; [| exact H].
    destruct (negb (isEmpty href)); cbn [andb]; [| exact H].
    destruct (includes href "/item/") eqn:I; cbn [andb]; [| exact H].
    destruct (negb (arrayIncludes links href)); [| exact H].
    destruct (_ <? _); [| exact H].
    apply Forall_app. split; [exact H |]. constructor; [| constructor].
    unfold absoluteUrl. destruct (startsWith href "http") eqn:E;
      [split; [exact E | exact I] |].
    split; [reflexivity |]. apply includes_after, I.
  - intros href A I Q. unfold absoluteUrl in A.
    assert (N : isEmpty href = false)
      by (destruct href; [discriminate I | reflexivity]).
    apply Nat.ltb_lt in Q.
    unfold Crawler.BuyRentKenya.collectLinks, Crawler.Jiji.collectLinks,
      Crawler.BuyRentKenya.visitLink, Crawler.Jiji.visitLink.
    cbn [fold_left arrayIncludes existsb List.length Nat.add negb andb app].
    rewrite N, A, I, Q. split; reflexivity.
Qed.

Lemma detail_links_absolute_witness :
  Crawler.Jiji.collectLinks (quotaOf 5) 0 [Some (lit "/item/2bdrm-flat.html")]
  = [lit "https://jiji.co.ke/item/2bdrm-flat.html"].
Proof.
  apply (proj2 (proj2 (proj2 (detail_links_absolute (quotaOf 5) 0 []))
                  (lit "/item/2bdrm-flat.html") eq_refl eq_refl
                  ltac:(cbn; lia))).
Defined.

Lemma ceilDiv_bounds (m n : nat) :
  0 < n -> m <= n * ceilDiv m n /\ n * ceilDiv m n < m + n.
Proof.
  intros H. unfold ceilDiv.
  pose proof (Nat.div_mod_eq (m + n - 1) n) as E.
  pose proof (Nat.mod_upper_bound (m + n - 1) n ltac:(lia)) as U.
  lia.
Qed.

(** X21. How far the split of the quota lets a run go.  With at least one
    source, each crawler's quota times the number of sources covers the
    total asked for and stays below that total plus the number of sources;
    hence a run without inherited names returns fewer listings than the
    total asked for plus the number of sources. *)
Theorem total_below_quota_plus_sources :
  forall (input : Main.Input)
         (engine : nat -> list (Crawler.Request * Crawler.Page)),
    plainNames (Main.sources input) ->
    Main.sources input <> [] ->
    let n := List.length (Main.sources input) in
    let quota := ceilDiv (Main.maxListings input) n in
    Main.maxListings input <= n * quota
    /\ n * quota < Main.maxListings input + n
    /\ List.length (fst (Main.main input engine)) < Main.maxListings input + n.
Proof.
  intros input engine P Hne n quota.
  assert (Hn : 0 < n)
    by (subst n; destruct (Main.sources input); [congruence | cbn; lia]).
  destruct (ceilDiv_bounds (Main.maxListings input) n Hn) as [L U].
  split; [exact L |]. split; [exact U |].
  unfold Main.main.
  rewrite (processSources_plain input engine _ P 0 []). cbn [app fst].
  pose proof (contributions_bounded input engine (Main.sources input) 0) as B.
  fold n in B. fold quota in B. lia.
Qed.

Lemma total_below_quota_plus_sources_witness :
  List.length (fst (Main.main (runInput ["jiji"; "zillow"; "BuyRentKenya"])
                              (fun _ => [])))
  < 100 + 3.
Proof.
  apply (total_below_quota_plus_sources
           (runInput ["jiji"; "zillow"; "BuyRentKenya"]) (fun _ => [])).
  - repeat constructor; vm_compute; discriminate.
  - discriminate.
Defined.

(* ================================================================== *)
(** ** Locations, image URLs and the identity of a scraped listing *)
(* ================================================================== *)

Lemma scanParts_gazetteer (parts : list str) :
  scanParts parts None None = (None, None)
  \/ exists k, In k kenyaCities
               /\ scanParts parts None None
                  = (Some (capitalize k), regionOf k).
Proof.
  induction parts as [|p parts IH]; [left; reflexivity |].
  cbn [scanParts]. rewrite matchCity_find.
  destruct (find _ kenyaCities) as [k |] eqn:F; cbn [option_map fst snd isSet].
  - apply find_some in F. destruct F as [F _].
    destruct (known_city_facts k F) as [-> _]. cbn [negb].
    right. exists k. split; [exact F | reflexivity].
  - exact IH.
Qed.

Lemma locationParts_trimmed (original a : str) :
  In a (locationParts original) -> a <> [] /\ trim a = a.
Proof.
  unfold locationParts. intros H. apply filter_In in H. destruct H as [H N].
  apply in_map_iff in H. destruct H as (x & <- & _).
  split; [| apply trim_idem].
  destruct (trim x); [discriminate N | discriminate].
Qed.

(** X22. Whatever the input of [normalizeLocation]: the city, when there
    is one, is an entry of the gazetteer with its first letter in upper
    case, and the region is the one the table gives for that entry; city
    and region are null together; the area, when there is one, is not
    empty and has no white space at either end; and the original is the
    trimmed text of the input. *)
Theorem location_from_gazetteer :
  forall v : value,
    let r := normalizeLocation v in
    (forall c, city r = Some c ->
               exists k, In k kenyaCities /\ c = capitalize k
                         /\ region r = regionOf k)
    /\ (city r = None <-> region r = None)
    /\ (forall a, area r = Some a -> a <> [] /\ trim a = a)
    /\ location_original r
       = (if truthy v then Some (trim (ToString v)) else None).
Proof.
  intros v r. subst r. unfold normalizeLocation.
  destruct (truthy v); cbn [negb];
    [| cbn [city region area location_original];
       split; [discriminate |]; split; [tauto |];
       split; [discriminate | reflexivity]].
  destruct (scanParts_gazetteer (locationParts (trim (ToString v))))
    as [-> | (k & Hk & ->)]; cbn [city region area location_original].
  - split; [discriminate |]. split; [tauto |]. split; [| reflexivity].
    intros a H. apply (locationParts_trimmed (trim (ToString v))).
    destruct (locationParts (trim (ToString v))); [discriminate H |].
    injection H as <-. left; reflexivity.
  - split; [intros c [= <-]; exists k; repeat split; exact Hk |].
    split.
    + destruct (known_city_facts k Hk) as [_ R]. split; [discriminate |].
      intros E. contradiction.
    + split; [| reflexivity].
      intros a H. apply (locationParts_trimmed (trim (ToString v))).
      destruct (locationParts (trim (ToString v))); [discriminate H |].
      injection H as <-. left; reflexivity.
Qed.

Lemma includes_head (c : ascii) (s needle : str) :
  includes (c :: s) needle = false ->
  startsWith (c :: s) needle = false /\ includes s needle = false.
Proof. cbn [includes]. apply orb_false_elim. Qed.

Lemma replaceThumb_plain (s : str) :
  includes s "-thumb." = false -> replaceThumb s = s.
Proof.
  induction s as [|c s IH]; intros H; [reflexivity |].
  apply includes_head in H. destruct H as [S I].
  cbn [replaceThumb]. unfold thumbSuffixAt. rewrite S. cbn [andb].
  f_equal. apply IH, I.
Qed.

Lemma stringEntry_text (u : str) : u <> [] -> stringEntry (VStr u) = Some u.
Proof. destruct u; [congruence | reflexivity]. Qed.

(** X23. How one image URL is resolved, when it has no white space and no
    [-thumb.] in it: a URL that starts with http is kept as it is, a
    protocol-relative URL (two slashes) gets [https:] in front, and any
    other text is dropped. *)
Theorem image_urls_resolved :
  forall u : str,
    u <> [] -> noSpace u = true -> includes u "-thumb." = false ->
    (startsWith u "http" = true ->
     normalizeImages (ImagesScalar (VStr u)) = [u])
    /\ (startsWith u "//" = true ->
        normalizeImages (ImagesScalar (VStr u)) = [lit "https:" ++ u])
    /\ (startsWith u "http" = false -> startsWith u "//" = false ->
        normalizeImages (ImagesScalar (VStr u)) = []).
Proof.
  intros u Hne Hs Ht.
  assert (T : truthy (VStr u) = true) by (destruct u; [congruence | reflexivity]).
  assert (N : forall b : bool,
             normalizeImages (ImagesScalar (VStr u))
             = filter (fun url => startsWith url "http")
                 [replaceThumb (if startsWith u "//"
                                then lit "https:" +++ u else u)]).
  { intros _. unfold normalizeImages. rewrite T.
    cbn [flat_map]. rewrite (stringEntry_text u Hne). cbn [app map].
    unfold normalizeImageUrl. rewrite (trim_id u Hs). reflexivity. }
  rewrite (N true). split; [| split].
  - intros H. destruct (startsWith u "//") eqn:S.
    + apply startsWith_app in H. destruct H as [t ->]. discriminate S.
    + rewrite (replaceThumb_plain u Ht). cbn [filter]. rewrite H. reflexivity.
  - intros ->.
    rewrite replaceThumb_plain; [reflexivity |].
    unfold cat. cbn [lit list_ascii_of_string app includes startsWith].
    cbn [Ascii.eqb Bool.eqb andb orb]. exact Ht.
  - intros H ->. rewrite (replaceThumb_plain u Ht). cbn [filter].
    rewrite H. reflexivity.
Qed.

Lemma image_urls_resolved_witness :
  normalizeImages (ImagesScalar (VStr "//example.com/img.jpg"))
  = [lit "https://example.com/img.jpg"].
Proof.
  apply (proj1 (proj2 (image_urls_resolved (lit "//example.com/img.jpg")
                         ltac:(discriminate) eq_refl eq_refl))).
  reflexivity.
Defined.

Lemma jiji_listingId_filled (u i : str) :
  Crawler.Jiji.listingId u = Some i -> i <> [].
Proof.
  unfold Crawler.Jiji.listingId.
  destruct (Crawler.Jiji.matchId u) as [ds |] eqn:E.
  - intros [= <-]. induction u as [|c u IH]; cbn [Crawler.Jiji.matchId] in E.
    + destruct (Crawler.Jiji.matchIdAt []) eqn:M; [| discriminate].
      injection E as <-. apply (jiji_matchIdAt_digits _ _ M).
    + destruct (Crawler.Jiji.matchIdAt (c :: u)) eqn:M; [| exact (IH E)].
      injection E as <-. apply (jiji_matchIdAt_digits _ _ M).
  - destruct (replaceFirst ".html" [] (lastSegment u)); cbn [isEmpty];
      [discriminate | intros [= <-]; discriminate].
Qed.

Lemma orField_keeps (a : option str) :
  (forall s, a = Some s -> s <> []) -> orField (orField a None) None = a.
Proof.
  intros H. destruct a as [s |]; [| reflexivity].
  specialize (H s eq_refl). destruct s; [congruence | reflexivity].
Qed.

(** X24. The identity of a scraped listing: its URL is the URL of the
    request (null for an empty one), and its identifier is the one read
    off that URL, on either site. *)
Theorem scraped_identity :
  forall (page : Crawler.BuyRentKenya.Document)
         (item : Crawler.Jiji.Document) (u name currency : str),
    let l := normalizeListing
               (fst (Crawler.BuyRentKenya.extractListingFromPage page u))
               name currency in
    let m := normalizeListing
               (fst (Crawler.Jiji.extractListingFromPage item u))
               name currency in
    url l = (if isEmpty u then None else Some u)
    /\ url m = url l
    /\ id l = Crawler.BuyRentKenya.listingId u
    /\ id m = Crawler.Jiji.listingId u.
Proof.
  intros page item u name currency l m. subst l m.
  cbn [normalizeListing url id fst
       Crawler.BuyRentKenya.extractListingFromPage
       Crawler.Jiji.extractListingFromPage raw_url raw_id raw_listingId].
  split; [destruct u; reflexivity |]. split; [reflexivity |].
  split; apply orField_keeps.
  - intros s H. apply (brk_listingId_digits u s H).
  - intros s H. apply (jiji_listingId_filled u s H).
Qed.

Lemma brk_images_kept (els : list (option str * option str)) :
  Forall (fun src => src <> [] /\ includes src "avatar" = false
                     /\ includes src "logo" = false)
         (Crawler.BuyRentKenya.imageSources els).
Proof.
  unfold Crawler.BuyRentKenya.imageSources. apply Forall_flat_map.
  apply Forall_forall. intros el _.
  destruct (Crawler.imageSource el) as [src |]; [| constructor].
  destruct (Crawler.BuyRentKenya.keepImage src) eqn:K; [| constructor].
  constructor; [| constructor].
  unfold Crawler.BuyRentKenya.keepImage in K. split_andb.
  split; [apply isEmpty_false; assumption | split; assumption].
Qed.

Lemma jiji_images_kept (els : list (option str * option str)) :
  Forall (fun src => src <> [] /\ includes src "avatar" = false
                     /\ includes src "logo" = false
                     /\ includes src "placeholder" = false)
         (Crawler.Jiji.imageSources els).
Proof.
  unfold Crawler.Jiji.imageSources. apply Forall_flat_map.
  apply Forall_forall. intros el _.
  destruct (Crawler.imageSource el) as [src |]; [| constructor].
  destruct (Crawler.Jiji.keepImage src) eqn:K; [| constructor].
  constructor; [| constructor].
  unfold Crawler.Jiji.keepImage in K. split_andb.
  split; [apply isEmpty_false; assumption | repeat split; assumption].
Qed.

(** X25. The images a detail page gives.  No image taken from an image
    element is empty or has avatar or logo (on Jiji also placeholder) in
    its address.  On Jiji every text of a JSON-LD image member is taken as
    well, whatever it contains, after the images of the elements. *)
Theorem gallery_images_filtered :
  forall (page : Crawler.BuyRentKenya.Document)
         (item : Crawler.Jiji.Document) (u : str),
    (exists srcs,
       raw_images (fst (Crawler.BuyRentKenya.extractListingFromPage page u))
       = ImagesArray (map VStr srcs)
       /\ Forall (fun src => src <> [] /\ includes src "avatar" = false
                             /\ includes src "logo" = false) srcs)
    /\ (exists srcs,
          raw_images (fst (Crawler.Jiji.extractListingFromPage item u))
          = ImagesArray
              (map VStr (srcs ++ flat_map Crawler.Jiji.stringsOf
                                   (Crawler.Jiji.jsonLdImages item)))
          /\ Forall (fun src => src <> [] /\ includes src "avatar" = false
                                /\ includes src "logo" = false
                                /\ includes src "placeholder" = false) srcs)
    /\ (forall imgs s,
          In imgs (Crawler.Jiji.jsonLdImages item) -> In (VStr s) imgs ->
          In s (flat_map Crawler.Jiji.stringsOf
                         (Crawler.Jiji.jsonLdImages item))).
Proof.
  intros page item u. split; [| split].
  - eexists. split; [reflexivity | apply brk_images_kept].
  - eexists. split; [reflexivity | apply jiji_images_kept].
  - intros imgs s Hi Hs. apply in_flat_map. exists imgs. split; [exact Hi |].
    unfold Crawler.Jiji.stringsOf. apply in_flat_map.
    exists (VStr s). split; [exact Hs | left; reflexivity].
Qed.
